(** * GEOSX flow kernels: a shallow embedding and its verified properties

    Sources embedded here:
    - [physicsSolvers/fluidFlow/SinglePhaseFVMKernels.hpp]
      ([FluxKernelHelper], [FluxKernel]),
    - [physicsSolvers/fluidFlow/TwoPhaseBase.cpp] ([TwoPhaseBase]),
    - [constitutive/solid/DamageVolDev.hpp] ([DamageVolDevUpdates]).

    Numeric model.  [real64] is interpreted as the field of real numbers:
    every arithmetic operation of the C++ code is the exact operation on
    [R], comparisons are the order of [R].  Rounding, infinities and NaN are
    outside this model.  Array views are total maps from indices to values;
    an in-place write is a functional update of the map. *)

From Stdlib Require Import Reals Lra Lia List String ZArith Bool Arith Sorted.
Import ListNotations.

Open Scope R_scope.

(** ** Basic types of [common/DataTypes.hpp] *)

Abbreviation real64 := R (only parsing).
Abbreviation localIndex := nat (only parsing).
Abbreviation globalIndex := Z (only parsing).
Abbreviation integer := Z (only parsing).

Definition arrayView1d (T : Type) : Type := localIndex -> T.
Definition arrayView2d (T : Type) : Type := localIndex -> localIndex -> T.
Definition arraySlice1d (T : Type) : Type := localIndex -> T.
Definition arraySlice2d (T : Type) : Type := localIndex -> localIndex -> T.

(** [ElementViewAccessor]: data addressed by region and sub-region. *)
Definition ElementView (V : Type) : Type := localIndex -> localIndex -> V.

(** [a[i] = v] *)
Definition upd {T : Type} (a : localIndex -> T) (i : localIndex) (v : T)
  : localIndex -> T :=
  fun j => if Nat.eqb j i then v else a j.

Arguments upd {T} a i%_nat v _%_nat.

(** [a[i][j] = v] *)
Definition upd2 {T : Type} (a : localIndex -> localIndex -> T)
  (i j : localIndex) (v : T) : localIndex -> localIndex -> T :=
  fun i' j' => if Nat.eqb i' i && Nat.eqb j' j then v else a i' j'.

Arguments upd2 {T} a i%_nat j%_nat v _%_nat _%_nat.

(** [for( k = lo; k < lo + n; ++k ) body] threading the loop state. *)
Definition forLoop {S : Type} (lo n : nat) (body : nat -> S -> S) (s : S) : S :=
  fold_left (fun acc k => body k acc) (seq lo n) s.

Arguments forLoop {S} lo%_nat n%_nat body s.

(** The same loop for a body that may leave defined behaviour. *)
Definition forLoopM {S : Type} (lo n : nat) (body : nat -> S -> option S)
  (s : S) : option S :=
  fold_left (fun acc k => match acc with
                          | Some st => body k st
                          | None => None
                          end) (seq lo n) (Some s).

Arguments forLoopM {S} lo%_nat n%_nat body s.

(** The sum of the first [n] entries of an array; used to state what a
    kernel conserves. *)
Fixpoint sumTo (n : nat) (f : nat -> R) : R :=
  match n with
  | O => 0
  | S k => sumTo k f + f k
  end.

(** ** FluxKernelHelper *)

Module FluxKernelHelper.

(** Each specialization returns [(aperTerm, dAperTerm_dAper)]. *)

(** [apertureForPermeablityCalculation< 0 >]: the second argument is
    unnamed and unused. *)
Definition apertureForPermeablityCalculation_0 (aper0 _aper : real64)
  : real64 * real64 :=
  let aperTerm := aper0 * aper0 * aper0 in
  let dAperTerm_dAper := 0.0 in
  (aperTerm, dAperTerm_dAper).

(** [apertureForPermeablityCalculation< 1 >] *)
Definition apertureForPermeablityCalculation_1 (aper0 aper : real64)
  : real64 * real64 :=
  let aperTerm := 0.25 * ( aper0 * aper0 * aper0 +
                           aper0 * aper0 * aper +
                           aper0 * aper * aper +
                           aper * aper * aper ) in
  let dAperTerm_dAper := 0.25 * ( aper0 * aper0 +
                                  2 * aper0 * aper +
                                  3 * aper * aper ) in
  (aperTerm, dAperTerm_dAper).

(** [apertureForPermeablityCalculation< 2 >]: the first argument is
    unnamed and unused. *)
Definition apertureForPermeablityCalculation_2 (_aper0 aper : real64)
  : real64 * real64 :=
  let aperTerm := aper * aper * aper in
  let dAperTerm_dAper := 3.0 * aper * aper in
  (aperTerm, dAperTerm_dAper).

End FluxKernelHelper.

(** ** FluxKernel *)

Module FluxKernel.

(** Modelled from the spec: [CellElementStencilTPFA::NUM_POINT_IN_FLUX] is
    declared in [finiteVolume/CellElementStencilTPFA.hpp]; the two-point
    stencil joins exactly two cells.  The capacity [MAX_STENCIL_SIZE] of the
    working arrays plays no role here: they are total maps. *)
Definition NUM_POINT_IN_FLUX : localIndex := 2%nat.

(** [(potDif >= 0) ? 0 : 1] *)
Definition upwindIndex (potDif : real64) : localIndex :=
  if Rge_dec potDif 0 then 0%nat else 1%nat.

(** The last loop of both [Compute] overloads: fills the two rows of the
    local Jacobian; row 1 is read back from row 0. *)
Definition populateJacobian (stencilSize : localIndex) (dt : real64)
  (dFlux_dP : arraySlice1d real64) (fluxJacobian : arraySlice2d real64)
  : arraySlice2d real64 :=
  forLoop 0 stencilSize
    (fun ke fluxJacobian =>
       let fluxJacobian := upd2 fluxJacobian 0 ke (dt * dFlux_dP ke) in
       let fluxJacobian := upd2 fluxJacobian 1 ke (- fluxJacobian 0%nat ke) in
       fluxJacobian)
    fluxJacobian.

(** [Compute], general version (different element regions).  Returns the
    updated [(flux, fluxJacobian)]. *)
Definition Compute
  (stencilSize : localIndex)
  (seri sesri sei : arraySlice1d localIndex)
  (stencilWeights : arraySlice1d real64)
  (pres dPres gravCoef : ElementView (arrayView1d real64))
  (dens dDens_dPres : ElementView (arrayView2d real64))
  (mob dMob_dPres : ElementView (arrayView1d real64))
  (dt : real64)
  (flux : arraySlice1d real64)
  (fluxJacobian : arraySlice2d real64)
  : arraySlice1d real64 * arraySlice2d real64 :=
  let numElems := NUM_POINT_IN_FLUX in
  (* clear working arrays *)
  let dDensMean_dP : arraySlice1d real64 := fun _ => 0.0 in
  (* density averaging weights *)
  let densWeight : arraySlice1d real64 := fun _ => 0.5 in
  (* calculate quantities on primary connected cells *)
  let '(densMean, dDensMean_dP) :=
    forLoop 0 numElems
      (fun ke '(densMean, dDensMean_dP) =>
         let density := dens (seri ke) (sesri ke) (sei ke) 0%nat in
         let dDens_dP := dDens_dPres (seri ke) (sesri ke) (sei ke) 0%nat in
         (densMean + densWeight ke * density,
          upd dDensMean_dP ke (densWeight ke * dDens_dP)))
      (0.0, dDensMean_dP) in
  (* compute potential difference MPFA-style *)
  let '(potDif, sumWeightGrav) :=
    forLoop 0 stencilSize
      (fun ke '(potDif, sumWeightGrav) =>
         let er := seri ke in
         let esr := sesri ke in
         let ei := sei ke in
         let weight := stencilWeights ke in
         let gravD := gravCoef er esr ei in
         let gravTerm := densMean * gravD in
         let sumWeightGrav := sumWeightGrav + weight * gravD in
         (potDif + weight * (pres er esr ei + dPres er esr ei - gravTerm),
          sumWeightGrav))
      (0.0, 0.0) in
  (* upwinding of fluid properties *)
  let k_up := upwindIndex potDif in
  let er_up := seri k_up in
  let esr_up := sesri k_up in
  let ei_up := sei k_up in
  let mobility := mob er_up esr_up ei_up in
  let dMobility_dP := dMob_dPres er_up esr_up ei_up in
  (* compute the final flux and derivatives *)
  let fluxVal := mobility * potDif in
  let dFlux_dP : arraySlice1d real64 :=
    forLoop 0 stencilSize
      (fun ke dFlux_dP =>
         let weight := stencilWeights ke in
         upd dFlux_dP ke
           (mobility * (weight - dDensMean_dP ke * sumWeightGrav)))
      (fun _ => 0.0) in
  let dFlux_dP := upd dFlux_dP k_up (dFlux_dP k_up + dMobility_dP * potDif) in
  (* populate local flux vector and derivatives *)
  let flux := upd flux 0 (dt * fluxVal) in
  let flux := upd flux 1 (- flux 0%nat) in
  (flux, populateJacobian stencilSize dt dFlux_dP fluxJacobian).

(** [Compute], specialized version for fluxes within one region: the
    first two index slices are unnamed and unused. *)
Definition Compute_sameRegion
  (stencilSize : localIndex)
  (_seri _sesri : arraySlice1d localIndex)
  (stencilElementIndices : arraySlice1d localIndex)
  (stencilWeights : arraySlice1d real64)
  (pres dPres gravCoef : arrayView1d real64)
  (dens dDens_dPres : arrayView2d real64)
  (mob dMob_dPres : arrayView1d real64)
  (dt : real64)
  (flux : arraySlice1d real64)
  (fluxJacobian : arraySlice2d real64)
  : arraySlice1d real64 * arraySlice2d real64 :=
  let numElems := NUM_POINT_IN_FLUX in
  (* clear working arrays *)
  let dDensMean_dP : arraySlice1d real64 := fun _ => 0.0 in
  (* density averaging weights *)
  let densWeight : arraySlice1d real64 := fun _ => 1.0 / INR numElems in
  (* calculate quantities on primary connected cells *)
  let '(densMean, dDensMean_dP) :=
    forLoop 0 numElems
      (fun i '(densMean, dDensMean_dP) =>
         let density := dens (stencilElementIndices i) 0%nat in
         let dDens_dP := dDens_dPres (stencilElementIndices i) 0%nat in
         (densMean + densWeight i * density,
          upd dDensMean_dP i (densWeight i * dDens_dP)))
      (0.0, dDensMean_dP) in
  (* compute potential difference MPFA-style *)
  let '(potDif, sumWeightGrav) :=
    forLoop 0 stencilSize
      (fun ke '(potDif, sumWeightGrav) =>
         let ei := stencilElementIndices ke in
         let weight := stencilWeights ke in
         let gravD := gravCoef ei in
         let gravTerm := densMean * gravD in
         let sumWeightGrav := sumWeightGrav + weight * gravD in
         (potDif + weight * (pres ei + dPres ei - gravTerm), sumWeightGrav))
      (0.0, 0.0) in
  (* upwinding of fluid properties *)
  let k_up := upwindIndex potDif in
  let ei_up := stencilElementIndices k_up in
  let mobility := mob ei_up in
  let dMobility_dP := dMob_dPres ei_up in
  (* compute the final flux and derivatives *)
  let fluxVal := mobility * potDif in
  let dFlux_dP : arraySlice1d real64 :=
    forLoop 0 stencilSize
      (fun ke dFlux_dP =>
         let weight := stencilWeights ke in
         upd dFlux_dP ke
           (mobility * (weight - dDensMean_dP ke * sumWeightGrav)))
      (fun _ => 0.0) in
  let dFlux_dP := upd dFlux_dP k_up (dFlux_dP k_up + dMobility_dP * potDif) in
  (* populate local flux vector and derivatives *)
  let flux := upd flux 0 (dt * fluxVal) in
  let flux := upd flux 1 (- flux 0%nat) in
  (flux, populateJacobian stencilSize dt dFlux_dP fluxJacobian).

(** *** ComputeJunction *)

(** What [ComputeJunction] reads through its [domain] pointer.  The
    hydrofracture solver supplies [tipLoc], [meshSize] and [totalTime]; the
    surface generator supplies [trailingFaces]; [faceMap] is the face list
    of the fracture sub-region, one row per face element; the moduli,
    [viscosity] and [injectionRate] are the registered defaults of the
    constitutive models and of the source term.  [averageGap] stands for
    the loop over the nodes of the two faces of the tip element (it reads
    face normals, the face-to-node map, the nodal displacements and the
    tip-node set of the mesh managers) and [edgeLength] for
    [edgeManager->calculateLength( fractureConnectorsToEdges[iconn], X ).L2_Norm()];
    both are kept as the values those mesh queries return. *)
Record DomainPartition : Type := {
  tipLoc : real64;
  meshSize : real64;
  totalTime : real64;
  trailingFaces : list localIndex;
  faceMap : list (list localIndex);
  shearModulus : real64;
  bulkModulus : real64;
  viscosity : real64;
  injectionRate : real64;
  averageGap : localIndex -> real64;
  edgeLength : localIndex -> real64
}.

(** [SortedArray< localIndex >::insert] *)
Fixpoint insert (x : localIndex) (l : list localIndex) : list localIndex :=
  match l with
  | [] => [x]
  | y :: l' =>
      if Nat.ltb x y then x :: l
      else if Nat.eqb x y then l
      else y :: insert x l'
  end.

(** [std::find( a.begin(), a.end(), x ) != a.end()] *)
Definition contains (a : list localIndex) (x : localIndex) : bool :=
  existsb (Nat.eqb x) a.

(** The two inner loops over the face elements: the index of the first
    face element one of whose faces is [trailingFace]. *)
Fixpoint findFaceElement (rows : list (list localIndex)) (i : localIndex)
  (trailingFace : localIndex) : option localIndex :=
  match rows with
  | [] => None
  | row :: rest =>
      if contains row trailingFace then Some i
      else findFaceElement rest (S i) trailingFace
  end.

Definition computeTipElements (domain : DomainPartition) : list localIndex :=
  fold_left
    (fun tipElements trailingFace =>
       match findFaceElement (faceMap domain) 0 trailingFace with
       | Some i => insert i tipElements
       | None => tipElements
       end)
    (trailingFaces domain) [].

(** The three local buffers the kernel writes into. *)
Record LocalBuffers : Type := {
  flux : arraySlice1d real64;
  fluxJacobian : arraySlice2d real64;
  dFlux_dAperture : arraySlice2d real64
}.

(** Read of a local array declared with two entries, [T a[2]]: an index
    past the end is outside defined behaviour. *)
Definition at2 {T : Type} (a : T * T) (i : localIndex) : option T :=
  match i with
  | 0%nat => Some (fst a)
  | 1%nat => Some (snd a)
  | _ => None
  end.

Definition set2 {T : Type} (a : T * T) (i : localIndex) (v : T) : T * T :=
  match i with
  | 0%nat => (v, snd a)
  | 1%nat => (fst a, v)
  | _ => a
  end.

(** The closed-form tip asymptote of the override branch: the pressure
    gradient [gradP] for a tip element whose mean opening is [averageGap].
    [pow] with a fractional exponent is [Rpower], with an integral one a
    power of the field. *)
Definition tipGradP (domain : DomainPartition) (averageGap : real64) : real64 :=
  let q0 := 2.0 * Rabs (injectionRate domain) / 1.0e3 in
  let totalTime := totalTime domain in
  let nu := ( 1.5 * bulkModulus domain - shearModulus domain )
            / ( 3.0 * bulkModulus domain + shearModulus domain ) in
  let E := ( 9.0 * bulkModulus domain * shearModulus domain )
           / ( 3.0 * bulkModulus domain + shearModulus domain ) in
  let Eprime := E / (1.0 - nu * nu) in
  let mup := 12.0 * viscosity domain in
  let Lm := Rpower ( Eprime * q0 ^ 3 * totalTime ^ 4 / mup ) (1.0 / 6.0) in
  let gamma_m0 := 0.616 in
  let velocity := 2.0 / 3.0 * Lm * gamma_m0 / totalTime in
  let Betam := Rpower 2.0 (1.0 / 3.0) * Rpower 3.0 (5.0 / 6.0) in
  let coeff := - Rpower 6.0 (- 2.0 / 3.0)
               * Rpower ( Eprime * Eprime * mup * velocity ) (1.0 / 3.0) in
  (* gradP is a positive number *)
  - 1.0 / 3.0 * coeff * Betam ^ 2
  * Rpower ( Eprime / mup / velocity ) (- 2.0 / 3.0)
  * powerRZ averageGap (- 2).

(** The bases of the powers with a fractional exponent taken in
    [tipGradP], in source order: of [Lm], of the two factors of [Betam],
    of the two factors of [coeff] and of the last factor of [gradP].
    [Rpower] is [pow] where the base is positive; where the base is zero or
    negative [pow] returns 0, an infinity or NaN, which [Rpower] does not
    render, so that [tipGradP] stands for the source only where these bases
    are positive. *)
Definition tipPowBases (domain : DomainPartition) : list real64 :=
  let q0 := 2.0 * Rabs (injectionRate domain) / 1.0e3 in
  let totalTime := totalTime domain in
  let nu := ( 1.5 * bulkModulus domain - shearModulus domain )
            / ( 3.0 * bulkModulus domain + shearModulus domain ) in
  let E := ( 9.0 * bulkModulus domain * shearModulus domain )
           / ( 3.0 * bulkModulus domain + shearModulus domain ) in
  let Eprime := E / (1.0 - nu * nu) in
  let mup := 12.0 * viscosity domain in
  let Lm := Rpower ( Eprime * q0 ^ 3 * totalTime ^ 4 / mup ) (1.0 / 6.0) in
  let gamma_m0 := 0.616 in
  let velocity := 2.0 / 3.0 * Lm * gamma_m0 / totalTime in
  [ Eprime * q0 ^ 3 * totalTime ^ 4 / mup;
    2.0; 3.0; 6.0;
    Eprime * Eprime * mup * velocity;
    Eprime / mup / velocity ].

Section Junction.

Variable numFluxElems : localIndex.
Variable stencilElementIndices : arraySlice1d localIndex.
Variable stencilWeights : arraySlice1d real64.
Variables pres dPres gravCoef : arrayView1d real64.
Variables dens dDens_dPres : arrayView2d real64.
Variables mob dMob_dPres : arrayView1d real64.
Variables aperture0 aperture : arrayView1d real64.
Variable meanPermCoeff : real64.
Variable dt : real64.
Variable domain : DomainPartition.
Variable iconn : localIndex.

(** First loop, with [PERM_CALC == 1]: the aperture terms and the sum
    of the weighted terms. *)
Definition apertureTerms
  : real64 * arraySlice1d real64 * arraySlice1d real64 :=
  forLoop 0 numFluxElems
    (fun k '(sumOfWeights, aperTerm, dAperTerm_dAper) =>
       let '(t, dt_dAper) :=
         FluxKernelHelper.apertureForPermeablityCalculation_2
           (aperture0 (stencilElementIndices k))
           (aperture (stencilElementIndices k)) in
       let aperTerm := upd aperTerm k t in
       let dAperTerm_dAper := upd dAperTerm_dAper k dt_dAper in
       (sumOfWeights + aperTerm k * stencilWeights k,
        aperTerm, dAperTerm_dAper))
    (0, fun _ => 0, fun _ => 0).

(** The search for the tip element inside the override branch: the loop
    runs over [numFluxElems] but reads the two-entry arrays [ei] and
    [k].  Result: [(tempCount, tipElmtIndex, channelElmtIndex)], the
    two indices unset until assigned. *)
Definition classifyPair (tipElements : list localIndex)
  (ei k : localIndex * localIndex)
  : option (Z * option localIndex * option localIndex) :=
  forLoopM 0 numFluxElems
    (fun i '(tempCount, tipElmtIndex, channelElmtIndex) =>
       match at2 ei i, at2 k i with
       | Some ei_i, Some k_i =>
           if contains tipElements ei_i
           then Some ((tempCount + 1)%Z, Some k_i, channelElmtIndex)
           else Some (tempCount, tipElmtIndex, Some k_i)
       | _, _ => None
       end)
    (0%Z, None, None).

(** Whether both guards around the override hold. *)
Definition viscosityDominatedTip : bool :=
  if Rgt_dec (tipLoc domain) (1.0 * meshSize domain)
  then if Rge_dec (viscosity domain) 2.0e-3 then true else false
  else false.

(** [potDif] for the pair [(k[0], k[1])]. *)
Definition pairPotDif (k0 k1 : localIndex) : real64 :=
  let ei := (stencilElementIndices k0, stencilElementIndices k1) in
  let densMean := 0.5 * ( dens (fst ei) 0%nat + dens (snd ei) 0%nat ) in
  ( pres (fst ei) + dPres (fst ei) )
  - ( pres (snd ei) + dPres (snd ei) )
  - densMean * ( gravCoef (fst ei) - gravCoef (snd ei) ).

(** [ei_up = stencilElementIndices[k[k_up]]] *)
Definition pairUpwindElement (k0 k1 : localIndex) : localIndex :=
  let k_up := upwindIndex (pairPotDif k0 k1) in
  stencilElementIndices (if Nat.eqb k_up 0 then k0 else k1).

(** [modifiedFluxVal] of the override branch, for the upwind [mobility] and
    the tip element [tipElmt]. *)
Definition modifiedFluxVal (mobility : real64) (tipElmt : localIndex) : real64 :=
  let averageGap := averageGap domain tipElmt in
  let edgeLength := edgeLength domain iconn in
  let gradP := tipGradP domain averageGap in
  dt * mobility * edgeLength / 12.0 * averageGap ^ 3 * gradP.

(** Body of the double loop for the pair [(k[0], k[1])]. *)
Definition junctionPair (tipElements : list localIndex)
  (sumOfWeights : real64) (aperTerm dAperTerm_dAper : arraySlice1d real64)
  (k0 k1 : localIndex) (out : LocalBuffers) : option LocalBuffers :=
  let k := (k0, k1) in
  let dFlux_dP : real64 * real64 := (0, 0) in
  let ei := (stencilElementIndices k0, stencilElementIndices k1) in
  let c := meanPermCoeff in
  let harmonicWeight :=
    ( stencilWeights k0 * aperTerm k0 ) *
    ( stencilWeights k1 * aperTerm k1 ) / sumOfWeights in
  let weight :=
    c * harmonicWeight
    + (1.0 - c) * 0.25 * ( stencilWeights k0 * aperTerm k0
                           + stencilWeights k1 * aperTerm k1 ) in
  let dHarmonicWeight_dAper :=
    ( ( 1 / aperTerm k0 - stencilWeights k0 / sumOfWeights )
      * harmonicWeight * dAperTerm_dAper k0,
      ( 1 / aperTerm k1 - stencilWeights k1 / sumOfWeights )
      * harmonicWeight * dAperTerm_dAper k1 ) in
  let dWeight_dAper :=
    ( c * fst dHarmonicWeight_dAper
      + 0.25 * ( 1.0 - c ) * stencilWeights k0 * dAperTerm_dAper k0,
      c * snd dHarmonicWeight_dAper
      + 0.25 * ( 1.0 - c ) * stencilWeights k1 * dAperTerm_dAper k1 ) in
  (* average density *)
  let dDensMean_dP := ( 0.5 * dDens_dPres (fst ei) 0%nat,
                        0.5 * dDens_dPres (snd ei) 0%nat ) in
  let potDif := pairPotDif k0 k1 in
  (* upwinding of fluid properties *)
  let k_up := upwindIndex potDif in
  let ei_up := pairUpwindElement k0 k1 in
  let mobility := mob ei_up in
  let dMobility_dP := dMob_dPres ei_up in
  (* compute flux and fill flux rval *)
  let fluxVal := mobility * weight * potDif * dt in
  (* compute and fill dFlux_dP *)
  let dFlux_dP :=
    ( mobility * weight
      * ( 1 - fst dDensMean_dP * ( gravCoef (fst ei) - gravCoef (snd ei) ) ) * dt,
      mobility * weight
      * ( - 1 - snd dDensMean_dP * ( gravCoef (fst ei) - gravCoef (snd ei) ) ) * dt ) in
  let dFlux_dP :=
    if Nat.eqb k_up 0
    then (fst dFlux_dP + dMobility_dP * weight * potDif * dt, snd dFlux_dP)
    else (fst dFlux_dP, snd dFlux_dP + dMobility_dP * weight * potDif * dt) in
  let dFlux_dAper := ( mobility * fst dWeight_dAper * potDif * dt,
                       mobility * snd dWeight_dAper * potDif * dt ) in
  (* the tip override *)
  let standard := Some (out, fluxVal, dFlux_dP, dFlux_dAper) in
  let afterTip : option (LocalBuffers * real64 * (real64 * real64)
                         * (real64 * real64)) :=
    if viscosityDominatedTip then
      match classifyPair tipElements ei k with
      | None => None
      | Some (tempCount, tipElmtIndex, channelElmtIndex) =>
          if Z.eqb tempCount 1 then
            match tipElmtIndex, channelElmtIndex with
            | Some tipElmtIndex, Some channelElmtIndex =>
                match at2 ei tipElmtIndex, at2 ei channelElmtIndex with
                | Some tipElmt, Some _channelElmt =>
                    let modifiedFluxVal := modifiedFluxVal mobility tipElmt in
                    let flux := flux out in
                    let flux := upd flux tipElmtIndex (flux tipElmtIndex - 0.0) in
                    let flux := upd flux channelElmtIndex
                                  (flux channelElmtIndex + modifiedFluxVal) in
                    let modifieddFlux_dP :=
                      set2 (0, 0) k_up
                        (dt * dMobility_dP * edgeLength domain iconn / 12.0
                         * averageGap domain tipElmt ^ 3
                         * tipGradP domain (averageGap domain tipElmt)) in
                    match at2 modifieddFlux_dP tipElmtIndex,
                          at2 modifieddFlux_dP channelElmtIndex with
                    | Some dTip, Some dChannel =>
                        let J := fluxJacobian out in
                        let J := upd2 J tipElmtIndex tipElmtIndex
                                   (J tipElmtIndex tipElmtIndex - 0.0) in
                        let J := upd2 J tipElmtIndex channelElmtIndex
                                   (J tipElmtIndex channelElmtIndex - 0.0) in
                        let J := upd2 J channelElmtIndex tipElmtIndex
                                   (J channelElmtIndex tipElmtIndex + dTip) in
                        let J := upd2 J channelElmtIndex channelElmtIndex
                                   (J channelElmtIndex channelElmtIndex + dChannel) in
                        Some ({| flux := flux;
                                 fluxJacobian := J;
                                 dFlux_dAperture := dFlux_dAperture out |},
                              0.0, (0.0, 0.0), (0.0, 0.0))
                    | _, _ => None
                    end
                | _, _ => None
                end
            | _, _ => None
            end
          else standard
      end
    else standard in
  match afterTip with
  | None => None
  | Some (out, fluxVal, dFlux_dP, dFlux_dAper) =>
      let flux := flux out in
      let flux := upd flux k0 (flux k0 + fluxVal) in
      let flux := upd flux k1 (flux k1 - fluxVal) in
      let J := fluxJacobian out in
      let J := upd2 J k0 k0 (J k0 k0 + fst dFlux_dP) in
      let J := upd2 J k0 k1 (J k0 k1 + snd dFlux_dP) in
      let J := upd2 J k1 k0 (J k1 k0 - fst dFlux_dP) in
      let J := upd2 J k1 k1 (J k1 k1 - snd dFlux_dP) in
      let A := dFlux_dAperture out in
      let A := upd2 A k0 k0 (A k0 k0 + fst dFlux_dAper) in
      let A := upd2 A k0 k1 (A k0 k1 + snd dFlux_dAper) in
      let A := upd2 A k1 k0 (A k1 k0 - fst dFlux_dAper) in
      let A := upd2 A k1 k1 (A k1 k1 - snd dFlux_dAper) in
      Some {| flux := flux; fluxJacobian := J; dFlux_dAperture := A |}
  end.

(** Whether the pair [(k[0], k[1])] takes the override: both guards hold and
    the search counts exactly one tip element. *)
Definition tipOverrideTaken (tipElements : list localIndex)
  (k0 k1 : localIndex) : bool :=
  viscosityDominatedTip
  && match classifyPair tipElements
             (stencilElementIndices k0, stencilElementIndices k1) (k0, k1) with
     | Some (tempCount, _, _) => Z.eqb tempCount 1
     | None => false
     end.

(** [ComputeJunction]: [None] when the run leaves defined behaviour
    (more flux elements than the ten entries of [aperTerm], or an
    override search reading past the two-entry arrays). *)
Definition ComputeJunction (out : LocalBuffers) : option LocalBuffers :=
  let tipElements := computeTipElements domain in
  let '(sumOfWeights, aperTerm, dAperTerm_dAper) := apertureTerms in
  if Nat.ltb 10 numFluxElems then None else
  forLoopM 0 numFluxElems
    (fun k0 out =>
       forLoopM (k0 + 1) (numFluxElems - (k0 + 1))
         (fun k1 out =>
            junctionPair tipElements sumOfWeights aperTerm dAperTerm_dAper
              k0 k1 out)
         out)
    out.

End Junction.

(** What an exchange between two flux elements leaves unchanged: the sum
    of the local fluxes and every column sum of the two local Jacobians,
    taken over the [numFluxElems] flux elements of the junction. *)
Definition sameTotals (numFluxElems : localIndex) (out out' : LocalBuffers)
  : Prop :=
  sumTo numFluxElems (flux out') = sumTo numFluxElems (flux out)
  /\ (forall c, sumTo numFluxElems (fun r => fluxJacobian out' r c)
                = sumTo numFluxElems (fun r => fluxJacobian out r c))
  /\ (forall c, sumTo numFluxElems (fun r => dFlux_dAperture out' r c)
                = sumTo numFluxElems (fun r => dFlux_dAperture out r c)).

End FluxKernel.


(** ** DamageVolDevUpdates *)

Module DamageVolDevUpdates.

(** The template parameter [UPDATE_BASE]: what the damage wrapper asks of
    the underlying solid model. *)
Class UPDATE_BASE (B : Type) : Type := {
  m_stress : B -> localIndex -> localIndex -> localIndex -> real64;
  getBulkModulus : B -> localIndex -> real64;
  calculateStrainEnergyDensity : B -> localIndex -> localIndex -> real64
}.

(** The members [DamageUpdates] adds to the base. *)
Record DamageFields : Type := {
  m_damage : arrayView2d real64;
  m_strainEnergyDensity : arrayView2d real64;
  m_lengthScale : real64;
  m_criticalFractureEnergy : real64;
  m_criticalStrainEnergy : real64
}.

(** Lorentz type degradation function. *)
Definition GetDegradationValue (u : DamageFields) (k q : localIndex) : real64 :=
  let m := m_criticalFractureEnergy u
           / (2 * m_lengthScale u * m_criticalStrainEnergy u) in
  let p := 1 in
  (1 - m_damage u k q) ^ 2
  / ( (1 - m_damage u k q) ^ 2
      + m * m_damage u k q * (1 + p * m_damage u k q) ).

Section WithBase.

Context {B : Type} `{UPDATE_BASE B}.

(** The candidate [sed] of [calculateActiveStrainEnergyDensity]. *)
Definition activeStrainEnergyDensityCandidate (b : B) (k q : localIndex)
  : real64 :=
  let K := getBulkModulus b k in
  let traceOfStress := m_stress b k q 0 + m_stress b k q 1 + m_stress b k q 2 in
  let compressionIndicator := if Rlt_dec traceOfStress 0.0 then 1 else 0 in
  calculateStrainEnergyDensity b k q
  - compressionIndicator * (traceOfStress / 3.0) * (traceOfStress / 3.0) / (2 * K).

(** [calculateActiveStrainEnergyDensity]: returns the value and the
    fields after the write through the [m_strainEnergyDensity] view. *)
Definition calculateActiveStrainEnergyDensity (b : B) (u : DamageFields)
  (k q : localIndex) : real64 * DamageFields :=
  let sed := activeStrainEnergyDensityCandidate b k q in
  (* enforce irreversibility using history field for the strain energy density *)
  let u :=
    if Rgt_dec sed (m_strainEnergyDensity u k q)
    then {| m_damage := m_damage u;
            m_strainEnergyDensity := upd2 (m_strainEnergyDensity u) k q sed;
            m_lengthScale := m_lengthScale u;
            m_criticalFractureEnergy := m_criticalFractureEnergy u;
            m_criticalStrainEnergy := m_criticalStrainEnergy u |}
    else u in
  (m_strainEnergyDensity u k q, u).

(** A sequence of calls; each call sees the base model in its state at
    that moment and addresses its own quadrature point. *)
Definition evaluations (calls : list (B * localIndex * localIndex))
  (u : DamageFields) : DamageFields :=
  fold_left
    (fun u '(b, k, q) => snd (calculateActiveStrainEnergyDensity b u k q))
    calls u.

End WithBase.

(** [GetDegradationDerivative] *)
Definition GetDegradationDerivative (u : DamageFields) (d : real64) : real64 :=
  let m := m_criticalFractureEnergy u
           / (2 * m_lengthScale u * m_criticalStrainEnergy u) in
  let p := 1 in
  - m * (1 - d) * (1 + (2 * p + 1) * d)
  / ( (1 - d) ^ 2 + m * d * (1 + p * d) ) ^ 2.

(** [GetDegradationSecondDerivative] *)
Definition GetDegradationSecondDerivative (u : DamageFields) (d : real64)
  : real64 :=
  let m := m_criticalFractureEnergy u
           / (2 * m_lengthScale u * m_criticalStrainEnergy u) in
  let p := 1 in
  - 2 * m * ( d ^ 3 * (2 * m * p * p + m * p + 2 * p + 1)
              + d ^ 2 * (- 3 * m * p * p - 3 * p)
              + d * (- 3 * m * p - 3)
              + (- m + p + 2) )
  / ( (1 - d) ^ 2 + m * d * (1 + p * d) ) ^ 3.

(** [getEnergyThreshold] *)
Definition getEnergyThreshold (u : DamageFields) : real64 :=
  3 * m_criticalFractureEnergy u / (16 * m_lengthScale u).

(** The fields with the damage of every point set to [d]. *)
Definition withDamage (u : DamageFields) (d : real64) : DamageFields :=
  {| m_damage := fun _ _ => d;
     m_strainEnergyDensity := m_strainEnergyDensity u;
     m_lengthScale := m_lengthScale u;
     m_criticalFractureEnergy := m_criticalFractureEnergy u;
     m_criticalStrainEnergy := m_criticalStrainEnergy u |}.

Section WithBaseStress.

Context {B : Type} `{UPDATE_BASE B}.

(** [traceOfStress] and [compressionIndicator], computed alike by
    [GetStiffness], [calculateActiveStrainEnergyDensity] and [getStress]. *)
Definition traceOfStress (b : B) (k q : localIndex) : real64 :=
  m_stress b k q 0 + m_stress b k q 1 + m_stress b k q 2.

Definition compressionIndicator (b : B) (k q : localIndex) : real64 :=
  if Rlt_dec (traceOfStress b k q) 0.0 then 1 else 0.

(** [GetStiffness]: [c] holds what [UPDATE_BASE::GetStiffness( k, q, c )]
    stored, the result is [c] after the volumetric/deviatoric split. *)
Definition GetStiffness (b : B) (u : DamageFields) (k q : localIndex)
  (c : arraySlice2d real64) : arraySlice2d real64 :=
  let damageFactor := GetDegradationValue u k q in
  let K := getBulkModulus b k in
  let compressionIndicator := compressionIndicator b k q in
  forLoop 0 6
    (fun i c =>
       forLoop 0 6
         (fun j c =>
            if Nat.ltb i 3 && Nat.ltb j 3
            then upd2 c i j (damageFactor * c i j
                             + (1 - damageFactor) * K * compressionIndicator)
            else upd2 c i j (c i j * damageFactor))
         c)
    c.

(** [getStress]: the six entries written into [stress]. *)
Definition getStress (b : B) (u : DamageFields) (k q : localIndex)
  (stress : arraySlice1d real64) : arraySlice1d real64 :=
  (* volumetric-deviatoric split *)
  let damageFactor := GetDegradationValue u k q in
  let traceOfStress := traceOfStress b k q in
  let compressionIndicator := compressionIndicator b k q in
  let stress := upd stress 0 (m_stress b k q 0 * damageFactor
                              + traceOfStress / 3.0 * (1 - damageFactor)
                                * compressionIndicator) in
  let stress := upd stress 1 (m_stress b k q 1 * damageFactor
                              + traceOfStress / 3.0 * (1 - damageFactor)
                                * compressionIndicator) in
  let stress := upd stress 2 (m_stress b k q 2 * damageFactor
                              + traceOfStress / 3.0 * (1 - damageFactor)
                                * compressionIndicator) in
  let stress := upd stress 3 (m_stress b k q 3 * damageFactor) in
  let stress := upd stress 4 (m_stress b k q 4 * damageFactor) in
  let stress := upd stress 5 (m_stress b k q 5 * damageFactor) in
  stress.

End WithBaseStress.

End DamageVolDevUpdates.

(** ** FlowSolverBase *)

Module FlowSolverBase.

Inductive timeIntegrationOption : Type :=
| SteadyState
| ImplicitTransient
| ExplicitTransient
| InertialTransient.

(** [SetTimeIntegrationOption]: the new value of [m_timeIntegrationOption],
    [None] where the function stops in [GEOS_ERROR]. *)
Definition SetTimeIntegrationOption (stringVal : string)
  : option timeIntegrationOption :=
  if String.eqb stringVal "ImplicitTransient" then Some ImplicitTransient
  else if String.eqb stringVal "ExplicitTransient" then Some ExplicitTransient
  else if String.eqb stringVal "InertialTransient" then Some InertialTransient
  else if String.eqb stringVal "SteadyState" then Some SteadyState
  else None.

End FlowSolverBase.

(** ** TwoPhaseBase *)

Module TwoPhaseBase.

(** Modelled from the spec: [NUM_PHASES] is declared in [TwoPhaseBase.hpp];
    the solver has two phases (the fluid model is rejected unless
    [numFluidPhases() == 2]). *)
Definition NUM_PHASES : localIndex := 2.

(** Modelled from the spec: [RowOffset] is declared in [TwoPhaseBase.hpp];
    the wetting phase goes to row 0, the non-wetting phase to row 1. *)
Module RowOffset.
Definition WETTING : localIndex := 0.
Definition NONWETTING : localIndex := 1.
End RowOffset.

(** *** InitializePreSubGroups *)

(** What the function asks of [MultiFluidBase] and
    [RelativePermeabilityBase]. *)
Record ConstitutiveRelation : Type := {
  numFluidPhases : localIndex;
  phaseName : localIndex -> string;
  getIndexInParent : localIndex
}.

(** The failures [GEOSX_ERROR_IF] reports, in source order. *)
Inductive ConfigurationError : Type :=
| RelPermModelNotFound
| InvalidNumberOfFluidPhases
| NumberOfFluidPhasesDiffers
| PhaseDoesNotMatch (phase_fl phase_rp : string)
| UnacceptedPhaseNames.

(** The members the function sets. *)
Record PhaseMaps : Type := {
  m_relPermIndex : localIndex;
  m_phaseToRow : arrayView1d localIndex
}.

Definition GEOSX_ERROR_IF {A : Type} (cond : bool) (e : ConfigurationError)
  (k : ConfigurationError + A) : ConfigurationError + A :=
  if cond then inl e else k.

(** The loop comparing the phase names index by index. *)
Fixpoint checkPhaseNames (fluid relPerm : ConstitutiveRelation)
  (ips : list localIndex) : option ConfigurationError :=
  match ips with
  | [] => None
  | ip :: rest =>
      let phase_fl := phaseName fluid ip in
      let phase_rp := phaseName relPerm ip in
      if negb (String.eqb phase_fl phase_rp)
      then Some (PhaseDoesNotMatch phase_fl phase_rp)
      else checkPhaseNames fluid relPerm rest
  end.

(** [InitializePreSubGroups], after the call to the base class and up to the
    filling of [m_phaseToRow]; [relPerm] is [None] for a null pointer.  The
    closing loop over the mesh bodies only resizes fields. *)
Definition InitializePreSubGroups (fluid : ConstitutiveRelation)
  (relPerm : option ConstitutiveRelation) : ConfigurationError + PhaseMaps :=
  match relPerm with
  | None => inl RelPermModelNotFound
  | Some relPerm =>
      let m_relPermIndex := getIndexInParent relPerm in
      GEOSX_ERROR_IF (negb (Nat.eqb (numFluidPhases fluid) 2))
        InvalidNumberOfFluidPhases (
      (* consistency check between the models *)
      GEOSX_ERROR_IF (negb (Nat.eqb (numFluidPhases fluid) (numFluidPhases relPerm)))
        NumberOfFluidPhasesDiffers (
      let numPhases := NUM_PHASES in
      GEOSX_ERROR_IF (negb (Nat.eqb (numFluidPhases fluid) numPhases))
        NumberOfFluidPhasesDiffers (
      match checkPhaseNames fluid relPerm (seq 0 numPhases) with
      | Some e => inl e
      | None =>
          let wettingPhaseSat := (-1)%Z in
          let nonWettingPhaseSat := (-1)%Z in
          (* determine the indices of the wetting and non-wetting phases *)
          let '(wettingPhaseSat, nonWettingPhaseSat) :=
            if (String.eqb (phaseName fluid 0) "oil"
                && String.eqb (phaseName fluid 1) "gas")
               || (String.eqb (phaseName fluid 1) "oil"
                   && String.eqb (phaseName fluid 0) "water")
            then (0%Z, 1%Z)
            else if (String.eqb (phaseName fluid 1) "oil"
                     && String.eqb (phaseName fluid 0) "gas")
                    || (String.eqb (phaseName fluid 0) "oil"
                        && String.eqb (phaseName fluid 1) "water")
            then (1%Z, 0%Z)
            else (wettingPhaseSat, nonWettingPhaseSat) in
          GEOSX_ERROR_IF (Z.eqb wettingPhaseSat (-1) || Z.eqb nonWettingPhaseSat (-1))
            UnacceptedPhaseNames (
          (* fill the array mapping the phase index to the row offset *)
          let m_phaseToRow : arrayView1d localIndex := fun _ => 0%nat in
          let m_phaseToRow :=
            upd m_phaseToRow (Z.to_nat wettingPhaseSat) RowOffset.WETTING in
          let m_phaseToRow :=
            upd m_phaseToRow (Z.to_nat nonWettingPhaseSat) RowOffset.NONWETTING in
          inr {| m_relPermIndex := m_relPermIndex;
                 m_phaseToRow := m_phaseToRow |})
      end)))
  end.

(** *** AssembleAccumulationTerms: the equation rows of a cell *)

(** The loop filling [eqnRowIndices] for the cell whose first unknown has
    the global number [dofNumber]. *)
Definition eqnRowIndices (m_phaseToRow : arrayView1d localIndex)
  (dofNumber : globalIndex) : arraySlice1d globalIndex :=
  forLoop 0 NUM_PHASES
    (fun ip eqnRowIndices =>
       upd eqnRowIndices ip (dofNumber + Z.of_nat (m_phaseToRow ip))%Z)
    (fun _ => 0%Z).

(** *** CheckSystemSolution *)

(** The views of one element sub-region the check reads. *)
Record ElementSubRegion : Type := {
  size : localIndex;
  elemDofNumber : arrayView1d globalIndex;
  elemGhostRank : arrayView1d integer;
  pres : arrayView1d real64;
  dPres : arrayView1d real64;
  phaseSat : arrayView2d real64;
  dPhaseSat : arrayView2d real64
}.

(** The rank-local part of the solution vector. *)
Record ParallelVector : Type := {
  extractLocalVector : localIndex -> real64;
  getLocalRowID : globalIndex -> localIndex
}.

(** One rank: its mesh level, as the sub-regions in the order
    [applyToSubRegionsComplete] visits them, and its piece of the
    solution. *)
Record Rank : Type := {
  mesh : list ElementSubRegion;
  solution : ParallelVector
}.

Section WithColOffset.

(** [ColOffset::DPRES] and [ColOffset::DSAT], declared in
    [TwoPhaseBase.hpp]. *)
Variables DPRES DSAT : globalIndex.

Definition newPres (subRegion : ElementSubRegion) (solution : ParallelVector)
  (scalingFactor : real64) (ei : localIndex) : real64 :=
  let localSolution := extractLocalVector solution in
  let lid := getLocalRowID solution (elemDofNumber subRegion ei + DPRES)%Z in
  pres subRegion ei + dPres subRegion ei + scalingFactor * localSolution lid.

Definition newPhaseSat (subRegion : ElementSubRegion) (solution : ParallelVector)
  (scalingFactor : real64) (ei : localIndex) : real64 :=
  let localSolution := extractLocalVector solution in
  let lid := getLocalRowID solution (elemDofNumber subRegion ei + DSAT)%Z in
  phaseSat subRegion ei 0%nat + dPhaseSat subRegion ei 0%nat
  + scalingFactor * localSolution lid.

(** The lambda run for element [ei]; [localCheck] is captured by
    reference. *)
Definition checkElement (subRegion : ElementSubRegion) (solution : ParallelVector)
  (scalingFactor : real64) (ei : localIndex) (localCheck : integer) : integer :=
  if Z.geb (elemGhostRank subRegion ei) 0 then localCheck
  else
    (* extract solution and apply to dP *)
    let localCheck :=
      if Rlt_dec (newPres subRegion solution scalingFactor ei) 0.0
      then 0%Z else localCheck in
    (* extract solution and apply to dS *)
    let localCheck :=
      let s := newPhaseSat subRegion solution scalingFactor ei in
      if Rlt_dec s 0.0 then 0%Z
      else if Rgt_dec s 1.0 then 0%Z
      else localCheck in
    localCheck.

(** Element [ei] trips the check: it is not a ghost and its updated
    pressure is negative or its updated saturation leaves [0, 1]. *)
Definition outOfBounds (subRegion : ElementSubRegion) (solution : ParallelVector)
  (scalingFactor : real64) (ei : localIndex) : Prop :=
  (elemGhostRank subRegion ei < 0)%Z
  /\ (newPres subRegion solution scalingFactor ei < 0
      \/ newPhaseSat subRegion solution scalingFactor ei < 0
      \/ newPhaseSat subRegion solution scalingFactor ei > 1).

(** The rank-local part of [CheckSystemSolution]: the value of
    [localCheck] handed to the reduction. *)
Definition localCheckOf (rank : Rank) (scalingFactor : real64) : integer :=
  fold_left
    (fun localCheck subRegion =>
       forLoop 0 (size subRegion)
         (checkElement subRegion (solution rank) scalingFactor)
         localCheck)
    (mesh rank) 1%Z.

(** Modelled from the spec: [MpiWrapper::Min] is declared in
    [mpiCommunications/MpiWrapper.hpp]; it is the global reduction that
    returns, on every rank, the minimum of the values contributed by all
    ranks. *)
Definition MpiWrapper_Min (mine : integer) (others : list integer) : integer :=
  fold_left Z.min others mine.

(** [CheckSystemSolution] as run on [rank] while the other ranks of the
    communicator run it too; the [int] result converts to [bool]. *)
Definition CheckSystemSolution (rank : Rank) (others : list Rank)
  (scalingFactor : real64) : bool :=
  let localCheck := localCheckOf rank scalingFactor in
  let globalCheck :=
    MpiWrapper_Min localCheck
      (map (fun r => localCheckOf r scalingFactor) others) in
  negb (Z.eqb globalCheck 0).

End WithColOffset.

(** *** UpdateState *)

Module StateUpdate.

(** The values a fluid model holds for one constitutive point. *)
Record FluidPoint : Type := {
  phaseDensity : arraySlice1d real64;
  dPhaseDensity_dPressure : arraySlice1d real64;
  phaseViscosity : arraySlice1d real64;
  dPhaseViscosity_dPressure : arraySlice1d real64
}.

(** The values a solid model holds for one constitutive point. *)
Record SolidPoint : Type := {
  poreVolumeMultiplier : real64;
  dPVMult_dPres : real64
}.

(** The values a relative-permeability model holds for one point. *)
Record RelPermPoint : Type := {
  phaseRelPerm : arraySlice1d real64;
  dPhaseRelPerm_dPhaseVolFraction : arraySlice2d real64
}.

(** The sub-region handed to [UpdateState]: the registered fields and
    the data of the three constitutive models attached to it. *)
Record DataGroup : Type := {
  size : localIndex;
  pressure : arrayView1d real64;
  deltaPressure : arrayView1d real64;
  phaseSat : arrayView2d real64;
  deltaPhaseSat : arrayView2d real64;
  newPhaseSat : arrayView2d real64;
  phaseMobility : arrayView2d real64;
  dPhaseMobility_dPressure : arrayView2d real64;
  dPhaseMobility_dSaturation : arrayView2d real64;
  fluid : arrayView2d FluidPoint;
  solid : arrayView2d SolidPoint;
  relPerm : arrayView2d RelPermPoint
}.

Definition set_fluid (g : DataGroup) (x : arrayView2d FluidPoint) : DataGroup :=
  {| size := size g; pressure := pressure g; deltaPressure := deltaPressure g;
     phaseSat := phaseSat g; deltaPhaseSat := deltaPhaseSat g;
     newPhaseSat := newPhaseSat g; phaseMobility := phaseMobility g;
     dPhaseMobility_dPressure := dPhaseMobility_dPressure g;
     dPhaseMobility_dSaturation := dPhaseMobility_dSaturation g;
     fluid := x; solid := solid g; relPerm := relPerm g |}.

Definition set_solid (g : DataGroup) (x : arrayView2d SolidPoint) : DataGroup :=
  {| size := size g; pressure := pressure g; deltaPressure := deltaPressure g;
     phaseSat := phaseSat g; deltaPhaseSat := deltaPhaseSat g;
     newPhaseSat := newPhaseSat g; phaseMobility := phaseMobility g;
     dPhaseMobility_dPressure := dPhaseMobility_dPressure g;
     dPhaseMobility_dSaturation := dPhaseMobility_dSaturation g;
     fluid := fluid g; solid := x; relPerm := relPerm g |}.

Definition set_relPerm (g : DataGroup) (x : arrayView2d RelPermPoint) : DataGroup :=
  {| size := size g; pressure := pressure g; deltaPressure := deltaPressure g;
     phaseSat := phaseSat g; deltaPhaseSat := deltaPhaseSat g;
     newPhaseSat := newPhaseSat g; phaseMobility := phaseMobility g;
     dPhaseMobility_dPressure := dPhaseMobility_dPressure g;
     dPhaseMobility_dSaturation := dPhaseMobility_dSaturation g;
     fluid := fluid g; solid := solid g; relPerm := x |}.

Definition set_newPhaseSat (g : DataGroup) (x : arrayView2d real64) : DataGroup :=
  {| size := size g; pressure := pressure g; deltaPressure := deltaPressure g;
     phaseSat := phaseSat g; deltaPhaseSat := deltaPhaseSat g;
     newPhaseSat := x; phaseMobility := phaseMobility g;
     dPhaseMobility_dPressure := dPhaseMobility_dPressure g;
     dPhaseMobility_dSaturation := dPhaseMobility_dSaturation g;
     fluid := fluid g; solid := solid g; relPerm := relPerm g |}.

Definition set_mobility (g : DataGroup)
  (x : arrayView2d real64 * arrayView2d real64 * arrayView2d real64)
  : DataGroup :=
  {| size := size g; pressure := pressure g; deltaPressure := deltaPressure g;
     phaseSat := phaseSat g; deltaPhaseSat := deltaPhaseSat g;
     newPhaseSat := newPhaseSat g;
     phaseMobility := fst (fst x);
     dPhaseMobility_dPressure := snd (fst x);
     dPhaseMobility_dSaturation := snd x;
     fluid := fluid g; solid := solid g; relPerm := relPerm g |}.

(** The first [n] entries of a slice, as handed to a constitutive
    update. *)
Definition entries (a : arraySlice1d real64) (n : localIndex) : list real64 :=
  map a (seq 0 n).

Section WithModels.

(** The evaluation maps of the three constitutive models attached to
    the sub-region: fluid (pressure, temperature, composition), solid
    (pressure) and relative permeability (phase saturations). *)
Variable evaluateFluid : real64 -> real64 -> list real64 -> FluidPoint.
Variable evaluateSolid : real64 -> SolidPoint.
Variable evaluateRelPerm : list real64 -> RelPermPoint.

(** Modelled from the spec: [MultiFluidBase::PointUpdate] is defined
    with the fluid models, outside this file.  A constitutive
    collaborator exposes a pure evaluate(state) -> (value, derivatives)
    contract: the call stores the evaluation at point [(a, q)]. *)
Definition PointUpdate (fluid : arrayView2d FluidPoint)
  (pres temperature : real64) (compFrac : list real64) (a q : localIndex)
  : arrayView2d FluidPoint :=
  upd2 fluid a q (evaluateFluid pres temperature compFrac).

(** Modelled from the spec: [ConstitutiveBase::StateUpdatePointPressure]
    is defined with the solid models, outside this file; same pure
    evaluate contract. *)
Definition StateUpdatePointPressure (solid : arrayView2d SolidPoint)
  (pres : real64) (a q : localIndex) : arrayView2d SolidPoint :=
  upd2 solid a q (evaluateSolid pres).

(** Modelled from the spec: [RelativePermeabilityBase::BatchUpdate] is
    defined with the relative permeability models, outside this file;
    it evaluates every element of the sub-region at its trial
    saturations, with the same pure evaluate contract. *)
Definition BatchUpdate (n : localIndex) (relPerm : arrayView2d RelPermPoint)
  (phaseVolumeFraction : arrayView2d real64) : arrayView2d RelPermPoint :=
  forLoop 0 n
    (fun a relPerm =>
       upd2 relPerm a 0
         (evaluateRelPerm (entries (phaseVolumeFraction a) NUM_PHASES)))
    relPerm.

(** Modelled from the spec: [PhaseMobilityKernel] is defined in
    [TwoPhaseBaseKernels.hpp].  Phase mobility = relperm x density /
    viscosity, plus its partials with respect to pressure and
    saturation by the chain rule. *)
Definition phaseMobilityOf (f : FluidPoint) (r : RelPermPoint)
  (ip : localIndex) : real64 * real64 * real64 :=
  let kr := phaseRelPerm r ip in
  let dKr_dS := dPhaseRelPerm_dPhaseVolFraction r ip ip in
  let dens := phaseDensity f ip in
  let dDens_dP := dPhaseDensity_dPressure f ip in
  let visc := phaseViscosity f ip in
  let dVisc_dP := dPhaseViscosity_dPressure f ip in
  ( kr * dens / visc,
    kr * ( dDens_dP / visc - dens * dVisc_dP / (visc * visc) ),
    dKr_dS * dens / visc ).

(** Modelled from the spec: [PhaseMobilityKernel::Compute], the kernel
    body for element [a]: one mobility and its two partials per phase. *)
Definition PhaseMobilityKernel_Compute (f : FluidPoint) (r : RelPermPoint)
  (a : localIndex)
  (mobs : arrayView2d real64 * arrayView2d real64 * arrayView2d real64)
  : arrayView2d real64 * arrayView2d real64 * arrayView2d real64 :=
  forLoop 0 NUM_PHASES
    (fun ip '(phaseMob, dPhaseMob_dPres, dPhaseMob_dSat) =>
       let '(m, dm_dP, dm_dS) := phaseMobilityOf f r ip in
       (upd2 phaseMob a ip m,
        upd2 dPhaseMob_dPres a ip dm_dP,
        upd2 dPhaseMob_dSat a ip dm_dS))
    mobs.

(** Modelled from the spec: [PhaseMobilityKernel::Launch], the kernel body
    run for every element of the sub-region. *)
Definition PhaseMobilityKernel_Launch (n : localIndex)
  (fluid : arrayView2d FluidPoint) (relPerm : arrayView2d RelPermPoint)
  (mobs : arrayView2d real64 * arrayView2d real64 * arrayView2d real64)
  : arrayView2d real64 * arrayView2d real64 * arrayView2d real64 :=
  forLoop 0 n
    (fun a mobs =>
       PhaseMobilityKernel_Compute (fluid a 0%nat) (relPerm a 0%nat) a mobs)
    mobs.

Definition UpdateFluidModel (dataGroup : DataGroup) : DataGroup :=
  let pres := pressure dataGroup in
  let dPres := deltaPressure dataGroup in
  let dummyTemperature := 293.15 in
  let dummyCompFrac := [0; 0] in
  set_fluid dataGroup
    (forLoop 0 (size dataGroup)
       (fun a fluid =>
          PointUpdate fluid (pres a + dPres a) dummyTemperature
            dummyCompFrac a 0)
       (fluid dataGroup)).

Definition UpdateSolidModel (dataGroup : DataGroup) : DataGroup :=
  let pres := pressure dataGroup in
  let dPres := deltaPressure dataGroup in
  set_solid dataGroup
    (forLoop 0 (size dataGroup)
       (fun a solid => StateUpdatePointPressure solid (pres a + dPres a) a 0)
       (solid dataGroup)).

Definition UpdateRelPermModel (dataGroup : DataGroup) : DataGroup :=
  let phaseSat := phaseSat dataGroup in
  let dPhaseSat := deltaPhaseSat dataGroup in
  let numPhases := NUM_PHASES in
  let newPhaseSat :=
    forLoop 0 (size dataGroup)
      (fun a newPhaseSat =>
         forLoop 0 numPhases
           (fun ip newPhaseSat =>
              upd2 newPhaseSat a ip (phaseSat a ip + dPhaseSat a ip))
           newPhaseSat)
      (newPhaseSat dataGroup) in
  let dataGroup := set_newPhaseSat dataGroup newPhaseSat in
  set_relPerm dataGroup
    (BatchUpdate (size dataGroup) (relPerm dataGroup) newPhaseSat).

Definition UpdatePhaseMobility (dataGroup : DataGroup) : DataGroup :=
  set_mobility dataGroup
    (PhaseMobilityKernel_Launch (size dataGroup)
       (fluid dataGroup) (relPerm dataGroup)
       (phaseMobility dataGroup,
        dPhaseMobility_dPressure dataGroup,
        dPhaseMobility_dSaturation dataGroup)).

Definition UpdateState (dataGroup : DataGroup) : DataGroup :=
  let dataGroup := UpdateFluidModel dataGroup in
  let dataGroup := UpdateSolidModel dataGroup in
  let dataGroup := UpdateRelPermModel dataGroup in
  UpdatePhaseMobility dataGroup.

(** The trial saturations of element [a] and the constitutive evaluations
    at its trial state. *)
Definition trialSaturations (g : DataGroup) (a : localIndex) : list real64 :=
  [phaseSat g a 0%nat + deltaPhaseSat g a 0%nat;
   phaseSat g a 1%nat + deltaPhaseSat g a 1%nat].

Definition fluidAt (g : DataGroup) (a : localIndex) : FluidPoint :=
  evaluateFluid (pressure g a + deltaPressure g a) 293.15 [0; 0].

Definition solidAt (g : DataGroup) (a : localIndex) : SolidPoint :=
  evaluateSolid (pressure g a + deltaPressure g a).

Definition relPermAt (g : DataGroup) (a : localIndex) : RelPermPoint :=
  evaluateRelPerm (trialSaturations g a).

End WithModels.

(** *** ImplicitStepComplete and ResetStateToBeginningOfStep *)

Definition set_primary (g : DataGroup)
  (x : arrayView1d real64 * arrayView2d real64) : DataGroup :=
  {| size := size g; pressure := fst x; deltaPressure := deltaPressure g;
     phaseSat := snd x; deltaPhaseSat := deltaPhaseSat g;
     newPhaseSat := newPhaseSat g; phaseMobility := phaseMobility g;
     dPhaseMobility_dPressure := dPhaseMobility_dPressure g;
     dPhaseMobility_dSaturation := dPhaseMobility_dSaturation g;
     fluid := fluid g; solid := solid g; relPerm := relPerm g |}.

Definition set_deltas (g : DataGroup)
  (x : arrayView1d real64 * arrayView2d real64) : DataGroup :=
  {| size := size g; pressure := pressure g; deltaPressure := fst x;
     phaseSat := phaseSat g; deltaPhaseSat := snd x;
     newPhaseSat := newPhaseSat g; phaseMobility := phaseMobility g;
     dPhaseMobility_dPressure := dPhaseMobility_dPressure g;
     dPhaseMobility_dSaturation := dPhaseMobility_dSaturation g;
     fluid := fluid g; solid := solid g; relPerm := relPerm g |}.

(** [ImplicitStepComplete] on one sub-region: the deltas are folded into
    the pressure and into the two phase saturations. *)
Definition ImplicitStepComplete (subRegion : DataGroup) : DataGroup :=
  let dPres := deltaPressure subRegion in
  let dPhaseSat := deltaPhaseSat subRegion in
  set_primary subRegion
    (forLoop 0 (size subRegion)
       (fun ei '(pres, phaseSat) =>
          let pres := upd pres ei (pres ei + dPres ei) in
          let phaseSat :=
            upd2 phaseSat ei 0 (phaseSat ei 0%nat + dPhaseSat ei 0%nat) in
          let phaseSat :=
            upd2 phaseSat ei 1 (phaseSat ei 1%nat + dPhaseSat ei 1%nat) in
          (pres, phaseSat))
       (pressure subRegion, phaseSat subRegion)).

Section StepBoundaries.

Variable evaluateFluid : real64 -> real64 -> list real64 -> FluidPoint.
Variable evaluateSolid : real64 -> SolidPoint.
Variable evaluateRelPerm : list real64 -> RelPermPoint.

(** [ResetStateToBeginningOfStep] on one sub-region: the deltas are set
    to zero, then the state is updated. *)
Definition ResetStateToBeginningOfStep (subRegion : DataGroup) : DataGroup :=
  let subRegion :=
    set_deltas subRegion
      (forLoop 0 (size subRegion)
         (fun ei '(dPres, dPhaseSat) =>
            let dPres := upd dPres ei 0.0 in
            let dPhaseSat := upd2 dPhaseSat ei 0 0.0 in
            let dPhaseSat := upd2 dPhaseSat ei 1 0.0 in
            (dPres, dPhaseSat))
         (deltaPressure subRegion, deltaPhaseSat subRegion)) in
  UpdateState evaluateFluid evaluateSolid evaluateRelPerm subRegion.

End StepBoundaries.

(** The primary unknowns are the same in both groups. *)
Definition primaryEq (g1 g2 : DataGroup) : Prop :=
  size g1 = size g2
  /\ (forall a, pressure g1 a = pressure g2 a)
  /\ (forall a, deltaPressure g1 a = deltaPressure g2 a)
  /\ (forall a ip, phaseSat g1 a ip = phaseSat g2 a ip)
  /\ (forall a ip, deltaPhaseSat g1 a ip = deltaPhaseSat g2 a ip).

(** Every derived field holds the same values in both groups. *)
Definition derivedEq (g1 g2 : DataGroup) : Prop :=
  (forall a q, fluid g1 a q = fluid g2 a q)
  /\ (forall a q, solid g1 a q = solid g2 a q)
  /\ (forall a ip, newPhaseSat g1 a ip = newPhaseSat g2 a ip)
  /\ (forall a q, relPerm g1 a q = relPerm g2 a q)
  /\ (forall a ip, phaseMobility g1 a ip = phaseMobility g2 a ip)
  /\ (forall a ip, dPhaseMobility_dPressure g1 a ip
                   = dPhaseMobility_dPressure g2 a ip)
  /\ (forall a ip, dPhaseMobility_dSaturation g1 a ip
                   = dPhaseMobility_dSaturation g2 a ip).

(** [written inside new old]: the value of an entry after a pass that
    stores [new] in the entries it covers. *)
Definition written {A : Type} (inside : bool) (new old : A) : A :=
  if inside then new else old.

End StateUpdate.

End TwoPhaseBase.

(** ** Concrete inputs used by the worked instances below *)

Module Examples.

(** A quadrature point with damage 1/2 and modulus ratio 1. *)
Definition halfDamaged : DamageVolDevUpdates.DamageFields :=
  {| DamageVolDevUpdates.m_damage := fun _ _ => 1 / 2;
     DamageVolDevUpdates.m_strainEnergyDensity := fun _ _ => 0;
     DamageVolDevUpdates.m_lengthScale := 1;
     DamageVolDevUpdates.m_criticalFractureEnergy := 2;
     DamageVolDevUpdates.m_criticalStrainEnergy := 1 |}.

(** A two-cell connection: cells 0 and 1 of one sub-region, weights [1]
    and [-1], pressures 10 and 5, unit density and mobility, no gravity. *)
Definition cells : arraySlice1d localIndex := fun k => k.
Definition region0 : arraySlice1d localIndex := fun _ => 0%nat.
Definition weights : arraySlice1d real64 :=
  fun k => if Nat.eqb k 0 then 1 else - 1.
Definition pressures : arrayView1d real64 :=
  fun ei => if Nat.eqb ei 0 then 10 else 5.
Definition const1 (v : real64) : arrayView1d real64 := fun _ => v.
Definition const2 (v : real64) : arrayView2d real64 := fun _ _ => v.
Definition inRegions {V : Type} (v : V) : ElementView V := fun _ _ => v.

Definition zeroBuffers : FluxKernel.LocalBuffers :=
  {| FluxKernel.flux := fun _ => 0;
     FluxKernel.fluxJacobian := fun _ _ => 0;
     FluxKernel.dFlux_dAperture := fun _ _ => 0 |}.

(** A fracture whose tip has advanced two cell lengths in a viscous fluid:
    face element 1 owns the trailing face 2 and is the tip element. *)
Definition tipDomain : FluxKernel.DomainPartition :=
  {| FluxKernel.tipLoc := 2;
     FluxKernel.meshSize := 1;
     FluxKernel.totalTime := 1;
     FluxKernel.trailingFaces := [2%nat];
     FluxKernel.faceMap := [[0%nat; 1%nat]; [2%nat; 3%nat]];
     FluxKernel.shearModulus := 1;
     FluxKernel.bulkModulus := 1;
     FluxKernel.viscosity := 1;
     FluxKernel.injectionRate := 1;
     FluxKernel.averageGap := fun _ => 1;
     FluxKernel.edgeLength := fun _ => 12 |}.

(** The same fracture before the tip has left the inlet cell. *)
Definition calmDomain : FluxKernel.DomainPartition :=
  {| FluxKernel.tipLoc := 0;
     FluxKernel.meshSize := 1;
     FluxKernel.totalTime := 1;
     FluxKernel.trailingFaces := [2%nat];
     FluxKernel.faceMap := [[0%nat; 1%nat]; [2%nat; 3%nat]];
     FluxKernel.shearModulus := 1;
     FluxKernel.bulkModulus := 1;
     FluxKernel.viscosity := 1;
     FluxKernel.injectionRate := 1;
     FluxKernel.averageGap := fun _ => 1;
     FluxKernel.edgeLength := fun _ => 12 |}.

(** One rank, one sub-region of three cells: cell 0 sits at pressure 0 and
    saturation 0, cell 1 at pressure 0 and saturation 1, cell 2 is a ghost
    with a negative pressure.  Cell [ei] owns the unknowns [2 ei] and
    [2 ei + 1]; the solution is zero. *)
Definition boundsSubRegion : TwoPhaseBase.ElementSubRegion :=
  {| TwoPhaseBase.size := 3;
     TwoPhaseBase.elemDofNumber := fun ei => (2 * Z.of_nat ei)%Z;
     TwoPhaseBase.elemGhostRank := fun ei => if Nat.eqb ei 2 then 0%Z else (-1)%Z;
     TwoPhaseBase.pres := fun ei => if Nat.eqb ei 2 then - 1 else 0;
     TwoPhaseBase.dPres := fun _ => 0;
     TwoPhaseBase.phaseSat := fun ei _ => if Nat.eqb ei 1 then 1 else 0;
     TwoPhaseBase.dPhaseSat := fun _ _ => 0 |}.

Definition zeroSolution : TwoPhaseBase.ParallelVector :=
  {| TwoPhaseBase.extractLocalVector := fun _ => 0;
     TwoPhaseBase.getLocalRowID := Z.to_nat |}.

Definition boundsRank : TwoPhaseBase.Rank :=
  {| TwoPhaseBase.mesh := [boundsSubRegion];
     TwoPhaseBase.solution := zeroSolution |}.

(** A Newton update that raises every pressure by one and leaves the
    saturations: even unknowns are pressures, odd ones saturations. *)
Definition pressureStepSolution : TwoPhaseBase.ParallelVector :=
  {| TwoPhaseBase.extractLocalVector := fun lid => if Nat.even lid then 1 else 0;
     TwoPhaseBase.getLocalRowID := Z.to_nat |}.

Definition pressureStepRank : TwoPhaseBase.Rank :=
  {| TwoPhaseBase.mesh := [boundsSubRegion];
     TwoPhaseBase.solution := pressureStepSolution |}.

(** One rank with a single owned cell whose pressure and phase-0
    saturation are in bounds while the stored saturation of phase 1 and its
    increment add up to 12; the solution is zero. *)
Definition secondPhaseSubRegion : TwoPhaseBase.ElementSubRegion :=
  {| TwoPhaseBase.size := 1;
     TwoPhaseBase.elemDofNumber := fun ei => (2 * Z.of_nat ei)%Z;
     TwoPhaseBase.elemGhostRank := fun _ => (-1)%Z;
     TwoPhaseBase.pres := fun _ => 1;
     TwoPhaseBase.dPres := fun _ => 0;
     TwoPhaseBase.phaseSat := fun _ ip => if Nat.eqb ip 0 then 1 / 2 else 5;
     TwoPhaseBase.dPhaseSat := fun _ ip => if Nat.eqb ip 0 then 0 else 7 |}.

Definition secondPhaseRank : TwoPhaseBase.Rank :=
  {| TwoPhaseBase.mesh := [secondPhaseSubRegion];
     TwoPhaseBase.solution := zeroSolution |}.

(** A rank holding two ghost cells at a negative pressure. *)
Definition ghostSubRegion : TwoPhaseBase.ElementSubRegion :=
  {| TwoPhaseBase.size := 2;
     TwoPhaseBase.elemDofNumber := fun ei => (2 * Z.of_nat ei)%Z;
     TwoPhaseBase.elemGhostRank := fun _ => 0%Z;
     TwoPhaseBase.pres := fun _ => - 1;
     TwoPhaseBase.dPres := fun _ => 0;
     TwoPhaseBase.phaseSat := fun _ _ => 0;
     TwoPhaseBase.dPhaseSat := fun _ _ => 0 |}.

Definition ghostRank : TwoPhaseBase.Rank :=
  {| TwoPhaseBase.mesh := [ghostSubRegion];
     TwoPhaseBase.solution := zeroSolution |}.

(** Constitutive models declaring two phases. *)
Definition twoPhaseModel (first second : string)
  : TwoPhaseBase.ConstitutiveRelation :=
  {| TwoPhaseBase.numFluidPhases := 2;
     TwoPhaseBase.phaseName :=
       fun ip => match ip with 0%nat => first | _ => second end;
     TwoPhaseBase.getIndexInParent := 0 |}.

(** A base solid model without stress whose strain energy density is its
    whole state. *)
#[global] Instance energyOnly : DamageVolDevUpdates.UPDATE_BASE R :=
  {| DamageVolDevUpdates.m_stress := fun _ _ _ _ => 0;
     DamageVolDevUpdates.getBulkModulus := fun _ _ => 1;
     DamageVolDevUpdates.calculateStrainEnergyDensity := fun b _ _ => b |}.

(** Constitutive evaluations: density equal to the pressure, unit
    viscosity, relative permeability equal to the saturation. *)
Definition linearFluid (pres _temperature : real64) (_compFrac : list real64)
  : TwoPhaseBase.StateUpdate.FluidPoint :=
  {| TwoPhaseBase.StateUpdate.phaseDensity := fun _ => pres;
     TwoPhaseBase.StateUpdate.dPhaseDensity_dPressure := fun _ => 1;
     TwoPhaseBase.StateUpdate.phaseViscosity := fun _ => 1;
     TwoPhaseBase.StateUpdate.dPhaseViscosity_dPressure := fun _ => 0 |}.

Definition rigidSolid (_pres : real64) : TwoPhaseBase.StateUpdate.SolidPoint :=
  {| TwoPhaseBase.StateUpdate.poreVolumeMultiplier := 1;
     TwoPhaseBase.StateUpdate.dPVMult_dPres := 0 |}.

Definition linearRelPerm (sat : list real64)
  : TwoPhaseBase.StateUpdate.RelPermPoint :=
  {| TwoPhaseBase.StateUpdate.phaseRelPerm := fun ip => nth ip sat 0;
     TwoPhaseBase.StateUpdate.dPhaseRelPerm_dPhaseVolFraction := fun _ _ => 1 |}.

(** One cell at pressure 10 with saturations 1/4 and 3/4; the derived
    fields hold zeros. *)
Definition oneCell : TwoPhaseBase.StateUpdate.DataGroup :=
  {| TwoPhaseBase.StateUpdate.size := 1;
     TwoPhaseBase.StateUpdate.pressure := fun _ => 10;
     TwoPhaseBase.StateUpdate.deltaPressure := fun _ => 0;
     TwoPhaseBase.StateUpdate.phaseSat :=
       fun _ ip => if Nat.eqb ip 0 then 1 / 4 else 3 / 4;
     TwoPhaseBase.StateUpdate.deltaPhaseSat := fun _ _ => 0;
     TwoPhaseBase.StateUpdate.newPhaseSat := fun _ _ => 0;
     TwoPhaseBase.StateUpdate.phaseMobility := fun _ _ => 0;
     TwoPhaseBase.StateUpdate.dPhaseMobility_dPressure := fun _ _ => 0;
     TwoPhaseBase.StateUpdate.dPhaseMobility_dSaturation := fun _ _ => 0;
     TwoPhaseBase.StateUpdate.fluid := fun _ _ => linearFluid 0 0 [];
     TwoPhaseBase.StateUpdate.solid := fun _ _ => rigidSolid 0;
     TwoPhaseBase.StateUpdate.relPerm := fun _ _ => linearRelPerm [] |}.

(** One cell at pressure 10 with saturations 1/4 and 3/4 at the end of a
    step that raised the pressure by 2 and moved 1/4 of the pore volume
    from phase 1 to phase 0. *)
Definition steppedCell : TwoPhaseBase.StateUpdate.DataGroup :=
  {| TwoPhaseBase.StateUpdate.size := 1;
     TwoPhaseBase.StateUpdate.pressure := fun _ => 10;
     TwoPhaseBase.StateUpdate.deltaPressure := fun _ => 2;
     TwoPhaseBase.StateUpdate.phaseSat :=
       fun _ ip => if Nat.eqb ip 0 then 1 / 4 else 3 / 4;
     TwoPhaseBase.StateUpdate.deltaPhaseSat :=
       fun _ ip => if Nat.eqb ip 0 then 1 / 4 else - (1 / 4);
     TwoPhaseBase.StateUpdate.newPhaseSat := fun _ _ => 0;
     TwoPhaseBase.StateUpdate.phaseMobility := fun _ _ => 0;
     TwoPhaseBase.StateUpdate.dPhaseMobility_dPressure := fun _ _ => 0;
     TwoPhaseBase.StateUpdate.dPhaseMobility_dSaturation := fun _ _ => 0;
     TwoPhaseBase.StateUpdate.fluid := fun _ _ => linearFluid 0 0 [];
     TwoPhaseBase.StateUpdate.solid := fun _ _ => rigidSolid 0;
     TwoPhaseBase.StateUpdate.relPerm := fun _ _ => linearRelPerm [] |}.

(** A base solid model that is its own stress (six components), with unit
    bulk modulus and unit strain energy density. *)
#[global] Instance stressOnly
  : DamageVolDevUpdates.UPDATE_BASE (arraySlice1d real64) :=
  {| DamageVolDevUpdates.m_stress := fun b _ _ i => b i;
     DamageVolDevUpdates.getBulkModulus := fun _ _ => 1;
     DamageVolDevUpdates.calculateStrainEnergyDensity := fun _ _ _ => 1 |}.

(** Hydrostatic compression and hydrostatic tension of magnitude 3. *)
Definition compression : arraySlice1d real64 :=
  fun i => if Nat.ltb i 3 then - 3 else 0.
Definition tension : arraySlice1d real64 :=
  fun i => if Nat.ltb i 3 then 3 else 0.

End Examples.

(** * Verified properties *)

(** ** Loops and array updates *)

Lemma forLoop_S {S : Type} (lo n : nat) (body : nat -> S -> S) (s : S) :
  forLoop lo (Datatypes.S n) body s = body (lo + n)%nat (forLoop lo n body s).
Proof.
  unfold forLoop. rewrite seq_S, fold_left_app. reflexivity.
Qed.

(** Loop invariants: [P k s] holds of the state after [k] iterations. *)
Lemma forLoop_ind {S : Type} (P : nat -> S -> Prop) (lo n : nat)
  (body : nat -> S -> S) (s : S) :
  P 0%nat s ->
  (forall k st, (k < n)%nat -> P k st -> P (Datatypes.S k) (body (lo + k)%nat st)) ->
  P n (forLoop lo n body s).
Proof.
  intros H0 Hstep. induction n as [|n IH].
  - exact H0.
  - rewrite forLoop_S. apply Hstep; [lia|]. apply IH.
    intros k st Hk. apply Hstep. lia.
Qed.

Lemma upd_same {T : Type} (a : nat -> T) (i : nat) (v : T) : upd a i v i = v.
Proof. unfold upd. rewrite Nat.eqb_refl. reflexivity. Qed.

Lemma upd_other {T : Type} (a : nat -> T) (i j : nat) (v : T) :
  j <> i -> upd a i v j = a j.
Proof.
  intros Hne. unfold upd. destruct (Nat.eqb_spec j i); [contradiction|reflexivity].
Qed.

Lemma upd2_same {T : Type} (a : nat -> nat -> T) (i j : nat) (v : T) :
  upd2 a i j v i j = v.
Proof. unfold upd2. rewrite !Nat.eqb_refl. reflexivity. Qed.

Lemma upd2_other {T : Type} (a : nat -> nat -> T) (i j i' j' : nat) (v : T) :
  i' <> i \/ j' <> j -> upd2 a i j v i' j' = a i' j'.
Proof.
  intros Hne. unfold upd2.
  destruct (Nat.eqb_spec i' i); destruct (Nat.eqb_spec j' j); simpl;
    try reflexivity.
  destruct Hne; contradiction.
Qed.

(** ** Aperture integration rules *)

(** C3 (as stated, refuted): at [aper = aper0 = 1] the three rules do not
    return the same derivative: rule 0 gives 0, rule 1 gives 3/2 and rule 2
    gives 3. *)
Lemma aperture_rules_same_derivative_fails :
  ~ (snd (FluxKernelHelper.apertureForPermeablityCalculation_0 1 1)
     = snd (FluxKernelHelper.apertureForPermeablityCalculation_1 1 1)
     /\ snd (FluxKernelHelper.apertureForPermeablityCalculation_1 1 1)
        = snd (FluxKernelHelper.apertureForPermeablityCalculation_2 1 1)).
Proof.
  unfold FluxKernelHelper.apertureForPermeablityCalculation_0,
    FluxKernelHelper.apertureForPermeablityCalculation_1,
    FluxKernelHelper.apertureForPermeablityCalculation_2.
  simpl. intros [H01 _]. lra.
Qed.

(** C3 (amended): for every aperture [a], with [aper = aper0 = a] the three
    rules return the same aperture term [a^3]; their derivatives are [0]
    (rule 0), [3/2 a^2] (rule 1) and [3 a^2] (rule 2). *)
Theorem aperture_rules_at_equal_apertures (a : real64) :
  let r0 := FluxKernelHelper.apertureForPermeablityCalculation_0 a a in
  let r1 := FluxKernelHelper.apertureForPermeablityCalculation_1 a a in
  let r2 := FluxKernelHelper.apertureForPermeablityCalculation_2 a a in
  fst r0 = a ^ 3 /\ fst r1 = a ^ 3 /\ fst r2 = a ^ 3
  /\ snd r0 = 0 /\ snd r1 = 3 / 2 * a ^ 2 /\ snd r2 = 3 * a ^ 2.
Proof.
  unfold FluxKernelHelper.apertureForPermeablityCalculation_0,
    FluxKernelHelper.apertureForPermeablityCalculation_1,
    FluxKernelHelper.apertureForPermeablityCalculation_2.
  simpl. repeat split; lra.
Qed.

(** ** Degradation function *)

(** C10: for a damage value in [0, 1] and a positive modulus ratio, the
    degradation value lies in [0, 1]; it is 1 at damage 0 and 0 at
    damage 1. *)
Theorem GetDegradationValue_range (u : DamageVolDevUpdates.DamageFields)
  (k q : localIndex) :
  let d := DamageVolDevUpdates.m_damage u k q in
  let m := DamageVolDevUpdates.m_criticalFractureEnergy u
           / (2 * DamageVolDevUpdates.m_lengthScale u
              * DamageVolDevUpdates.m_criticalStrainEnergy u) in
  0 <= d <= 1 ->
  0 < m ->
  0 <= DamageVolDevUpdates.GetDegradationValue u k q <= 1
  /\ (d = 0 -> DamageVolDevUpdates.GetDegradationValue u k q = 1)
  /\ (d = 1 -> DamageVolDevUpdates.GetDegradationValue u k q = 0).
Proof.
  intros d m Hd Hm. unfold DamageVolDevUpdates.GetDegradationValue.
  fold d. fold m.
  set (num := (1 - d) ^ 2).
  set (den := num + m * d * (1 + 1 * d)).
  assert (Hnum : 0 <= num) by (unfold num; nra).
  assert (Hextra : 0 <= m * d * (1 + 1 * d)).
  { apply Rmult_le_pos; [apply Rmult_le_pos|]; lra. }
  assert (Hden : 0 < den).
  { unfold den. destruct (Req_dec d 1) as [E|NE].
    - unfold num. rewrite E. nra.
    - assert (0 < num) by (unfold num; nra). lra. }
  repeat split.
  - apply Rmult_le_pos; [exact Hnum|]. left. apply Rinv_0_lt_compat. exact Hden.
  - apply Rmult_le_reg_r with den; [exact Hden|].
    unfold Rdiv. rewrite Rmult_assoc, Rinv_l by lra. unfold den in *. lra.
  - intros E. unfold den, num. rewrite E. field.
  - intros E. unfold den, num. rewrite E. field. lra.
Qed.

Lemma GetDegradationValue_range_witness :
  (0 <= 1 / 2 <= 1 /\ 0 < 2 / (2 * 1 * 1))
  /\ 0 <= DamageVolDevUpdates.GetDegradationValue Examples.halfDamaged 0 0 <= 1.
Proof.
  split; [split; lra|].
  apply (GetDegradationValue_range Examples.halfDamaged 0 0); simpl; lra.
Defined.

(** ** Strain-energy history *)

Section StrainEnergyHistory.

Import DamageVolDevUpdates.

Context {B : Type} `{UPDATE_BASE B}.

Lemma calculateActiveStrainEnergyDensity_stored (b : B) (u : DamageFields)
  (k q : localIndex) :
  m_strainEnergyDensity (snd (calculateActiveStrainEnergyDensity b u k q)) k q
  = Rmax (m_strainEnergyDensity u k q)
      (activeStrainEnergyDensityCandidate b k q).
Proof.
  unfold calculateActiveStrainEnergyDensity. cbn [snd].
  destruct (Rgt_dec _ _) as [Hgt|Hle]; cbn [m_strainEnergyDensity].
  - rewrite upd2_same, Rmax_right; [reflexivity|lra].
  - rewrite Rmax_left; [reflexivity|lra].
Qed.

Lemma calculateActiveStrainEnergyDensity_grows (b : B) (u : DamageFields)
  (k q k' q' : localIndex) :
  m_strainEnergyDensity u k' q'
  <= m_strainEnergyDensity (snd (calculateActiveStrainEnergyDensity b u k q)) k' q'.
Proof.
  unfold calculateActiveStrainEnergyDensity. cbn [snd].
  destruct (Rgt_dec _ _) as [Hgt|Hle]; cbn [m_strainEnergyDensity]; [|lra].
  unfold upd2.
  destruct (Nat.eqb_spec k' k) as [->|]; destruct (Nat.eqb_spec q' q) as [->|];
    simpl; lra.
Qed.

Lemma evaluations_grow (calls : list (B * localIndex * localIndex))
  (u : DamageFields) (k q : localIndex) :
  m_strainEnergyDensity u k q
  <= m_strainEnergyDensity (evaluations calls u) k q.
Proof.
  revert u. induction calls as [|[[b k0] q0] calls IH]; intros u.
  - simpl. lra.
  - unfold evaluations in *. simpl.
    eapply Rle_trans; [|apply IH].
    apply calculateActiveStrainEnergyDensity_grows.
Qed.

(** C5: along any sequence of calls the stored history at a point never
    decreases (its value after the calls [calls1 ++ calls2] is at least
    its value after [calls1]); one call stores the larger of the old
    history and the candidate, so a lower candidate leaves the history
    unchanged, and returns the stored value. *)
Theorem strainEnergyDensity_history_nondecreasing
  (calls1 calls2 : list (B * localIndex * localIndex))
  (u : DamageFields) (b : B) (k q : localIndex) :
  m_strainEnergyDensity (evaluations calls1 u) k q
  <= m_strainEnergyDensity (evaluations (calls1 ++ calls2) u) k q
  /\ m_strainEnergyDensity (snd (calculateActiveStrainEnergyDensity b u k q)) k q
     = Rmax (m_strainEnergyDensity u k q)
         (activeStrainEnergyDensityCandidate b k q)
  /\ fst (calculateActiveStrainEnergyDensity b u k q)
     = m_strainEnergyDensity (snd (calculateActiveStrainEnergyDensity b u k q)) k q.
Proof.
  split; [|split].
  - unfold evaluations at 2. rewrite fold_left_app.
    apply evaluations_grow.
  - apply calculateActiveStrainEnergyDensity_stored.
  - reflexivity.
Qed.

End StrainEnergyHistory.

(** Two evaluations at point (0, 0), the candidate first 3 and then 1,
    starting from a zero history: the history is 3 after both. *)
Lemma strainEnergyDensity_history_nondecreasing_witness :
  DamageVolDevUpdates.m_strainEnergyDensity
    (DamageVolDevUpdates.evaluations [(3, 0%nat, 0%nat)] Examples.halfDamaged)
    0%nat 0%nat
  <= DamageVolDevUpdates.m_strainEnergyDensity
       (DamageVolDevUpdates.evaluations
          ([(3, 0%nat, 0%nat)] ++ [(1, 0%nat, 0%nat)]) Examples.halfDamaged)
       0%nat 0%nat
  /\ fst (DamageVolDevUpdates.calculateActiveStrainEnergyDensity 1
            (DamageVolDevUpdates.evaluations [(3, 0%nat, 0%nat)]
               Examples.halfDamaged) 0%nat 0%nat)
     = 3.
Proof.
  destruct (strainEnergyDensity_history_nondecreasing
              [(3, 0%nat, 0%nat)] [(1, 0%nat, 0%nat)] Examples.halfDamaged
              1 0%nat 0%nat) as (Hmono & _ & _).
  split; [exact Hmono|].
  destruct (strainEnergyDensity_history_nondecreasing
              [] [] (DamageVolDevUpdates.evaluations [(3, 0%nat, 0%nat)]
                       Examples.halfDamaged) 1 0%nat 0%nat)
    as (_ & Hstored & Hret).
  rewrite Hret, Hstored.
  destruct (strainEnergyDensity_history_nondecreasing
              [] [] Examples.halfDamaged 3 0%nat 0%nat) as (_ & Hfirst & _).
  change (DamageVolDevUpdates.evaluations [(3, 0%nat, 0%nat)] Examples.halfDamaged)
    with (snd (DamageVolDevUpdates.calculateActiveStrainEnergyDensity 3
                 Examples.halfDamaged 0%nat 0%nat)).
  rewrite Hfirst.
  unfold DamageVolDevUpdates.activeStrainEnergyDensityCandidate.
  cbn [DamageVolDevUpdates.m_stress DamageVolDevUpdates.getBulkModulus
         DamageVolDevUpdates.calculateStrainEnergyDensity Examples.energyOnly
         Examples.halfDamaged DamageVolDevUpdates.m_strainEnergyDensity].
  destruct (Rlt_dec (0 + 0 + 0) 0.0) as [Hneg|_]; [exfalso; lra|].
  rewrite (Rmax_right 0) by lra. rewrite Rmax_left by lra. lra.
Defined.

(** ** Two-point flux kernel *)

Lemma populateJacobian_rows (stencilSize : localIndex) (dt : real64)
  (dFlux_dP : arraySlice1d real64) (fluxJacobian : arraySlice2d real64)
  (ke : localIndex) :
  (ke < stencilSize)%nat ->
  FluxKernel.populateJacobian stencilSize dt dFlux_dP fluxJacobian 0%nat ke
  = dt * dFlux_dP ke
  /\ FluxKernel.populateJacobian stencilSize dt dFlux_dP fluxJacobian 1%nat ke
     = - (dt * dFlux_dP ke).
Proof.
  unfold FluxKernel.populateJacobian. revert ke.
  apply (forLoop_ind
           (fun n J => forall ke, (ke < n)%nat ->
                         J 0%nat ke = dt * dFlux_dP ke
                         /\ J 1%nat ke = - (dt * dFlux_dP ke))).
  - intros ke Hke. lia.
  - intros k J _ IH ke Hke. simpl.
    destruct (Nat.eq_dec ke k) as [->|Hne].
    + split.
      * rewrite upd2_other by (left; lia). apply upd2_same.
      * rewrite upd2_same. rewrite upd2_same. reflexivity.
    + rewrite !upd2_other by (right; exact Hne). apply IH. lia.
Qed.

Ltac open_pairs :=
  repeat match goal with
         | |- context [let '(_, _) := ?e in _] => destruct e
         end.

Section TwoPointKernel.

Variable stencilSize : localIndex.
Variables seri sesri sei : arraySlice1d localIndex.
Variable stencilWeights : arraySlice1d real64.
Variables pres dPres gravCoef mob dMob_dPres : ElementView (arrayView1d real64).
Variables dens dDens_dPres : ElementView (arrayView2d real64).
Variables pres' dPres' gravCoef' mob' dMob_dPres' : arrayView1d real64.
Variables dens' dDens_dPres' : arrayView2d real64.
Variable dt : real64.
Variable flux : arraySlice1d real64.
Variable fluxJacobian : arraySlice2d real64.

(** The result of the general overload and of the same-region overload on
    the inputs above. *)
Local Abbreviation general :=
  (FluxKernel.Compute stencilSize seri sesri sei stencilWeights
     pres dPres gravCoef dens dDens_dPres mob dMob_dPres dt flux fluxJacobian).
Local Abbreviation sameRegion :=
  (FluxKernel.Compute_sameRegion stencilSize seri sesri sei stencilWeights
     pres' dPres' gravCoef' dens' dDens_dPres' mob' dMob_dPres' dt flux
     fluxJacobian).

Lemma Compute_flux_pairing : fst general 1%nat = - fst general 0%nat.
Proof.
  unfold FluxKernel.Compute. open_pairs. cbn [fst].
  rewrite upd_same. reflexivity.
Qed.

Lemma Compute_sameRegion_flux_pairing :
  fst sameRegion 1%nat = - fst sameRegion 0%nat.
Proof.
  unfold FluxKernel.Compute_sameRegion. open_pairs. cbn [fst].
  rewrite upd_same. reflexivity.
Qed.

(** C8: in both two-point overloads, for every stencil entry [ke] the second
    row of the local flux Jacobian is the exact negative of the first. *)
Theorem Compute_jacobian_rows_opposite (ke : localIndex) :
  (ke < stencilSize)%nat ->
  snd (FluxKernel.Compute stencilSize seri sesri sei stencilWeights
          pres dPres gravCoef dens dDens_dPres mob dMob_dPres dt flux
          fluxJacobian) 1%nat ke
  = - snd (FluxKernel.Compute stencilSize seri sesri sei stencilWeights
          pres dPres gravCoef dens dDens_dPres mob dMob_dPres dt flux
          fluxJacobian) 0%nat ke
  /\ snd (FluxKernel.Compute_sameRegion stencilSize seri sesri sei stencilWeights
          pres' dPres' gravCoef' dens' dDens_dPres' mob' dMob_dPres' dt flux
          fluxJacobian) 1%nat ke
     = - snd (FluxKernel.Compute_sameRegion stencilSize seri sesri sei stencilWeights
          pres' dPres' gravCoef' dens' dDens_dPres' mob' dMob_dPres' dt flux
          fluxJacobian) 0%nat ke.
Proof.
  intros Hke. split.
  - unfold FluxKernel.Compute. open_pairs. cbn [snd].
    match goal with
    | |- FluxKernel.populateJacobian ?n ?d ?f ?J _ _ = _ =>
        destruct (populateJacobian_rows n d f J ke Hke) as [H0 H1]
    end.
    rewrite H1, H0. reflexivity.
  - unfold FluxKernel.Compute_sameRegion. open_pairs. cbn [snd].
    match goal with
    | |- FluxKernel.populateJacobian ?n ?d ?f ?J _ _ = _ =>
        destruct (populateJacobian_rows n d f J ke Hke) as [H0 H1]
    end.
    rewrite H1, H0. reflexivity.
Qed.

(** The trial pressures of the two cells of the connection and the
    mobilities of the cell picked by the sign of [T * (p1 - p2)]. *)
Local Abbreviation p1 :=
  (pres (seri 0%nat) (sesri 0%nat) (sei 0%nat)
   + dPres (seri 0%nat) (sesri 0%nat) (sei 0%nat)).
Local Abbreviation p2 :=
  (pres (seri 1%nat) (sesri 1%nat) (sei 1%nat)
   + dPres (seri 1%nat) (sesri 1%nat) (sei 1%nat)).
Local Abbreviation p1' := (pres' (sei 0%nat) + dPres' (sei 0%nat)).
Local Abbreviation p2' := (pres' (sei 1%nat) + dPres' (sei 1%nat)).

(** C2: on a two-cell connection with zero gravity coefficient at both cells
    and stencil weights [T] and [- T], both overloads return
    [flux[0] = dt * M_up * T * (p1 - p2)] with [p1], [p2] the trial pressures
    [pres + dPres]; [M_up] is the mobility of cell 0 of the pair when the
    potential difference [T * (p1 - p2)] is non-negative (a tie included) and
    of cell 1 otherwise. *)
Theorem Compute_zero_gravity_flux (T : real64) :
  stencilSize = 2%nat ->
  stencilWeights 0%nat = T ->
  stencilWeights 1%nat = - T ->
  gravCoef (seri 0%nat) (sesri 0%nat) (sei 0%nat) = 0 ->
  gravCoef (seri 1%nat) (sesri 1%nat) (sei 1%nat) = 0 ->
  gravCoef' (sei 0%nat) = 0 ->
  gravCoef' (sei 1%nat) = 0 ->
  fst (FluxKernel.Compute stencilSize seri sesri sei stencilWeights
          pres dPres gravCoef dens dDens_dPres mob dMob_dPres dt flux
          fluxJacobian) 0%nat
  = dt * (if Rge_dec (T * (p1 - p2)) 0
          then mob (seri 0%nat) (sesri 0%nat) (sei 0%nat)
          else mob (seri 1%nat) (sesri 1%nat) (sei 1%nat))
    * T * (p1 - p2)
  /\ fst (FluxKernel.Compute_sameRegion stencilSize seri sesri sei stencilWeights
          pres' dPres' gravCoef' dens' dDens_dPres' mob' dMob_dPres' dt flux
          fluxJacobian) 0%nat
     = dt * (if Rge_dec (T * (p1' - p2')) 0
             then mob' (sei 0%nat) else mob' (sei 1%nat))
       * T * (p1' - p2').
Proof.
  intros Hsize Hw0 Hw1 Hg0 Hg1 Hg0' Hg1'. subst stencilSize. split.
  - unfold FluxKernel.Compute.
    cbv [FluxKernel.NUM_POINT_IN_FLUX forLoop seq fold_left].
    cbv beta iota zeta. cbn [fst snd].
    rewrite Hw0, Hw1, Hg0, Hg1.
    match goal with
    | |- context [FluxKernel.upwindIndex ?e] =>
        replace e with (T * (p1 - p2)) by lra
    end.
    rewrite upd_other by lia. rewrite upd_same.
    unfold FluxKernel.upwindIndex.
    destruct (Rge_dec (T * (p1 - p2)) 0); ring.
  - unfold FluxKernel.Compute_sameRegion.
    cbv [FluxKernel.NUM_POINT_IN_FLUX forLoop seq fold_left].
    cbv beta iota zeta. cbn [fst snd].
    rewrite Hw0, Hw1, Hg0', Hg1'.
    match goal with
    | |- context [FluxKernel.upwindIndex ?e] =>
        replace e with (T * (p1' - p2')) by lra
    end.
    rewrite upd_other by lia. rewrite upd_same.
    unfold FluxKernel.upwindIndex.
    destruct (Rge_dec (T * (p1' - p2')) 0); ring.
Qed.

End TwoPointKernel.

(** ** Junction flux kernel *)

Ltac upd_simpl :=
  repeat first [ rewrite upd_same
               | rewrite upd_other by (first [lia | congruence]) ].

Lemma Rpower_pos (x y : R) : 0 < Rpower x y.
Proof. unfold Rpower. apply exp_pos. Qed.

(** The tip asymptote gives a positive pressure gradient whatever the
    material constants, as the source remarks. *)
Lemma tipGradP_pos (domain : FluxKernel.DomainPartition) (averageGap : real64) :
  averageGap <> 0 -> 0 < FluxKernel.tipGradP domain averageGap.
Proof.
  intros Hg. unfold FluxKernel.tipGradP.
  repeat match goal with
         | |- context [Rpower ?x ?y] =>
             let H := fresh "Hp" in
             let r := fresh "r" in
             pose proof (Rpower_pos x y) as H;
             set (r := Rpower x y) in *; clearbody r
         end.
  assert (Hz : 0 < powerRZ averageGap (-2)).
  { change (0 < / (averageGap ^ 2)). apply Rinv_0_lt_compat. nra. }
  set (z := powerRZ averageGap (-2)) in *. clearbody z.
  replace (-1.0 / 3.0 * (- r * r0) * (r1 * r2) ^ 2 * r3 * z)
    with (1 / 3 * (r * r0) * (r1 * r2) ^ 2 * r3 * z).
  2:{ assert (E : -1.0 / 3.0 = - (1 / 3)) by lra. rewrite E. ring. }
  repeat apply Rmult_lt_0_compat; try assumption; try lra.
Qed.

Section FluxPairing.

(* the two-point overloads *)
Variable stencilSize : localIndex.
Variables seri sesri sei : arraySlice1d localIndex.
Variable stencilWeights : arraySlice1d real64.
Variables pres dPres gravCoef mob dMob_dPres : ElementView (arrayView1d real64).
Variables dens dDens_dPres : ElementView (arrayView2d real64).
Variables pres' dPres' gravCoef' mob' dMob_dPres' : arrayView1d real64.
Variables dens' dDens_dPres' : arrayView2d real64.
Variable dt : real64.
Variable flux : arraySlice1d real64.
Variable fluxJacobian : arraySlice2d real64.
(* the junction kernel *)
Variable numFluxElems : localIndex.
Variable stencilElementIndices : arraySlice1d localIndex.
Variable junctionWeights : arraySlice1d real64.
Variable meanPermCoeff : real64.
Variable domain : FluxKernel.DomainPartition.
Variable iconn : localIndex.
Variable tipElements : list localIndex.
Variable sumOfWeights : real64.
Variables aperTerm dAperTerm_dAper : arraySlice1d real64.
Variable out : FluxKernel.LocalBuffers.
Variables k0 k1 : localIndex.

Local Abbreviation general :=
  (FluxKernel.Compute stencilSize seri sesri sei stencilWeights
     pres dPres gravCoef dens dDens_dPres mob dMob_dPres dt flux fluxJacobian).
Local Abbreviation sameRegion :=
  (FluxKernel.Compute_sameRegion stencilSize seri sesri sei stencilWeights
     pres' dPres' gravCoef' dens' dDens_dPres' mob' dMob_dPres' dt flux
     fluxJacobian).
Local Abbreviation pair :=
  (FluxKernel.junctionPair numFluxElems stencilElementIndices junctionWeights
     pres' dPres' gravCoef' dens' dDens_dPres' mob' dMob_dPres' meanPermCoeff dt
     domain iconn tipElements sumOfWeights aperTerm dAperTerm_dAper k0 k1 out).
Local Abbreviation taken :=
  (FluxKernel.tipOverrideTaken numFluxElems stencilElementIndices domain
     tipElements k0 k1).
Local Abbreviation tipElmtIndex :=
  (if FluxKernel.contains tipElements (stencilElementIndices k0) then k0 else k1).
Local Abbreviation channelElmtIndex :=
  (if FluxKernel.contains tipElements (stencilElementIndices k0) then k1 else k0).
Local Abbreviation modifiedFluxVal :=
  (FluxKernel.modifiedFluxVal dt domain iconn
     (mob' (FluxKernel.pairUpwindElement stencilElementIndices pres' dPres'
              gravCoef' dens' k0 k1))
     (stencilElementIndices tipElmtIndex)).

Lemma classifyPair_two :
  FluxKernel.classifyPair 2 tipElements
    (stencilElementIndices 0%nat, stencilElementIndices 1%nat) (0%nat, 1%nat)
  = Some
      (if FluxKernel.contains tipElements (stencilElementIndices 0%nat)
       then if FluxKernel.contains tipElements (stencilElementIndices 1%nat)
            then (2%Z, Some 1%nat, None)
            else (1%Z, Some 0%nat, Some 1%nat)
       else if FluxKernel.contains tipElements (stencilElementIndices 1%nat)
            then (1%Z, Some 1%nat, Some 0%nat)
            else (0%Z, None, Some 1%nat)).
Proof.
  unfold FluxKernel.classifyPair, forLoopM. simpl.
  destruct (FluxKernel.contains tipElements (stencilElementIndices 0%nat));
    destruct (FluxKernel.contains tipElements (stencilElementIndices 1%nat));
    reflexivity.
Qed.

(** The standard path: the pair adds [fluxVal] to one slot and subtracts it
    from the other. *)
Lemma junctionPair_standard :
  k0 <> k1 ->
  FluxKernel.viscosityDominatedTip domain = false
  \/ (numFluxElems = 2%nat /\ k0 = 0%nat /\ k1 = 1%nat) ->
  taken = false ->
  exists out',
    pair = Some out'
    /\ FluxKernel.flux out' k0 - FluxKernel.flux out k0
       = - (FluxKernel.flux out' k1 - FluxKernel.flux out k1).
Proof.
  intros Hne Hdef Htaken.
  unfold FluxKernel.tipOverrideTaken in Htaken.
  unfold FluxKernel.junctionPair.
  destruct (FluxKernel.viscosityDominatedTip domain) eqn:Hv.
  - destruct Hdef as [Hdef|(Hn & H0 & H1)]; [discriminate|].
    subst numFluxElems k0 k1.
    simpl in Htaken. rewrite classifyPair_two in *.
    destruct (FluxKernel.contains tipElements (stencilElementIndices 0%nat));
      destruct (FluxKernel.contains tipElements (stencilElementIndices 1%nat));
      try discriminate; cbv beta iota zeta; cbn [Z.eqb Pos.eqb];
      eexists; (split; [reflexivity|]); cbn [FluxKernel.flux];
      upd_simpl; lra.
  - eexists. split; [reflexivity|]. cbn [FluxKernel.flux]. upd_simpl. lra.
Qed.

(** The override path: the slot of the tip element receives nothing, the
    slot of the channel element receives [modifiedFluxVal]. *)
Lemma junctionPair_override :
  numFluxElems = 2%nat /\ k0 = 0%nat /\ k1 = 1%nat ->
  taken = true ->
  exists out',
    pair = Some out'
    /\ FluxKernel.flux out' tipElmtIndex = FluxKernel.flux out tipElmtIndex
    /\ FluxKernel.flux out' channelElmtIndex
       = FluxKernel.flux out channelElmtIndex + modifiedFluxVal.
Proof.
  intros (Hn & H0 & H1) Htaken. subst numFluxElems k0 k1.
  unfold FluxKernel.tipOverrideTaken in Htaken.
  apply andb_prop in Htaken. destruct Htaken as [Hv Hcount].
  unfold FluxKernel.junctionPair. rewrite Hv.
  rewrite classifyPair_two in *.
  destruct (FluxKernel.contains tipElements (stencilElementIndices 0%nat));
    destruct (FluxKernel.contains tipElements (stencilElementIndices 1%nat));
    try discriminate; cbv beta iota zeta; cbn [Z.eqb Pos.eqb FluxKernel.at2 fst snd];
    unfold FluxKernel.set2;
    destruct (FluxKernel.upwindIndex _) as [|[|?]];
    cbn [FluxKernel.at2 fst snd];
    eexists; (split; [reflexivity|]); cbn [FluxKernel.flux];
    split; upd_simpl; lra.
Qed.

(** C1 (amended): in both two-point overloads [flux[1] = - flux[0]].  In the
    junction kernel, a pair that does not take the tip override adds exact
    negatives to [flux[k0]] and [flux[k1]]; a pair that takes it adds nothing
    to the slot of the tip element and [modifiedFluxVal] to the slot of the
    channel element.  The pair is one the kernel runs with defined
    behaviour: either the guards of the override fail, or the junction has
    the two flux elements 0 and 1 (the search for the tip element reads
    [ei[i]] and [k[i]] for every [i < numFluxElems]). *)
Theorem junction_and_pair_flux :
  k0 <> k1 ->
  FluxKernel.viscosityDominatedTip domain = false
  \/ (numFluxElems = 2%nat /\ k0 = 0%nat /\ k1 = 1%nat) ->
  fst (FluxKernel.Compute stencilSize seri sesri sei stencilWeights
          pres dPres gravCoef dens dDens_dPres mob dMob_dPres dt flux
          fluxJacobian) 1%nat
  = - fst (FluxKernel.Compute stencilSize seri sesri sei stencilWeights
          pres dPres gravCoef dens dDens_dPres mob dMob_dPres dt flux
          fluxJacobian) 0%nat
  /\ fst (FluxKernel.Compute_sameRegion stencilSize seri sesri sei stencilWeights
          pres' dPres' gravCoef' dens' dDens_dPres' mob' dMob_dPres' dt flux
          fluxJacobian) 1%nat
     = - fst (FluxKernel.Compute_sameRegion stencilSize seri sesri sei stencilWeights
          pres' dPres' gravCoef' dens' dDens_dPres' mob' dMob_dPres' dt flux
          fluxJacobian) 0%nat
  /\ exists out',
       pair = Some out'
       /\ if taken
          then FluxKernel.flux out' tipElmtIndex = FluxKernel.flux out tipElmtIndex
               /\ FluxKernel.flux out' channelElmtIndex
                  = FluxKernel.flux out channelElmtIndex + modifiedFluxVal
          else FluxKernel.flux out' k0 - FluxKernel.flux out k0
               = - (FluxKernel.flux out' k1 - FluxKernel.flux out k1).
Proof.
  intros Hne Hdef. split; [|split].
  - apply Compute_flux_pairing.
  - apply Compute_sameRegion_flux_pairing.
  - destruct taken eqn:Htaken.
    + destruct Hdef as [Hv|Hdef].
      * unfold FluxKernel.tipOverrideTaken in Htaken. rewrite Hv in Htaken.
        discriminate.
      * destruct (junctionPair_override Hdef Htaken) as (out' & Hsome & Htip & Hch).
        exists out'. auto.
    + destruct (junctionPair_standard Hne Hdef Htaken) as (out' & Hsome & Hpair).
      exists out'. auto.
Qed.

(** A junction of two flux elements has the single pair [(0, 1)]. *)
Lemma ComputeJunction_two (aperture0 aperture : arrayView1d real64) :
  FluxKernel.ComputeJunction 2 stencilElementIndices junctionWeights
    pres' dPres' gravCoef' dens' dDens_dPres' mob' dMob_dPres'
    aperture0 aperture meanPermCoeff dt domain iconn out
  = let '(sumOfWeights, aperTerm, dAperTerm_dAper) :=
      FluxKernel.apertureTerms 2 stencilElementIndices junctionWeights
        aperture0 aperture in
    FluxKernel.junctionPair 2 stencilElementIndices junctionWeights
      pres' dPres' gravCoef' dens' dDens_dPres' mob' dMob_dPres' meanPermCoeff dt
      domain iconn (FluxKernel.computeTipElements domain)
      sumOfWeights aperTerm dAperTerm_dAper 0 1 out.
Proof.
  unfold FluxKernel.ComputeJunction.
  destruct (FluxKernel.apertureTerms _ _ _ _ _) as [[sw at_] dat].
  cbn [Nat.ltb Nat.leb]. unfold forLoopM. cbn [seq Nat.add Nat.sub fold_left].
  destruct (FluxKernel.junctionPair _ _ _ _ _ _ _ _ _ _ _ _ _ _ _ _ _ _ _ _ _);
    reflexivity.
Qed.

End FluxPairing.

Lemma viscosityDominatedTip_tipDomain :
  FluxKernel.viscosityDominatedTip Examples.tipDomain = true.
Proof.
  unfold FluxKernel.viscosityDominatedTip.
  cbn [Examples.tipDomain FluxKernel.tipLoc FluxKernel.meshSize
         FluxKernel.viscosity].
  destruct (Rgt_dec 2 (1.0 * 1)) as [_|N]; [|exfalso; apply N; lra].
  destruct (Rge_dec 1 2.0e-3) as [_|N]; [reflexivity|exfalso; apply N; lra].
Defined.

Lemma viscosityDominatedTip_calmDomain :
  FluxKernel.viscosityDominatedTip Examples.calmDomain = false.
Proof.
  unfold FluxKernel.viscosityDominatedTip.
  cbn [Examples.calmDomain FluxKernel.tipLoc FluxKernel.meshSize
         FluxKernel.viscosity].
  destruct (Rgt_dec 0 (1.0 * 1)) as [P|_]; [exfalso; lra|reflexivity].
Defined.

(** C1 (as stated, refuted): a junction of two flux elements, element 1 the
    tip element, tip two cell lengths from the inlet, viscosity 1, unit
    moduli, injection rate and elapsed time (every base of a fractional
    power is positive), all local buffers zero on entry.  The kernel takes
    the override and leaves [flux[0]] positive and [flux[1]] zero: the two
    contributions are not negatives of each other. *)
Lemma ComputeJunction_tip_override_unpaired :
  exists out',
    FluxKernel.ComputeJunction 2 Examples.cells (Examples.const1 1)
      (Examples.const1 0) (Examples.const1 0) (Examples.const1 0)
      (Examples.const2 1) (Examples.const2 0)
      (Examples.const1 1) (Examples.const1 0)
      (Examples.const1 1) (Examples.const1 1)
      1 1 Examples.tipDomain 0 Examples.zeroBuffers = Some out'
    /\ FluxKernel.flux out' 0%nat <> - FluxKernel.flux out' 1%nat.
Proof.
  rewrite ComputeJunction_two.
  destruct (FluxKernel.apertureTerms _ _ _ _ _) as [[sw at_] dat].
  destruct (junctionPair_override
              (Examples.const1 0) (Examples.const1 0) (Examples.const1 0)
              (Examples.const1 1) (Examples.const1 0)
              (Examples.const2 1) (Examples.const2 0) 1
              2 Examples.cells (Examples.const1 1) 1 Examples.tipDomain 0
              (FluxKernel.computeTipElements Examples.tipDomain)
              sw at_ dat Examples.zeroBuffers 0 1)
    as (out' & Hsome & Htip & Hch).
  - auto.
  - unfold FluxKernel.tipOverrideTaken.
    rewrite viscosityDominatedTip_tipDomain, classifyPair_two. reflexivity.
  - exists out'. split; [exact Hsome|].
    change (FluxKernel.contains (FluxKernel.computeTipElements Examples.tipDomain)
              (Examples.cells 0%nat)) with false in *.
    cbv beta iota in *.
    rewrite Htip, Hch. cbn [Examples.zeroBuffers FluxKernel.flux].
    unfold FluxKernel.modifiedFluxVal.
    cbn [Examples.tipDomain FluxKernel.averageGap FluxKernel.edgeLength].
    pose proof (tipGradP_pos Examples.tipDomain 1 ltac:(lra)) as Hpos.
    unfold Examples.const1. lra.
Qed.

Lemma junction_and_pair_flux_witness :
  (0 <> 1)%nat
  /\ FluxKernel.viscosityDominatedTip Examples.calmDomain = false
  /\ exists out',
       FluxKernel.junctionPair 2 Examples.cells (Examples.const1 1)
         Examples.pressures (Examples.const1 0) (Examples.const1 0)
         (Examples.const2 1) (Examples.const2 0)
         (Examples.const1 1) (Examples.const1 0) 1 1 Examples.calmDomain 0
         [1%nat] 2 (Examples.const1 1) (Examples.const1 3) 0 1
         Examples.zeroBuffers = Some out'
       /\ FluxKernel.flux out' 0%nat - 0 = - (FluxKernel.flux out' 1%nat - 0).
Proof.
  split; [discriminate|]. split; [exact viscosityDominatedTip_calmDomain|].
  destruct (junction_and_pair_flux 2 Examples.region0 Examples.region0 Examples.cells
              Examples.weights
              (Examples.inRegions Examples.pressures)
              (Examples.inRegions (Examples.const1 0))
              (Examples.inRegions (Examples.const1 0))
              (Examples.inRegions (Examples.const1 1))
              (Examples.inRegions (Examples.const1 0))
              (Examples.inRegions (Examples.const2 1))
              (Examples.inRegions (Examples.const2 0))
              Examples.pressures (Examples.const1 0) (Examples.const1 0)
              (Examples.const1 1) (Examples.const1 0)
              (Examples.const2 1) (Examples.const2 0)
              1 (fun _ => 0) (fun _ _ => 0)
              2 Examples.cells (Examples.const1 1) 1 Examples.calmDomain 0
              [1%nat] 2 (Examples.const1 1) (Examples.const1 3)
              Examples.zeroBuffers 0 1
              ltac:(discriminate)
              (or_introl viscosityDominatedTip_calmDomain))
    as (_ & _ & out' & Hsome & Hif).
  exists out'. split; [exact Hsome|].
  unfold FluxKernel.tipOverrideTaken in Hif.
  rewrite viscosityDominatedTip_calmDomain in Hif.
  exact Hif.
Defined.

Lemma Compute_jacobian_rows_opposite_witness :
  (0 < 2)%nat
  /\ snd (FluxKernel.Compute 2 Examples.region0 Examples.region0 Examples.cells
            Examples.weights
            (Examples.inRegions Examples.pressures)
            (Examples.inRegions (Examples.const1 0))
            (Examples.inRegions (Examples.const1 0))
            (Examples.inRegions (Examples.const2 1))
            (Examples.inRegions (Examples.const2 0))
            (Examples.inRegions (Examples.const1 1))
            (Examples.inRegions (Examples.const1 0))
            1 (fun _ => 0) (fun _ _ => 0)) 1%nat 0%nat
     = - snd (FluxKernel.Compute 2 Examples.region0 Examples.region0 Examples.cells
                Examples.weights
                (Examples.inRegions Examples.pressures)
                (Examples.inRegions (Examples.const1 0))
                (Examples.inRegions (Examples.const1 0))
                (Examples.inRegions (Examples.const2 1))
                (Examples.inRegions (Examples.const2 0))
                (Examples.inRegions (Examples.const1 1))
                (Examples.inRegions (Examples.const1 0))
                1 (fun _ => 0) (fun _ _ => 0)) 0%nat 0%nat.
Proof.
  split; [lia|].
  refine (proj1 (Compute_jacobian_rows_opposite 2 Examples.region0
                   Examples.region0 Examples.cells Examples.weights
                   (Examples.inRegions Examples.pressures)
                   (Examples.inRegions (Examples.const1 0))
                   (Examples.inRegions (Examples.const1 0))
                   (Examples.inRegions (Examples.const1 1))
                   (Examples.inRegions (Examples.const1 0))
                   (Examples.inRegions (Examples.const2 1))
                   (Examples.inRegions (Examples.const2 0))
                   Examples.pressures (Examples.const1 0) (Examples.const1 0)
                   (Examples.const1 1) (Examples.const1 0)
                   (Examples.const2 1) (Examples.const2 0)
                   1 (fun _ => 0) (fun _ _ => 0) 0%nat _)).
  lia.
Defined.

Lemma Compute_zero_gravity_flux_witness :
  fst (FluxKernel.Compute 2 Examples.region0 Examples.region0 Examples.cells
         Examples.weights
         (Examples.inRegions Examples.pressures)
         (Examples.inRegions (Examples.const1 0))
         (Examples.inRegions (Examples.const1 0))
         (Examples.inRegions (Examples.const2 1))
         (Examples.inRegions (Examples.const2 0))
         (Examples.inRegions (Examples.const1 1))
         (Examples.inRegions (Examples.const1 0))
         1 (fun _ => 0) (fun _ _ => 0)) 0%nat
  = 5.
Proof.
  pose proof (Compute_zero_gravity_flux 2 Examples.region0
                Examples.region0 Examples.cells Examples.weights
                (Examples.inRegions Examples.pressures)
                (Examples.inRegions (Examples.const1 0))
                (Examples.inRegions (Examples.const1 0))
                (Examples.inRegions (Examples.const1 1))
                (Examples.inRegions (Examples.const1 0))
                (Examples.inRegions (Examples.const2 1))
                (Examples.inRegions (Examples.const2 0))
                Examples.pressures (Examples.const1 0) (Examples.const1 0)
                (Examples.const1 1) (Examples.const1 0)
                (Examples.const2 1) (Examples.const2 0)
                1 (fun _ => 0) (fun _ _ => 0) 1
                eq_refl eq_refl eq_refl eq_refl eq_refl eq_refl eq_refl) as [W _].
  rewrite W. unfold Examples.inRegions, Examples.pressures, Examples.const1,
    Examples.cells. simpl.
  destruct (Rge_dec _ _); lra.
Defined.

(** ** Bounds check of the Newton update *)

Section BoundsCheck.

Import TwoPhaseBase.

Variables DPRES DSAT : globalIndex.

Local Abbreviation newPres := (TwoPhaseBase.newPres DPRES).
Local Abbreviation newPhaseSat := (TwoPhaseBase.newPhaseSat DSAT).
Local Abbreviation checkElement := (TwoPhaseBase.checkElement DPRES DSAT).
Local Abbreviation outOfBounds := (TwoPhaseBase.outOfBounds DPRES DSAT).
Local Abbreviation localCheckOf := (TwoPhaseBase.localCheckOf DPRES DSAT).
Local Abbreviation CheckSystemSolution :=
  (TwoPhaseBase.CheckSystemSolution DPRES DSAT).

Lemma checkElement_outOfBounds (subRegion : ElementSubRegion)
  (solution : ParallelVector) (scalingFactor : real64) (ei : localIndex)
  (localCheck : integer) :
  outOfBounds subRegion solution scalingFactor ei ->
  checkElement subRegion solution scalingFactor ei localCheck = 0%Z.
Proof.
  intros [Hghost Hbad]. unfold TwoPhaseBase.checkElement.
  destruct (Z.geb_spec (elemGhostRank subRegion ei) 0); [lia|].
  destruct (Rlt_dec (newPhaseSat subRegion solution scalingFactor ei) 0.0);
    [reflexivity|].
  destruct (Rgt_dec (newPhaseSat subRegion solution scalingFactor ei) 1.0);
    [reflexivity|].
  destruct (Rlt_dec (newPres subRegion solution scalingFactor ei) 0.0);
    [reflexivity|].
  exfalso. destruct Hbad as [Hb|[Hb|Hb]]; lra.
Qed.

Lemma checkElement_inBounds (subRegion : ElementSubRegion)
  (solution : ParallelVector) (scalingFactor : real64) (ei : localIndex)
  (localCheck : integer) :
  ~ outOfBounds subRegion solution scalingFactor ei ->
  checkElement subRegion solution scalingFactor ei localCheck = localCheck.
Proof.
  intros Hok. unfold TwoPhaseBase.checkElement.
  destruct (Z.geb_spec (elemGhostRank subRegion ei) 0); [reflexivity|].
  destruct (Rlt_dec (newPhaseSat subRegion solution scalingFactor ei) 0.0).
  { exfalso. apply Hok. split; [lia|]. right. left. lra. }
  destruct (Rgt_dec (newPhaseSat subRegion solution scalingFactor ei) 1.0).
  { exfalso. apply Hok. split; [lia|]. right. right. lra. }
  destruct (Rlt_dec (newPres subRegion solution scalingFactor ei) 0.0).
  { exfalso. apply Hok. split; [lia|]. left. lra. }
  reflexivity.
Qed.

Lemma outOfBounds_dec (subRegion : ElementSubRegion)
  (solution : ParallelVector) (scalingFactor : real64) (ei : localIndex) :
  outOfBounds subRegion solution scalingFactor ei
  \/ ~ outOfBounds subRegion solution scalingFactor ei.
Proof.
  unfold TwoPhaseBase.outOfBounds.
  destruct (Z_lt_dec (elemGhostRank subRegion ei) 0); [|right; tauto].
  destruct (Rlt_dec (newPres subRegion solution scalingFactor ei) 0); [left; tauto|].
  destruct (Rlt_dec (newPhaseSat subRegion solution scalingFactor ei) 0);
    [left; tauto|].
  destruct (Rgt_dec (newPhaseSat subRegion solution scalingFactor ei) 1);
    [left; tauto|].
  right. tauto.
Qed.

(** The element loop over one sub-region. *)
Lemma subRegion_loop (subRegion : ElementSubRegion) (solution : ParallelVector)
  (scalingFactor : real64) (n : localIndex) (localCheck : integer) :
  let r := forLoop 0 n (checkElement subRegion solution scalingFactor) localCheck in
  (r = 0%Z \/ r = localCheck)
  /\ (r = 0%Z <->
      localCheck = 0%Z
      \/ exists ei, (ei < n)%nat /\ outOfBounds subRegion solution scalingFactor ei).
Proof.
  cbv zeta.
  apply (forLoop_ind
           (fun k r =>
              (r = 0%Z \/ r = localCheck)
              /\ (r = 0%Z <->
                  localCheck = 0%Z
                  \/ exists ei, (ei < k)%nat
                                /\ outOfBounds subRegion solution scalingFactor ei))).
  - split; [right; reflexivity|]. split; [intros ->; left; reflexivity|].
    intros [H|(ei & Hei & _)]; [exact H|lia].
  - intros k r _ [Hval Hiff]. simpl.
    destruct (outOfBounds_dec subRegion solution scalingFactor k) as [Hbad|Hok].
    + rewrite (checkElement_outOfBounds _ _ _ _ _ Hbad).
      split; [left; reflexivity|]. split; [|reflexivity].
      intros _. right. exists k. split; [lia|exact Hbad].
    + rewrite (checkElement_inBounds _ _ _ _ _ Hok).
      split; [exact Hval|]. rewrite Hiff. split.
      * intros [H|(ei & Hei & Hbad)]; [left; exact H|].
        right. exists ei. split; [lia|exact Hbad].
      * intros [H|(ei & Hei & Hbad)]; [left; exact H|].
        destruct (Nat.eq_dec ei k) as [->|Hne]; [contradiction|].
        right. exists ei. split; [lia|exact Hbad].
Qed.

(** The loop over the sub-regions of one rank. *)
Lemma subRegions_loop (solution : ParallelVector) (scalingFactor : real64)
  (subRegions : list ElementSubRegion) (localCheck : integer) :
  let r := fold_left
             (fun localCheck subRegion =>
                forLoop 0 (size subRegion)
                  (checkElement subRegion solution scalingFactor) localCheck)
             subRegions localCheck in
  (r = 0%Z \/ r = localCheck)
  /\ (r = 0%Z <->
      localCheck = 0%Z
      \/ exists subRegion ei,
           In subRegion subRegions /\ (ei < size subRegion)%nat
           /\ outOfBounds subRegion solution scalingFactor ei).
Proof.
  cbv zeta. revert localCheck.
  induction subRegions as [|sr rest IH]; intros localCheck.
  - simpl. split; [right; reflexivity|]. split; [intros ->; left; reflexivity|].
    intros [H|(sr & ei & [] & _)]. exact H.
  - simpl.
    destruct (subRegion_loop sr solution scalingFactor (size sr) localCheck)
      as [Hval Hiff].
    destruct (IH (forLoop 0 (size sr) (checkElement sr solution scalingFactor)
                    localCheck)) as [Hval' Hiff'].
    split.
    + destruct Hval' as [H|H]; [left; exact H|].
      rewrite H. exact Hval.
    + rewrite Hiff', Hiff. split.
      * intros [[H|(ei & Hei & Hbad)]|(sr' & ei & Hin & Hei & Hbad)].
        -- left. exact H.
        -- right. exists sr, ei. auto.
        -- right. exists sr', ei. auto.
      * intros [H|(sr' & ei & [<-|Hin] & Hei & Hbad)].
        -- left. left. exact H.
        -- left. right. exists ei. auto.
        -- right. exists sr', ei. auto.
Qed.

Lemma localCheckOf_spec (rank : Rank) (scalingFactor : real64) :
  (localCheckOf rank scalingFactor = 0%Z \/ localCheckOf rank scalingFactor = 1%Z)
  /\ (localCheckOf rank scalingFactor = 0%Z <->
      exists subRegion ei,
        In subRegion (mesh rank) /\ (ei < size subRegion)%nat
        /\ outOfBounds subRegion (solution rank) scalingFactor ei).
Proof.
  unfold TwoPhaseBase.localCheckOf.
  destruct (subRegions_loop (solution rank) scalingFactor (mesh rank) 1%Z)
    as [Hval Hiff].
  split; [exact Hval|]. rewrite Hiff. split.
  - intros [H|H]; [discriminate|exact H].
  - intros H. right. exact H.
Qed.

(** The reduction of values that are all 0 or 1. *)
Lemma MpiWrapper_Min_spec (others : list integer) (mine : integer) :
  (mine = 0%Z \/ mine = 1%Z) ->
  (forall v, In v others -> v = 0%Z \/ v = 1%Z) ->
  (MpiWrapper_Min mine others = 0%Z \/ MpiWrapper_Min mine others = 1%Z)
  /\ (MpiWrapper_Min mine others = 0%Z <-> mine = 0%Z \/ In 0%Z others).
Proof.
  unfold MpiWrapper_Min. revert mine.
  induction others as [|v rest IH]; intros mine Hmine Hall.
  - simpl. split; [exact Hmine|]. tauto.
  - simpl.
    assert (Hv : v = 0%Z \/ v = 1%Z) by (apply Hall; left; reflexivity).
    assert (Hmin : Z.min mine v = 0%Z \/ Z.min mine v = 1%Z) by lia.
    destruct (IH (Z.min mine v) Hmin (fun w Hw => Hall w (or_intror Hw)))
      as [Hval Hiff].
    split; [exact Hval|]. rewrite Hiff. split.
    + intros [H|H]; [|right; right; exact H].
      destruct Hmine, Hv; subst; simpl in H; try discriminate; auto.
    + intros [H|[H|H]].
      * left. subst mine. destruct Hv; subst; reflexivity.
      * left. subst v. destruct Hmine; subst; reflexivity.
      * right. exact H.
Qed.

Lemma CheckSystemSolution_false_iff (rank : Rank) (others : list Rank)
  (scalingFactor : real64) :
  CheckSystemSolution rank others scalingFactor = false <->
  exists r, In r (rank :: others) /\ localCheckOf r scalingFactor = 0%Z.
Proof.
  unfold TwoPhaseBase.CheckSystemSolution.
  destruct (MpiWrapper_Min_spec
              (map (fun r => localCheckOf r scalingFactor) others)
              (localCheckOf rank scalingFactor)) as [Hval Hiff].
  - apply localCheckOf_spec.
  - intros v Hv. apply in_map_iff in Hv. destruct Hv as (r & <- & _).
    apply localCheckOf_spec.
  - rewrite negb_false_iff, Z.eqb_eq, Hiff. split.
    + intros [H|H].
      * exists rank. split; [left; reflexivity|exact H].
      * apply in_map_iff in H. destruct H as (r & Hr & Hin).
        exists r. split; [right; exact Hin|exact Hr].
    + intros (r & [<-|Hin] & Hr); [left; exact Hr|].
      right. apply in_map_iff. exists r. auto.
Qed.

(** C4 (amended): the check returns false exactly when, on some rank, some
    non-ghost cell has a negative updated pressure
    [pres + dPres + scalingFactor * solution] or an updated saturation of
    phase 0, [phaseSat[ei][0] + dPhaseSat[ei][0] + scalingFactor * solution],
    outside [0, 1]; the saturation of phase 1 is not examined.  The
    result is the conjunction of what each rank obtains from its own
    cells, so that one such cell on any rank rejects the step on all. *)
Theorem CheckSystemSolution_rejects_iff (rank : Rank) (others : list Rank)
  (scalingFactor : real64) :
  (TwoPhaseBase.CheckSystemSolution DPRES DSAT rank others scalingFactor = false
   <->
   exists r subRegion ei,
     In r (rank :: others) /\ In subRegion (mesh r)
     /\ (ei < size subRegion)%nat
     /\ (elemGhostRank subRegion ei < 0)%Z
     /\ (pres subRegion ei + dPres subRegion ei
         + scalingFactor
           * extractLocalVector (solution r)
               (getLocalRowID (solution r)
                  (elemDofNumber subRegion ei + DPRES)%Z) < 0
         \/ ~ (0 <= phaseSat subRegion ei 0%nat + dPhaseSat subRegion ei 0%nat
                    + scalingFactor
                      * extractLocalVector (solution r)
                          (getLocalRowID (solution r)
                             (elemDofNumber subRegion ei + DSAT)%Z)
               <= 1)))
  /\ TwoPhaseBase.CheckSystemSolution DPRES DSAT rank others scalingFactor
     = forallb
         (fun r => TwoPhaseBase.CheckSystemSolution DPRES DSAT r [] scalingFactor)
         (rank :: others).
Proof.
  split.
  - rewrite CheckSystemSolution_false_iff. split.
    + intros (r & Hin & Hr). apply localCheckOf_spec in Hr.
      destruct Hr as (sr & ei & Hsr & Hei & Hghost & Hbad).
      exists r, sr, ei. repeat (split; [assumption|]).
      unfold TwoPhaseBase.newPres, TwoPhaseBase.newPhaseSat in Hbad.
      cbv zeta in Hbad.
      destruct Hbad as [Hb|[Hb|Hb]]; [left; exact Hb|right; lra|right; lra].
    + intros (r & sr & ei & Hin & Hsr & Hei & Hghost & Hbad).
      exists r. split; [exact Hin|]. apply localCheckOf_spec.
      exists sr, ei. repeat (split; [assumption|]).
      unfold TwoPhaseBase.newPres, TwoPhaseBase.newPhaseSat. cbv zeta.
      destruct Hbad as [Hb|Hb]; [left; exact Hb|]. right.
      match goal with
      | |- ?s < 0 \/ _ =>
          destruct (Rlt_dec s 0); [left; assumption|];
          destruct (Rgt_dec s 1); [right; assumption|]
      end.
      exfalso. apply Hb. lra.
  - apply eq_true_iff_eq. rewrite forallb_forall. split.
    + intros Htrue r Hin.
      destruct (TwoPhaseBase.CheckSystemSolution DPRES DSAT r [] scalingFactor)
        eqn:E; [reflexivity|].
      apply CheckSystemSolution_false_iff in E.
      destruct E as (r' & [<-|[]] & H0).
      assert (Hfalse : CheckSystemSolution rank others scalingFactor = false).
      { apply CheckSystemSolution_false_iff. exists r. auto. }
      rewrite Htrue in Hfalse. discriminate.
    + intros Hall.
      destruct (CheckSystemSolution rank others scalingFactor) eqn:E;
        [reflexivity|].
      apply CheckSystemSolution_false_iff in E. destruct E as (r & Hin & H0).
      assert (Hfalse : TwoPhaseBase.CheckSystemSolution DPRES DSAT r []
                         scalingFactor = false).
      { apply CheckSystemSolution_false_iff. exists r.
        split; [left; reflexivity | exact H0]. }
      rewrite (Hall r Hin) in Hfalse. discriminate.
Qed.

(** C9: the bounds are not strict.  The check accepts exactly when every
    non-ghost cell of every rank has an updated pressure [>= 0] and an
    updated saturation in the closed interval [0, 1]: a pressure of exactly
    0 and a saturation of exactly 0 or 1 do not trip it. *)
Theorem CheckSystemSolution_accepts_iff (rank : Rank) (others : list Rank)
  (scalingFactor : real64) :
  CheckSystemSolution rank others scalingFactor = true <->
  forall r subRegion ei,
    In r (rank :: others) -> In subRegion (mesh r) ->
    (ei < size subRegion)%nat ->
    (elemGhostRank subRegion ei < 0)%Z ->
    0 <= newPres subRegion (solution r) scalingFactor ei
    /\ 0 <= newPhaseSat subRegion (solution r) scalingFactor ei <= 1.
Proof.
  split.
  - intros Htrue r sr ei Hin Hsr Hei Hghost.
    destruct (outOfBounds_dec sr (solution r) scalingFactor ei) as [Hbad|Hok].
    + assert (Hfalse : CheckSystemSolution rank others scalingFactor = false).
      { apply CheckSystemSolution_false_iff. exists r. split; [exact Hin|].
        apply localCheckOf_spec. exists sr, ei. auto. }
      rewrite Htrue in Hfalse. discriminate.
    + unfold TwoPhaseBase.outOfBounds in Hok.
      destruct (Rlt_dec (newPres sr (solution r) scalingFactor ei) 0);
        [exfalso; apply Hok; tauto|].
      destruct (Rlt_dec (newPhaseSat sr (solution r) scalingFactor ei) 0);
        [exfalso; apply Hok; tauto|].
      destruct (Rgt_dec (newPhaseSat sr (solution r) scalingFactor ei) 1);
        [exfalso; apply Hok; tauto|].
      lra.
  - intros Hall.
    destruct (CheckSystemSolution rank others scalingFactor) eqn:E;
      [reflexivity|].
    apply CheckSystemSolution_false_iff in E. destruct E as (r & Hin & H0).
    apply localCheckOf_spec in H0.
    destruct H0 as (sr & ei & Hsr & Hei & Hghost & Hbad).
    destruct (Hall r sr ei Hin Hsr Hei Hghost) as [Hp Hs].
    exfalso. destruct Hbad as [Hb|[Hb|Hb]]; lra.
Qed.

End BoundsCheck.

Lemma CheckSystemSolution_accepts_iff_witness :
  TwoPhaseBase.newPres 0 Examples.boundsSubRegion Examples.zeroSolution 1 0 = 0
  /\ TwoPhaseBase.newPhaseSat 1 Examples.boundsSubRegion Examples.zeroSolution 1 0 = 0
  /\ TwoPhaseBase.newPhaseSat 1 Examples.boundsSubRegion Examples.zeroSolution 1 1 = 1
  /\ TwoPhaseBase.CheckSystemSolution 0 1 Examples.boundsRank [] 1 = true.
Proof.
  assert (E0 : TwoPhaseBase.newPres 0 Examples.boundsSubRegion
                 Examples.zeroSolution 1 0 = 0)
    by (unfold TwoPhaseBase.newPres; simpl; lra).
  assert (E1 : TwoPhaseBase.newPres 0 Examples.boundsSubRegion
                 Examples.zeroSolution 1 1 = 0)
    by (unfold TwoPhaseBase.newPres; simpl; lra).
  assert (S0 : TwoPhaseBase.newPhaseSat 1 Examples.boundsSubRegion
                 Examples.zeroSolution 1 0 = 0)
    by (unfold TwoPhaseBase.newPhaseSat; simpl; lra).
  assert (S1 : TwoPhaseBase.newPhaseSat 1 Examples.boundsSubRegion
                 Examples.zeroSolution 1 1 = 1)
    by (unfold TwoPhaseBase.newPhaseSat; simpl; lra).
  repeat (split; [assumption|]).
  apply (proj2 (CheckSystemSolution_accepts_iff 0 1 Examples.boundsRank [] 1)).
  intros r sr ei [<-|[]] [<-|[]] Hei Hghost.
  change (TwoPhaseBase.solution Examples.boundsRank) with Examples.zeroSolution.
  destruct ei as [|[|[|ei]]].
  - rewrite E0, S0. lra.
  - rewrite E1, S1. lra.
  - simpl in Hghost. lia.
  - simpl in Hei. lia.
Defined.

(** Two ranks and a Newton update that raises every pressure by one,
    applied with the factor -1: cell 0 of the second rank goes from
    pressure 0 to -1, and the check fails on the first rank too. *)
Lemma CheckSystemSolution_rejects_iff_witness :
  TwoPhaseBase.CheckSystemSolution 0 1 Examples.boundsRank
    [Examples.pressureStepRank] (- 1) = false.
Proof.
  apply (proj2 (proj1 (CheckSystemSolution_rejects_iff 0 1 Examples.boundsRank
                         [Examples.pressureStepRank] (- 1)))).
  exists Examples.pressureStepRank, Examples.boundsSubRegion, 0%nat.
  split; [right; left; reflexivity|].
  split; [left; reflexivity|].
  split; [simpl; lia|].
  split; [simpl; lia|].
  left. simpl. lra.
Defined.

(** C4 (as stated, refuted): an owned cell whose phase-1 saturation and
    increment add up to 12 passes the check.  The solution is zero, so
    that the updated saturation of phase 1 is 12 whichever unknown is
    taken for it: only the phase-0 saturation is compared with the
    bounds. *)
Lemma CheckSystemSolution_second_phase_unchecked :
  (TwoPhaseBase.elemGhostRank Examples.secondPhaseSubRegion 0%nat < 0)%Z
  /\ (forall lid,
        TwoPhaseBase.phaseSat Examples.secondPhaseSubRegion 0%nat 1%nat
        + TwoPhaseBase.dPhaseSat Examples.secondPhaseSubRegion 0%nat 1%nat
        + 1 * TwoPhaseBase.extractLocalVector
                (TwoPhaseBase.solution Examples.secondPhaseRank) lid = 12)
  /\ TwoPhaseBase.CheckSystemSolution 0 1 Examples.secondPhaseRank [] 1 = true.
Proof.
  split; [simpl; lia|]. split; [intros lid; simpl; lra|].
  destruct (TwoPhaseBase.CheckSystemSolution 0 1 Examples.secondPhaseRank [] 1)
    eqn:E; [reflexivity|].
  apply CheckSystemSolution_false_iff in E.
  destruct E as (r & [<-|[]] & H0).
  apply localCheckOf_spec in H0.
  destruct H0 as (sr & ei & [<-|[]] & Hei & Hghost & Hbad).
  unfold TwoPhaseBase.newPres, TwoPhaseBase.newPhaseSat in Hbad.
  simpl in Hbad, Hei. exfalso. destruct Hbad as [Hb|[Hb|Hb]]; lra.
Qed.

(** ** Phase-to-row map *)

Section PhaseRowMap.

Import TwoPhaseBase.

Lemma checkPhaseNames_differs (fluid relPerm : ConstitutiveRelation)
  (ips : list localIndex) (ip : localIndex) :
  In ip ips ->
  phaseName fluid ip <> phaseName relPerm ip ->
  exists e, checkPhaseNames fluid relPerm ips = Some e.
Proof.
  intros Hin Hne. induction ips as [|ip' rest IH]; [contradiction|].
  simpl. destruct (String.eqb_spec (phaseName fluid ip') (phaseName relPerm ip'))
    as [Heq|Hdiff]; simpl.
  - destruct Hin as [->|Hin]; [contradiction|]. apply IH. exact Hin.
  - eexists. reflexivity.
Qed.

(** C6 (as stated, refuted): with fluid phases ("water", "oil") and
    relative-permeability phases ("oil", "water") initialization stops with
    the phase-name error at index 0; no phase is mapped to a row. *)
Lemma InitializePreSubGroups_swapped_names_rejected :
  InitializePreSubGroups (Examples.twoPhaseModel "water" "oil")
    (Some (Examples.twoPhaseModel "oil" "water"))
  = inl (PhaseDoesNotMatch "water" "oil")
  /\ ~ (exists maps,
          InitializePreSubGroups (Examples.twoPhaseModel "water" "oil")
            (Some (Examples.twoPhaseModel "oil" "water")) = inr maps
          /\ m_phaseToRow maps 0%nat = RowOffset.WETTING
          /\ m_phaseToRow maps 1%nat = RowOffset.NONWETTING).
Proof.
  split; [reflexivity|]. intros (maps & Hinit & _). discriminate Hinit.
Qed.

(** C6 (amended): when both models name their phases ("water", "oil"),
    initialization maps phase 0 (water, the wetting phase) to row offset 0
    and phase 1 (oil, the non-wetting phase) to row offset 1; whenever the
    phase name at some index differs between the two models, initialization
    raises a configuration error. *)
Theorem InitializePreSubGroups_phase_rows (fluid relPerm : ConstitutiveRelation) :
  (numFluidPhases fluid = 2%nat -> numFluidPhases relPerm = 2%nat ->
   phaseName fluid 0%nat = "water"%string -> phaseName fluid 1%nat = "oil"%string ->
   phaseName relPerm 0%nat = "water"%string ->
   phaseName relPerm 1%nat = "oil"%string ->
   exists maps,
     InitializePreSubGroups fluid (Some relPerm) = inr maps
     /\ m_phaseToRow maps 0%nat = 0%nat
     /\ m_phaseToRow maps 1%nat = 1%nat)
  /\ (forall ip, (ip < NUM_PHASES)%nat ->
                 phaseName fluid ip <> phaseName relPerm ip ->
                 exists e, InitializePreSubGroups fluid (Some relPerm) = inl e).
Proof.
  split.
  - intros Hn Hn' Hf0 Hf1 Hr0 Hr1.
    unfold InitializePreSubGroups, GEOSX_ERROR_IF, NUM_PHASES.
    rewrite Hn, Hn'. simpl. rewrite Hf0, Hf1, Hr0, Hr1. simpl.
    eexists. split; [reflexivity|]. split; reflexivity.
  - intros ip Hip Hne.
    unfold InitializePreSubGroups, GEOSX_ERROR_IF.
    destruct (negb (Nat.eqb (numFluidPhases fluid) 2)); [eexists; reflexivity|].
    destruct (negb (Nat.eqb (numFluidPhases fluid) (numFluidPhases relPerm)));
      [eexists; reflexivity|].
    destruct (negb (Nat.eqb (numFluidPhases fluid) NUM_PHASES));
      [eexists; reflexivity|].
    destruct (checkPhaseNames_differs fluid relPerm (seq 0 NUM_PHASES) ip)
      as [e He]; [apply in_seq; lia|exact Hne|].
    rewrite He. eexists. reflexivity.
Qed.

End PhaseRowMap.

Lemma InitializePreSubGroups_phase_rows_witness :
  (exists maps,
     TwoPhaseBase.InitializePreSubGroups (Examples.twoPhaseModel "water" "oil")
       (Some (Examples.twoPhaseModel "water" "oil")) = inr maps
     /\ TwoPhaseBase.m_phaseToRow maps 0%nat = 0%nat
     /\ TwoPhaseBase.m_phaseToRow maps 1%nat = 1%nat)
  /\ (exists e,
        TwoPhaseBase.InitializePreSubGroups (Examples.twoPhaseModel "water" "oil")
          (Some (Examples.twoPhaseModel "oil" "water")) = inl e).
Proof.
  split.
  - apply (proj1 (InitializePreSubGroups_phase_rows
                    (Examples.twoPhaseModel "water" "oil")
                    (Examples.twoPhaseModel "water" "oil"))); reflexivity.
  - apply (proj2 (InitializePreSubGroups_phase_rows
                    (Examples.twoPhaseModel "water" "oil")
                    (Examples.twoPhaseModel "oil" "water")) 0%nat).
    + unfold TwoPhaseBase.NUM_PHASES. lia.
    + simpl. discriminate.
Defined.

(** ** State update *)

Ltac index_cases :=
  repeat match goal with
         | |- context [Nat.eqb ?a ?b] => destruct (Nat.eqb_spec a b)
         | |- context [Nat.ltb ?a ?b] => destruct (Nat.ltb_spec a b)
         | H : context [Nat.eqb ?a ?b] |- _ => destruct (Nat.eqb_spec a b)
         | H : context [Nat.ltb ?a ?b] |- _ => destruct (Nat.ltb_spec a b)
         end;
  subst; simpl in *; try reflexivity; try lia; try congruence.

(** A loop storing [F a] in column [c] of row [a]. *)
Lemma forLoop_upd2_col {T : Type} (F : nat -> T) (n c : nat)
  (x0 : nat -> nat -> T) (a q : nat) :
  forLoop 0 n (fun a x => upd2 x a c (F a)) x0 a q
  = if (a <? n)%nat && (q =? c)%nat then F a else x0 a q.
Proof.
  revert a q.
  apply (forLoop_ind
           (fun k x => forall a q,
                x a q = if (a <? k)%nat && (q =? c)%nat then F a else x0 a q)).
  - intros a q. reflexivity.
  - intros k x _ IH a q. simpl. unfold upd2. rewrite IH. index_cases.
Qed.

(** A loop storing [G ip] in the first [m] columns of row [a]. *)
Lemma forLoop_upd2_row {T : Type} (G : nat -> T) (m a : nat)
  (x0 : nat -> nat -> T) (a' ip : nat) :
  forLoop 0 m (fun ip x => upd2 x a ip (G ip)) x0 a' ip
  = if (a' =? a)%nat && (ip <? m)%nat then G ip else x0 a' ip.
Proof.
  revert a' ip.
  apply (forLoop_ind
           (fun k x => forall a' ip,
                x a' ip = if (a' =? a)%nat && (ip <? k)%nat then G ip else x0 a' ip)).
  - intros a' ip. index_cases.
  - intros k x _ IH a' ip. simpl. unfold upd2. rewrite IH. index_cases.
Qed.

(** The two nested loops over elements and phases. *)
Lemma forLoop_upd2_rows {T : Type} (G : nat -> nat -> T) (n m : nat)
  (x0 : nat -> nat -> T) (a ip : nat) :
  forLoop 0 n (fun a x => forLoop 0 m (fun ip x => upd2 x a ip (G a ip)) x) x0 a ip
  = if (a <? n)%nat && (ip <? m)%nat then G a ip else x0 a ip.
Proof.
  revert a ip.
  apply (forLoop_ind
           (fun k x => forall a ip,
                x a ip = if (a <? k)%nat && (ip <? m)%nat then G a ip else x0 a ip)).
  - intros a ip. reflexivity.
  - intros k x _ IH a ip. simpl. rewrite forLoop_upd2_row. rewrite IH. index_cases.
Qed.

Section StateUpdateProperties.

Import TwoPhaseBase.StateUpdate.

Variable evaluateFluid : real64 -> real64 -> list real64 -> FluidPoint.
Variable evaluateSolid : real64 -> SolidPoint.
Variable evaluateRelPerm : list real64 -> RelPermPoint.

Local Abbreviation UpdateState :=
  (TwoPhaseBase.StateUpdate.UpdateState evaluateFluid evaluateSolid evaluateRelPerm).
Local Abbreviation fluidAt := (TwoPhaseBase.StateUpdate.fluidAt evaluateFluid).
Local Abbreviation solidAt := (TwoPhaseBase.StateUpdate.solidAt evaluateSolid).
Local Abbreviation relPermAt := (TwoPhaseBase.StateUpdate.relPermAt evaluateRelPerm).

Lemma PhaseMobilityKernel_Compute_spec (f : FluidPoint) (rp : RelPermPoint)
  (a : localIndex)
  (mobs : arrayView2d real64 * arrayView2d real64 * arrayView2d real64)
  (a' ip : localIndex) :
  let r := PhaseMobilityKernel_Compute f rp a mobs in
  let c := phaseMobilityOf f rp ip in
  let inside := (a' =? a)%nat && (ip <? TwoPhaseBase.NUM_PHASES)%nat in
  fst (fst r) a' ip = written inside (fst (fst c)) (fst (fst mobs) a' ip)
  /\ snd (fst r) a' ip = written inside (snd (fst c)) (snd (fst mobs) a' ip)
  /\ snd r a' ip = written inside (snd c) (snd mobs a' ip).
Proof.
  cbv zeta. unfold PhaseMobilityKernel_Compute. revert a' ip.
  apply (forLoop_ind
           (fun k (r : arrayView2d R * arrayView2d R * arrayView2d R) =>
              forall a' ip,
                let c := phaseMobilityOf f rp ip in
                let inside := (a' =? a)%nat && (ip <? k)%nat in
                fst (fst r) a' ip = written inside (fst (fst c)) (fst (fst mobs) a' ip)
                /\ snd (fst r) a' ip
                   = written inside (snd (fst c)) (snd (fst mobs) a' ip)
                /\ snd r a' ip = written inside (snd c) (snd mobs a' ip))).
  - intros a' ip. cbv zeta. unfold written. index_cases; auto.
  - intros k [[pm dp] ds] _ IH a' ip. cbv zeta. simpl.
    destruct (IH a' ip) as (I1 & I2 & I3). cbn [fst snd] in I1, I2, I3.
    destruct (phaseMobilityOf f rp k) as [[m1 m2] m3] eqn:Ek.
    cbn [fst snd]. unfold upd2. rewrite I1, I2, I3. unfold written.
    index_cases; rewrite ?Ek; auto.
Qed.

Lemma PhaseMobilityKernel_Launch_spec (fluid : arrayView2d FluidPoint)
  (relPerm : arrayView2d RelPermPoint) (n : localIndex)
  (mobs : arrayView2d real64 * arrayView2d real64 * arrayView2d real64)
  (a ip : localIndex) :
  let r := PhaseMobilityKernel_Launch n fluid relPerm mobs in
  let c := phaseMobilityOf (fluid a 0%nat) (relPerm a 0%nat) ip in
  let inside := (a <? n)%nat && (ip <? TwoPhaseBase.NUM_PHASES)%nat in
  fst (fst r) a ip = written inside (fst (fst c)) (fst (fst mobs) a ip)
  /\ snd (fst r) a ip = written inside (snd (fst c)) (snd (fst mobs) a ip)
  /\ snd r a ip = written inside (snd c) (snd mobs a ip).
Proof.
  cbv zeta. unfold PhaseMobilityKernel_Launch. revert a ip.
  apply (forLoop_ind
           (fun k (r : arrayView2d R * arrayView2d R * arrayView2d R) =>
              forall a ip,
                let c := phaseMobilityOf (fluid a 0%nat) (relPerm a 0%nat) ip in
                let inside := (a <? k)%nat && (ip <? TwoPhaseBase.NUM_PHASES)%nat in
                fst (fst r) a ip = written inside (fst (fst c)) (fst (fst mobs) a ip)
                /\ snd (fst r) a ip
                   = written inside (snd (fst c)) (snd (fst mobs) a ip)
                /\ snd r a ip = written inside (snd c) (snd mobs a ip))).
  - intros a ip. cbv zeta. unfold written. simpl. auto.
  - intros k r _ IH a ip. cbv zeta. cbn [Nat.add].
    destruct (PhaseMobilityKernel_Compute_spec (fluid k 0%nat) (relPerm k 0%nat)
                k r a ip) as (L1 & L2 & L3).
    destruct (IH a ip) as (I1 & I2 & I3).
    rewrite L1, L2, L3, I1, I2, I3. unfold written.
    index_cases; auto.
Qed.

Ltac open_state :=
  unfold TwoPhaseBase.StateUpdate.UpdateState, UpdatePhaseMobility,
    UpdateRelPermModel, UpdateSolidModel, UpdateFluidModel,
    set_mobility, set_relPerm, set_newPhaseSat, set_solid, set_fluid;
  cbv zeta;
  cbn [size pressure deltaPressure phaseSat deltaPhaseSat newPhaseSat
         phaseMobility dPhaseMobility_dPressure dPhaseMobility_dSaturation
         fluid solid relPerm fst snd].

(** What one pass stores: in the elements of the group, the evaluations at
    the element's own trial state; elsewhere the old value. *)
Lemma UpdateState_fields (g : DataGroup) :
  (forall a q,
     fluid (UpdateState g) a q
     = written ((a <? size g)%nat && (q =? 0)%nat) (fluidAt g a) (fluid g a q))
  /\ (forall a q,
        solid (UpdateState g) a q
        = written ((a <? size g)%nat && (q =? 0)%nat) (solidAt g a) (solid g a q))
  /\ (forall a ip,
        newPhaseSat (UpdateState g) a ip
        = written ((a <? size g)%nat && (ip <? TwoPhaseBase.NUM_PHASES)%nat)
            (phaseSat g a ip + deltaPhaseSat g a ip) (newPhaseSat g a ip))
  /\ (forall a q,
        relPerm (UpdateState g) a q
        = written ((a <? size g)%nat && (q =? 0)%nat) (relPermAt g a) (relPerm g a q))
  /\ (forall a ip,
        let c := phaseMobilityOf (fluid (UpdateState g) a 0%nat)
                   (relPerm (UpdateState g) a 0%nat) ip in
        let inside := (a <? size g)%nat && (ip <? TwoPhaseBase.NUM_PHASES)%nat in
        phaseMobility (UpdateState g) a ip
        = written inside (fst (fst c)) (phaseMobility g a ip)
        /\ dPhaseMobility_dPressure (UpdateState g) a ip
           = written inside (snd (fst c)) (dPhaseMobility_dPressure g a ip)
        /\ dPhaseMobility_dSaturation (UpdateState g) a ip
           = written inside (snd c) (dPhaseMobility_dSaturation g a ip)).
Proof.
  assert (Hrel : forall a q,
             relPerm (UpdateState g) a q
             = written ((a <? size g)%nat && (q =? 0)%nat) (relPermAt g a)
                 (relPerm g a q)).
  { intros a q. open_state. unfold BatchUpdate.
    rewrite (forLoop_upd2_col
               (fun a => evaluateRelPerm
                           (entries
                              (forLoop 0 (size g)
                                 (fun a x =>
                                    forLoop 0 TwoPhaseBase.NUM_PHASES
                                      (fun ip x =>
                                         upd2 x a ip
                                           (phaseSat g a ip + deltaPhaseSat g a ip))
                                      x) (newPhaseSat g) a)
                              TwoPhaseBase.NUM_PHASES))).
    unfold written.
    destruct ((a <? size g)%nat && (q =? 0)%nat) eqn:E; [|reflexivity].
    unfold TwoPhaseBase.StateUpdate.relPermAt, trialSaturations, entries.
    cbn [TwoPhaseBase.NUM_PHASES seq map].
    rewrite !(forLoop_upd2_rows (fun a ip => phaseSat g a ip + deltaPhaseSat g a ip)).
    apply andb_prop in E. destruct E as [E _]. rewrite E. reflexivity. }
  split.
  { intros a q. open_state. unfold PointUpdate.
    rewrite (forLoop_upd2_col
               (fun a => evaluateFluid (pressure g a + deltaPressure g a)
                           293.15 [0; 0])).
    reflexivity. }
  split.
  { intros a q. open_state. unfold StateUpdatePointPressure.
    rewrite (forLoop_upd2_col
               (fun a => evaluateSolid (pressure g a + deltaPressure g a))).
    reflexivity. }
  split.
  { intros a ip. open_state.
    rewrite (forLoop_upd2_rows (fun a ip => phaseSat g a ip + deltaPhaseSat g a ip)).
    reflexivity. }
  split; [exact Hrel|].
  intros a ip. cbv zeta.
  exact (PhaseMobilityKernel_Launch_spec
           (fluid (UpdateState g)) (relPerm (UpdateState g)) (size g)
           (phaseMobility g, dPhaseMobility_dPressure g, dPhaseMobility_dSaturation g)
           a ip).
Qed.

Lemma written_twice {A : Type} (inside : bool) (new old : A) :
  written inside new (written inside new old) = written inside new old.
Proof. destruct inside; reflexivity. Qed.

(** C7: a second pass over unchanged primary unknowns leaves every derived
    field as the first pass left it; a pass does not touch the primary
    unknowns, and what it stores for an element of the group is the
    evaluation at that element's own trial pressure and saturations,
    entries outside the group keeping their old value. *)
Theorem UpdateState_idempotent (g : DataGroup) :
  derivedEq (UpdateState (UpdateState g)) (UpdateState g)
  /\ primaryEq (UpdateState g) g
  /\ (forall a q,
        fluid (UpdateState g) a q
        = written ((a <? size g)%nat && (q =? 0)%nat) (fluidAt g a) (fluid g a q))
  /\ (forall a q,
        solid (UpdateState g) a q
        = written ((a <? size g)%nat && (q =? 0)%nat) (solidAt g a) (solid g a q))
  /\ (forall a ip,
        newPhaseSat (UpdateState g) a ip
        = written ((a <? size g)%nat && (ip <? TwoPhaseBase.NUM_PHASES)%nat)
            (phaseSat g a ip + deltaPhaseSat g a ip) (newPhaseSat g a ip))
  /\ (forall a q,
        relPerm (UpdateState g) a q
        = written ((a <? size g)%nat && (q =? 0)%nat) (relPermAt g a) (relPerm g a q))
  /\ (forall a ip,
        let c := phaseMobilityOf (fluidAt g a) (relPermAt g a) ip in
        let inside := (a <? size g)%nat && (ip <? TwoPhaseBase.NUM_PHASES)%nat in
        phaseMobility (UpdateState g) a ip
        = written inside (fst (fst c)) (phaseMobility g a ip)
        /\ dPhaseMobility_dPressure (UpdateState g) a ip
           = written inside (snd (fst c)) (dPhaseMobility_dPressure g a ip)
        /\ dPhaseMobility_dSaturation (UpdateState g) a ip
           = written inside (snd c) (dPhaseMobility_dSaturation g a ip)).
Proof.
  destruct (UpdateState_fields g) as (F1 & S1 & N1 & R1 & M1).
  destruct (UpdateState_fields (UpdateState g)) as (F2 & S2 & N2 & R2 & M2).
  assert (Hmob : forall a ip,
             (a <? size g)%nat && (ip <? TwoPhaseBase.NUM_PHASES)%nat = true ->
             phaseMobilityOf (fluid (UpdateState g) a 0%nat)
               (relPerm (UpdateState g) a 0%nat) ip
             = phaseMobilityOf (fluidAt g a) (relPermAt g a) ip).
  { intros a ip E. apply andb_prop in E. destruct E as [E _].
    rewrite F1, R1. rewrite E. reflexivity. }
  assert (Hmob2 : forall a ip,
             (a <? size g)%nat && (ip <? TwoPhaseBase.NUM_PHASES)%nat = true ->
             phaseMobilityOf (fluid (UpdateState (UpdateState g)) a 0%nat)
               (relPerm (UpdateState (UpdateState g)) a 0%nat) ip
             = phaseMobilityOf (fluidAt g a) (relPermAt g a) ip).
  { intros a ip E. apply andb_prop in E. destruct E as [E _].
    rewrite F2, R2.
    change (size (UpdateState g)) with (size g). rewrite E. reflexivity. }
  split; [|split; [|split; [|split; [|split; [|split]]]]].
  - unfold derivedEq. repeat split.
    + intros a q. rewrite F2, F1. apply written_twice.
    + intros a q. rewrite S2, S1. apply written_twice.
    + intros a ip. rewrite N2, N1. apply written_twice.
    + intros a q. rewrite R2, R1. apply written_twice.
    + intros a ip. destruct (M2 a ip) as (E2 & _). destruct (M1 a ip) as (E1 & _).
      rewrite E2, E1. change (size (UpdateState g)) with (size g).
      destruct ((a <? size g)%nat && (ip <? TwoPhaseBase.NUM_PHASES)%nat) eqn:E;
        [|reflexivity].
      unfold written. rewrite Hmob, Hmob2 by exact E. reflexivity.
    + intros a ip. destruct (M2 a ip) as (_ & E2 & _).
      destruct (M1 a ip) as (_ & E1 & _).
      rewrite E2, E1. change (size (UpdateState g)) with (size g).
      destruct ((a <? size g)%nat && (ip <? TwoPhaseBase.NUM_PHASES)%nat) eqn:E;
        [|reflexivity].
      unfold written. rewrite Hmob, Hmob2 by exact E. reflexivity.
    + intros a ip. destruct (M2 a ip) as (_ & _ & E2).
      destruct (M1 a ip) as (_ & _ & E1).
      rewrite E2, E1. change (size (UpdateState g)) with (size g).
      destruct ((a <? size g)%nat && (ip <? TwoPhaseBase.NUM_PHASES)%nat) eqn:E;
        [|reflexivity].
      unfold written. rewrite Hmob, Hmob2 by exact E. reflexivity.
  - unfold primaryEq. repeat split.
  - exact F1.
  - exact S1.
  - exact N1.
  - exact R1.
  - intros a ip. cbv zeta. destruct (M1 a ip) as (E1 & E2 & E3).
    rewrite E1, E2, E3.
    destruct ((a <? size g)%nat && (ip <? TwoPhaseBase.NUM_PHASES)%nat) eqn:E;
      [|unfold written; auto].
    rewrite Hmob by exact E. auto.
Qed.

End StateUpdateProperties.

(** One cell at pressure 10, saturations 1/4 and 3/4: the first pass stores
    the mobility 1/4 * 10 / 1 = 5/2 for phase 0, the second pass leaves
    it. *)
Lemma UpdateState_idempotent_witness :
  TwoPhaseBase.StateUpdate.phaseMobility
    (TwoPhaseBase.StateUpdate.UpdateState Examples.linearFluid Examples.rigidSolid
       Examples.linearRelPerm
       (TwoPhaseBase.StateUpdate.UpdateState Examples.linearFluid
          Examples.rigidSolid Examples.linearRelPerm Examples.oneCell))
    0%nat 0%nat
  = 5 / 2.
Proof.
  destruct (UpdateState_idempotent Examples.linearFluid Examples.rigidSolid
              Examples.linearRelPerm Examples.oneCell)
    as ((_ & _ & _ & _ & Hmob & _) & _ & _ & _ & _ & _ & Hval).
  rewrite Hmob. destruct (Hval 0%nat 0%nat) as (Hfirst & _).
  rewrite Hfirst. cbn. lra.
Defined.

(** * Further properties of the embedded code *)

(** ** Damage model: degradation function and its derivatives *)

Lemma derivable_pt_lim_ext (f g : R -> R) (x l : R) :
  (forall y, f y = g y) -> derivable_pt_lim f x l -> derivable_pt_lim g x l.
Proof.
  intros Hfg Hf eps Heps. destruct (Hf eps Heps) as [delta Hd].
  exists delta. intros h Hh0 Hh. rewrite <- !Hfg. apply Hd; assumption.
Qed.

(** Derivative of a quadratic polynomial. *)
Lemma derivable_pt_lim_quadratic (a b c x : R) :
  derivable_pt_lim (fun y => a + b * y + c * (y * y)) x (b + 2 * c * x).
Proof.
  apply derivable_pt_lim_ext
    with (f := (fct_cte a + mult_real_fct b id + mult_real_fct c (id * id))%F).
  { intros y. reflexivity. }
  replace (b + 2 * c * x) with (0 + b * 1 + c * (1 * id x + id x * 1))
    by (unfold id; ring).
  apply derivable_pt_lim_plus; [apply derivable_pt_lim_plus|].
  - apply derivable_pt_lim_const.
  - apply derivable_pt_lim_scal. apply derivable_pt_lim_id.
  - apply derivable_pt_lim_scal.
    apply derivable_pt_lim_mult; apply derivable_pt_lim_id.
Qed.

(** Quotient rule in pointwise form. *)
Lemma derivable_pt_lim_quotient (f g : R -> R) (x lf lg : R) :
  derivable_pt_lim f x lf -> derivable_pt_lim g x lg -> g x <> 0 ->
  derivable_pt_lim (fun y => f y / g y) x ((lf * g x - lg * f x) / (g x) ^ 2).
Proof.
  intros Hf Hg Hne.
  replace ((g x) ^ 2) with (Rsqr (g x)) by (unfold Rsqr; ring).
  exact (derivable_pt_lim_div f g x lf lg Hf Hg Hne).
Qed.

Lemma degradation_denominator_pos (m d : R) :
  0 < m -> 0 <= d <= 1 -> 0 < (1 - d) ^ 2 + m * d * (1 + 1 * d).
Proof.
  intros Hm Hd.
  assert (0 <= m * d * (1 + 1 * d)).
  { apply Rmult_le_pos; [apply Rmult_le_pos|]; lra. }
  destruct (Req_dec d 1) as [->|Hne]; [nra|].
  assert (0 < (1 - d) ^ 2) by nra. lra.
Qed.

Section Degradation.

Import DamageVolDevUpdates.

Variable u : DamageFields.

Local Abbreviation ratio :=
  (m_criticalFractureEnergy u / (2 * m_lengthScale u * m_criticalStrainEnergy u)).

(** X1: for a positive modulus ratio and a damage in [0, 1],
    [GetDegradationDerivative] is the derivative of the degradation value
    with respect to the damage. *)
Theorem GetDegradationDerivative_is_derivative (k q : localIndex) (d : real64) :
  0 < m_criticalFractureEnergy u / (2 * m_lengthScale u * m_criticalStrainEnergy u) ->
  0 <= d <= 1 ->
  derivable_pt_lim (fun y => GetDegradationValue (withDamage u y) k q) d
    (GetDegradationDerivative u d).
Proof.
  intros Hm Hd.
  unfold GetDegradationValue, GetDegradationDerivative, withDamage.
  cbn [m_damage m_criticalFractureEnergy m_lengthScale m_criticalStrainEnergy].
  set (m := ratio) in *.
  pose proof (degradation_denominator_pos m d Hm Hd) as Hden.
  apply derivable_pt_lim_ext
    with (f := fun y => (1 + (-2) * y + 1 * (y * y))
                        / (1 + (m - 2) * y + (1 + m) * (y * y))).
  { intros y. f_equal; ring. }
  assert (Hden' : 1 + (m - 2) * d + (1 + m) * (d * d) <> 0).
  { replace (1 + (m - 2) * d + (1 + m) * (d * d))
      with ((1 - d) ^ 2 + m * d * (1 + 1 * d)) by ring. lra. }
  pose proof (derivable_pt_lim_quotient
                (fun y => 1 + (-2) * y + 1 * (y * y))
                (fun y => 1 + (m - 2) * y + (1 + m) * (y * y))
                d _ _
                (derivable_pt_lim_quadratic 1 (-2) 1 d)
                (derivable_pt_lim_quadratic 1 (m - 2) (1 + m) d) Hden') as Hq.
  cbv beta in Hq.
  match goal with
  | Hq : derivable_pt_lim _ _ ?l |- derivable_pt_lim _ _ ?l' =>
      replace l' with l; [exact Hq|]
  end.
  field.
  replace ((1 - d) ^ 2 + m * d * (1 + d))
    with ((1 - d) ^ 2 + m * d * (1 + 1 * d)) by ring. lra.
Qed.

(** X2: under the same conditions [GetDegradationSecondDerivative] is the
    derivative of [GetDegradationDerivative]. *)
Theorem GetDegradationSecondDerivative_is_derivative (d : real64) :
  0 < m_criticalFractureEnergy u / (2 * m_lengthScale u * m_criticalStrainEnergy u) ->
  0 <= d <= 1 ->
  derivable_pt_lim (GetDegradationDerivative u) d
    (GetDegradationSecondDerivative u d).
Proof.
  intros Hm Hd.
  unfold GetDegradationDerivative, GetDegradationSecondDerivative.
  set (m := ratio) in *.
  pose proof (degradation_denominator_pos m d Hm Hd) as Hden.
  set (D := fun y => 1 + (m - 2) * y + (1 + m) * (y * y)).
  assert (HD : derivable_pt_lim D d (m - 2 + 2 * (1 + m) * d))
    by apply derivable_pt_lim_quadratic.
  assert (HDd : D d = (1 - d) ^ 2 + m * d * (1 + 1 * d)) by (unfold D; ring).
  assert (HDD : derivable_pt_lim (fun y => D y * D y) d
                  ((m - 2 + 2 * (1 + m) * d) * D d
                   + D d * (m - 2 + 2 * (1 + m) * d))).
  { exact (derivable_pt_lim_mult D D d _ _ HD HD). }
  assert (Hne : D d * D d <> 0) by (rewrite HDd; nra).
  pose proof (derivable_pt_lim_quotient
                (fun y => - m + (- 2 * m) * y + (3 * m) * (y * y))
                (fun y => D y * D y) d _ _
                (derivable_pt_lim_quadratic (- m) (- 2 * m) (3 * m) d)
                HDD Hne) as Hq.
  cbv beta in Hq.
  apply derivable_pt_lim_ext
    with (f := fun y => (- m + (- 2 * m) * y + (3 * m) * (y * y)) / (D y * D y)).
  { intros y. unfold D. f_equal; ring. }
  match goal with
  | Hq : derivable_pt_lim _ _ ?l |- derivable_pt_lim _ _ ?l' =>
      replace l' with l; [exact Hq|]
  end.
  unfold D in *. field.
  replace ((1 - d) ^ 2 + m * d * (1 + d))
    with ((1 - d) ^ 2 + m * d * (1 + 1 * d)) by ring.
  repeat split; try lra.
Qed.

(** X3: for a positive modulus ratio the degradation value does not
    increase with the damage on [0, 1], and [GetDegradationDerivative] is
    [<= 0] there. *)
Theorem GetDegradationValue_nonincreasing (k q : localIndex) (d1 d2 : real64) :
  0 < m_criticalFractureEnergy u / (2 * m_lengthScale u * m_criticalStrainEnergy u) ->
  0 <= d1 -> d1 <= d2 -> d2 <= 1 ->
  GetDegradationValue (withDamage u d2) k q
  <= GetDegradationValue (withDamage u d1) k q
  /\ GetDegradationDerivative u d1 <= 0.
Proof.
  intros Hm H0 H12 H1.
  unfold GetDegradationValue, GetDegradationDerivative, withDamage.
  cbn [m_damage m_criticalFractureEnergy m_lengthScale m_criticalStrainEnergy].
  set (m := ratio) in *.
  pose proof (degradation_denominator_pos m d1 Hm ltac:(lra)) as Hden1.
  pose proof (degradation_denominator_pos m d2 Hm ltac:(lra)) as Hden2.
  set (N1 := (1 - d1) ^ 2) in *. set (N2 := (1 - d2) ^ 2) in *.
  set (M1 := m * d1 * (1 + 1 * d1)) in *. set (M2 := m * d2 * (1 + 1 * d2)) in *.
  assert (HN : 0 <= N2 <= N1) by (unfold N1, N2; nra).
  assert (HM1 : 0 <= M1)
    by (unfold M1; apply Rmult_le_pos; [apply Rmult_le_pos|]; lra).
  assert (HM : M1 <= M2).
  { unfold M1, M2.
    assert (d1 * (1 + 1 * d1) <= d2 * (1 + 1 * d2)) by nra.
    rewrite !Rmult_assoc. apply Rmult_le_compat_l; lra. }
  split.
  - apply Rmult_le_reg_r with (N2 + M2); [lra|].
    unfold Rdiv at 1. rewrite Rmult_assoc, Rinv_l, Rmult_1_r by lra.
    apply Rmult_le_reg_r with (N1 + M1); [lra|].
    replace (N1 / (N1 + M1) * (N2 + M2) * (N1 + M1))
      with (N1 * (N2 + M2)) by (field; lra).
    assert (N2 * M1 <= N1 * M1) by (apply Rmult_le_compat_r; lra).
    assert (N1 * M1 <= N1 * M2) by (apply Rmult_le_compat_l; lra).
    lra.
  - assert (Hnum : 0 <= m * (1 - d1) * (1 + (2 * 1 + 1) * d1)).
    { apply Rmult_le_pos; [apply Rmult_le_pos|]; lra. }
    assert (Hsq : 0 < (N1 + M1) ^ 2) by (apply pow_lt; lra).
    replace (- m * (1 - d1) * (1 + (2 * 1 + 1) * d1) / (N1 + M1) ^ 2)
      with (- (m * (1 - d1) * (1 + (2 * 1 + 1) * d1) / (N1 + M1) ^ 2))
      by (field; lra).
    assert (0 <= m * (1 - d1) * (1 + (2 * 1 + 1) * d1) / (N1 + M1) ^ 2).
    { apply Rmult_le_pos; [exact Hnum|]. left. apply Rinv_0_lt_compat. exact Hsq. }
    lra.
Qed.

End Degradation.

Lemma GetDegradationDerivative_is_derivative_witness :
  derivable_pt_lim
    (fun y => DamageVolDevUpdates.GetDegradationValue
                (DamageVolDevUpdates.withDamage Examples.halfDamaged y) 0 0)
    (1 / 2)
    (DamageVolDevUpdates.GetDegradationDerivative Examples.halfDamaged (1 / 2)).
Proof.
  apply (GetDegradationDerivative_is_derivative Examples.halfDamaged 0 0 (1 / 2));
    simpl; lra.
Defined.

Lemma GetDegradationSecondDerivative_is_derivative_witness :
  derivable_pt_lim
    (DamageVolDevUpdates.GetDegradationDerivative Examples.halfDamaged) (1 / 2)
    (DamageVolDevUpdates.GetDegradationSecondDerivative Examples.halfDamaged (1 / 2)).
Proof.
  apply (GetDegradationSecondDerivative_is_derivative Examples.halfDamaged (1 / 2));
    simpl; lra.
Defined.

Lemma GetDegradationValue_nonincreasing_witness :
  DamageVolDevUpdates.GetDegradationValue
    (DamageVolDevUpdates.withDamage Examples.halfDamaged (3 / 4)) 0 0
  <= DamageVolDevUpdates.GetDegradationValue
       (DamageVolDevUpdates.withDamage Examples.halfDamaged (1 / 4)) 0 0.
Proof.
  apply (GetDegradationValue_nonincreasing Examples.halfDamaged 0 0 (1 / 4) (3 / 4));
    simpl; lra.
Defined.

(** ** Damage model: volumetric/deviatoric split *)

Section VolumetricDeviatoricSplit.

Import DamageVolDevUpdates.

Context {B : Type} `{UPDATE_BASE B}.

(** X4: [getStress] degrades the deviatoric part of the stress by the
    degradation value whatever the sign of the mean stress, keeps the trace
    when the trace is negative and degrades it otherwise; the shear
    components are degraded, and nothing past the six entries is written. *)
Theorem getStress_volumetric_deviatoric_split (b : B) (u : DamageFields)
  (k q : localIndex) (stress : arraySlice1d real64) :
  let s := getStress b u k q stress in
  let g := GetDegradationValue u k q in
  let tr := traceOfStress b k q in
  s 0%nat + s 1%nat + s 2%nat = (if Rlt_dec tr 0 then tr else g * tr)
  /\ (forall i, (i < 3)%nat ->
        s i - (s 0%nat + s 1%nat + s 2%nat) / 3 = g * (m_stress b k q i - tr / 3))
  /\ (forall i, (3 <= i < 6)%nat -> s i = g * m_stress b k q i)
  /\ (forall i, (6 <= i)%nat -> s i = stress i).
Proof.
  cbv zeta. unfold getStress, compressionIndicator.
  set (g := GetDegradationValue u k q).
  set (tr := traceOfStress b k q).
  assert (E3 : 3.0 = 3) by lra. rewrite E3.
  split; [|split; [|split]].
  - upd_simpl.
    destruct (Rlt_dec tr 0.0), (Rlt_dec tr 0); try (exfalso; lra);
      unfold tr, traceOfStress; field.
  - intros i Hi. destruct i as [|[|[|i]]]; [| | |lia]; upd_simpl;
      destruct (Rlt_dec tr 0.0); unfold tr, traceOfStress; field.
  - intros i Hi. destruct i as [|[|[|[|[|[|i]]]]]]; try lia; upd_simpl; ring.
  - intros i Hi. upd_simpl. reflexivity.
Qed.

(** What [GetStiffness] leaves in each entry. *)
Lemma GetStiffness_entries (b : B) (u : DamageFields) (k q : localIndex)
  (c : arraySlice2d real64) (i j : localIndex) :
  GetStiffness b u k q c i j
  = if (i <? 6)%nat && (j <? 6)%nat
    then if (i <? 3)%nat && (j <? 3)%nat
         then GetDegradationValue u k q * c i j
              + (1 - GetDegradationValue u k q) * getBulkModulus b k
                * compressionIndicator b k q
         else c i j * GetDegradationValue u k q
    else c i j.
Proof.
  unfold GetStiffness.
  set (g := GetDegradationValue u k q).
  set (K := getBulkModulus b k).
  set (ci := compressionIndicator b k q).
  set (F := fun i j : nat =>
              if (i <? 3)%nat && (j <? 3)%nat
              then g * c i j + (1 - g) * K * ci else c i j * g).
  change (forLoop 0 6
            (fun i c0 =>
               forLoop 0 6
                 (fun j c1 =>
                    if (i <? 3)%nat && (j <? 3)%nat
                    then upd2 c1 i j (g * c1 i j + (1 - g) * K * ci)
                    else upd2 c1 i j (c1 i j * g)) c0) c i j
          = if (i <? 6)%nat && (j <? 6)%nat then F i j else c i j).
  revert i j.
  apply (forLoop_ind
           (fun n x => forall i j,
                x i j = if (i <? n)%nat && (j <? 6)%nat then F i j else c i j)).
  - intros i j. reflexivity.
  - intros n x _ IH i j. cbn [Nat.add].
    assert (Hinner : forall m i j,
               forLoop 0 m
                 (fun j c1 =>
                    if (n <? 3)%nat && (j <? 3)%nat
                    then upd2 c1 n j (g * c1 n j + (1 - g) * K * ci)
                    else upd2 c1 n j (c1 n j * g)) x i j
               = if (i =? n)%nat && (j <? m)%nat then F n j else x i j).
    { intros m.
      apply (forLoop_ind
               (fun m x' => forall i j,
                    x' i j = if (i =? n)%nat && (j <? m)%nat then F n j else x i j)).
      - intros i' j'. index_cases.
      - intros m' x' _ IH' i' j'. cbn [Nat.add].
        assert (Eold : x' n m' = c n m').
        { rewrite IH', IH. index_cases. }
        unfold F. destruct ((n <? 3)%nat && (m' <? 3)%nat) eqn:E;
          unfold upd2; rewrite Eold, IH'; index_cases; unfold F; index_cases. }
    rewrite Hinner, IH. index_cases.
Qed.

(** X5: [GetStiffness] turns a symmetric stiffness into a symmetric
    stiffness and leaves every entry outside the 6 x 6 block as it was. *)
Theorem GetStiffness_keeps_symmetry (b : B) (u : DamageFields)
  (k q : localIndex) (c : arraySlice2d real64) (i j : localIndex) :
  (forall i j, c i j = c j i) ->
  GetStiffness b u k q c i j = GetStiffness b u k q c j i
  /\ (if (i <? 6)%nat && (j <? 6)%nat then True
      else GetStiffness b u k q c i j = c i j).
Proof.
  intros Hsym. split.
  - rewrite !GetStiffness_entries, (Hsym i j).
    rewrite (andb_comm (i <? 6)%nat), (andb_comm (i <? 3)%nat). reflexivity.
  - rewrite GetStiffness_entries.
    destruct ((i <? 6)%nat && (j <? 6)%nat); [exact I|reflexivity].
Qed.

(** X6: when the trace of the stress is not negative, the split reduces to
    a uniform degradation: every stress component and every entry of the
    6 x 6 stiffness is the undamaged one times the degradation value. *)
Theorem tension_is_degraded_uniformly (b : B) (u : DamageFields)
  (k q : localIndex) (stress : arraySlice1d real64) (c : arraySlice2d real64)
  (i j : localIndex) :
  0 <= traceOfStress b k q ->
  (i < 6)%nat -> (j < 6)%nat ->
  getStress b u k q stress i = GetDegradationValue u k q * m_stress b k q i
  /\ GetStiffness b u k q c i j = GetDegradationValue u k q * c i j.
Proof.
  intros Htr Hi Hj. split.
  - unfold getStress, compressionIndicator.
    destruct (Rlt_dec (traceOfStress b k q) 0.0) as [Hneg|_]; [exfalso; lra|].
    destruct i as [|[|[|[|[|[|i]]]]]]; try lia; upd_simpl; ring.
  - rewrite GetStiffness_entries. unfold compressionIndicator.
    destruct (Rlt_dec (traceOfStress b k q) 0.0) as [Hneg|_]; [exfalso; lra|].
    destruct (Nat.ltb_spec i 6); [|lia]. destruct (Nat.ltb_spec j 6); [|lia].
    cbn [andb]. destruct ((i <? 3)%nat && (j <? 3)%nat); ring.
Qed.

(** X7: for a positive bulk modulus the candidate energy of
    [calculateActiveStrainEnergyDensity] never exceeds the strain energy
    density of the base model, and equals it when the trace of the stress
    is not negative. *)
Theorem activeStrainEnergyDensity_at_most_total (b : B) (k q : localIndex) :
  0 < getBulkModulus b k ->
  activeStrainEnergyDensityCandidate b k q <= calculateStrainEnergyDensity b k q
  /\ (if Rlt_dec (traceOfStress b k q) 0 then True
      else activeStrainEnergyDensityCandidate b k q
           = calculateStrainEnergyDensity b k q).
Proof.
  intros HK. unfold activeStrainEnergyDensityCandidate.
  fold (traceOfStress b k q). set (tr := traceOfStress b k q).
  assert (E3 : 3.0 = 3) by lra. rewrite E3.
  assert (Hsq : 0 <= tr / 3 * (tr / 3) / (2 * getBulkModulus b k)).
  { apply Rmult_le_pos; [nra|]. left. apply Rinv_0_lt_compat. lra. }
  destruct (Rlt_dec tr 0.0) as [Hneg|Hpos]; destruct (Rlt_dec tr 0);
    try (exfalso; lra).
  - split; [|exact I].
    replace (1 * (tr / 3) * (tr / 3) / (2 * getBulkModulus b k))
      with (tr / 3 * (tr / 3) / (2 * getBulkModulus b k)) by (field; lra).
    lra.
  - replace (0 * (tr / 3) * (tr / 3) / (2 * getBulkModulus b k)) with 0
      by (field; lra).
    split; lra.
Qed.

End VolumetricDeviatoricSplit.

Lemma GetStiffness_keeps_symmetry_witness :
  DamageVolDevUpdates.GetStiffness Examples.compression Examples.halfDamaged 0 0
    (fun i j => INR i + INR j) 0%nat 4%nat
  = DamageVolDevUpdates.GetStiffness Examples.compression Examples.halfDamaged 0 0
      (fun i j => INR i + INR j) 4%nat 0%nat.
Proof.
  refine (proj1 (GetStiffness_keeps_symmetry Examples.compression
                   Examples.halfDamaged 0 0 (fun i j => INR i + INR j)
                   0%nat 4%nat _)).
  intros i j. apply Rplus_comm.
Defined.

Lemma tension_is_degraded_uniformly_witness :
  DamageVolDevUpdates.getStress Examples.tension Examples.halfDamaged 0 0
    (fun _ => 0) 0%nat
  = DamageVolDevUpdates.GetDegradationValue Examples.halfDamaged 0 0 * 3.
Proof.
  refine (proj1 (tension_is_degraded_uniformly Examples.tension
                   Examples.halfDamaged 0 0 (fun _ => 0) (fun _ _ => 0)
                   0%nat 0%nat _ _ _)).
  - unfold DamageVolDevUpdates.traceOfStress.
    cbn [DamageVolDevUpdates.m_stress Examples.stressOnly].
    unfold Examples.tension. cbn [Nat.ltb Nat.leb]. lra.
  - lia.
  - lia.
Defined.

Lemma activeStrainEnergyDensity_at_most_total_witness :
  DamageVolDevUpdates.activeStrainEnergyDensityCandidate Examples.compression 0 0
  <= 1.
Proof.
  refine (proj1 (activeStrainEnergyDensity_at_most_total Examples.compression
                   0 0 _)).
  cbn [DamageVolDevUpdates.getBulkModulus Examples.stressOnly]. lra.
Defined.
(** ** Aperture rules: the derivative and the position of rule 1 *)

(** Derivative of a cubic polynomial. *)
Lemma derivable_pt_lim_cubic (c0 c1 c2 c3 x : R) :
  derivable_pt_lim (fun y => c0 + c1 * y + c2 * (y * y) + c3 * (y * (y * y))) x
    (c1 + 2 * c2 * x + 3 * c3 * (x * x)).
Proof.
  apply derivable_pt_lim_ext
    with (f := plus_fct (fun y => c0 + c1 * y + c2 * (y * y))
                 (mult_real_fct c3
                    (mult_fct id (fun y => 0 + 0 * y + 1 * (y * y))))).
  { intros y. unfold plus_fct, mult_real_fct, mult_fct, id. ring. }
  replace (c1 + 2 * c2 * x + 3 * c3 * (x * x))
    with ((c1 + 2 * c2 * x)
          + c3 * (1 * (0 + 0 * x + 1 * (x * x)) + id x * (0 + 2 * 1 * x)))
    by (unfold id; ring).
  apply derivable_pt_lim_plus.
  - apply derivable_pt_lim_quadratic.
  - apply derivable_pt_lim_scal.
    apply (derivable_pt_lim_mult id (fun y => 0 + 0 * y + 1 * (y * y))).
    + apply derivable_pt_lim_id.
    + apply derivable_pt_lim_quadratic.
Qed.

(** X8: in each of the three rules [dAperTerm_dAper] is the derivative of
    [aperTerm] with respect to the current aperture [aper], the
    start-of-step aperture [aper0] held fixed. *)
Theorem dAperTerm_dAper_is_derivative (aper0 aper : real64) :
  derivable_pt_lim
    (fun a => fst (FluxKernelHelper.apertureForPermeablityCalculation_0 aper0 a))
    aper (snd (FluxKernelHelper.apertureForPermeablityCalculation_0 aper0 aper))
  /\ derivable_pt_lim
       (fun a => fst (FluxKernelHelper.apertureForPermeablityCalculation_1 aper0 a))
       aper (snd (FluxKernelHelper.apertureForPermeablityCalculation_1 aper0 aper))
  /\ derivable_pt_lim
       (fun a => fst (FluxKernelHelper.apertureForPermeablityCalculation_2 aper0 a))
       aper (snd (FluxKernelHelper.apertureForPermeablityCalculation_2 aper0 aper)).
Proof.
  unfold FluxKernelHelper.apertureForPermeablityCalculation_0,
    FluxKernelHelper.apertureForPermeablityCalculation_1,
    FluxKernelHelper.apertureForPermeablityCalculation_2.
  cbn [fst snd].
  assert (E25 : 0.25 = 1 / 4) by lra.
  assert (E0 : 0.0 = 0) by lra.
  assert (E3 : 3.0 = 3) by lra.
  split; [|split].
  - rewrite E0. apply (derivable_pt_lim_const (aper0 * aper0 * aper0)).
  - apply derivable_pt_lim_ext
      with (f := fun y => aper0 * aper0 * aper0 / 4 + aper0 * aper0 / 4 * y
                          + aper0 / 4 * (y * y) + 1 / 4 * (y * (y * y))).
    { intros y. rewrite E25. field. }
    replace (0.25 * (aper0 * aper0 + 2 * aper0 * aper + 3 * aper * aper))
      with (aper0 * aper0 / 4 + 2 * (aper0 / 4) * aper + 3 * (1 / 4) * (aper * aper))
      by (rewrite E25; field).
    apply derivable_pt_lim_cubic.
  - apply derivable_pt_lim_ext
      with (f := fun y => 0 + 0 * y + 0 * (y * y) + 1 * (y * (y * y))).
    { intros y. ring. }
    replace (3.0 * aper * aper) with (0 + 2 * 0 * aper + 3 * 1 * (aper * aper))
      by (rewrite E3; ring).
    apply derivable_pt_lim_cubic.
Qed.

(** X9: rule 1 returns the mean of the cubed aperture over the step: times
    the aperture change it is a quarter of the change of the fourth power;
    for apertures that are not negative it lies between the terms of
    rule 0 and of rule 2. *)
Theorem exact_aperture_term_is_mean (aper0 aper : real64) :
  0 <= aper0 -> 0 <= aper ->
  let t0 := fst (FluxKernelHelper.apertureForPermeablityCalculation_0 aper0 aper) in
  let t1 := fst (FluxKernelHelper.apertureForPermeablityCalculation_1 aper0 aper) in
  let t2 := fst (FluxKernelHelper.apertureForPermeablityCalculation_2 aper0 aper) in
  t1 * (aper - aper0) = (aper ^ 4 - aper0 ^ 4) / 4
  /\ Rmin t0 t2 <= t1 <= Rmax t0 t2.
Proof.
  intros H0 H1. cbv zeta.
  unfold FluxKernelHelper.apertureForPermeablityCalculation_0,
    FluxKernelHelper.apertureForPermeablityCalculation_1,
    FluxKernelHelper.apertureForPermeablityCalculation_2.
  cbn [fst snd].
  assert (E25 : 0.25 = 1 / 4) by lra. rewrite E25.
  split; [field|].
  assert (Hsq0 : 0 <= aper0 * aper0) by nra.
  assert (Hsq1 : 0 <= aper * aper) by nra.
  assert (Hp : 0 <= aper0 * aper) by (apply Rmult_le_pos; lra).
  destruct (Rle_dec aper0 aper) as [Hle|Hgt].
  - assert (A1 : aper0 * aper0 * aper0 <= aper0 * aper0 * aper) by nra.
    assert (A2 : aper0 * aper0 * aper <= aper0 * aper * aper) by nra.
    assert (A3 : aper0 * aper * aper <= aper * aper * aper) by nra.
    rewrite Rmin_left, Rmax_right by lra. lra.
  - assert (A1 : aper0 * aper0 * aper <= aper0 * aper0 * aper0) by nra.
    assert (A2 : aper0 * aper * aper <= aper0 * aper0 * aper) by nra.
    assert (A3 : aper * aper * aper <= aper0 * aper * aper) by nra.
    rewrite Rmin_right, Rmax_left by lra. lra.
Qed.

Lemma exact_aperture_term_is_mean_witness :
  fst (FluxKernelHelper.apertureForPermeablityCalculation_1 1 2) * (2 - 1)
  = (2 ^ 4 - 1 ^ 4) / 4.
Proof.
  refine (proj1 (exact_aperture_term_is_mean 1 2 _ _)); lra.
Defined.

(** ** Two-point flux kernel: overloads, frame and Jacobian *)

Lemma populateJacobian_frame (stencilSize : localIndex) (dt : real64)
  (dFlux_dP : arraySlice1d real64) (fluxJacobian : arraySlice2d real64)
  (r c : localIndex) :
  (2 <= r)%nat \/ (stencilSize <= c)%nat ->
  FluxKernel.populateJacobian stencilSize dt dFlux_dP fluxJacobian r c
  = fluxJacobian r c.
Proof.
  unfold FluxKernel.populateJacobian. revert r c.
  apply (forLoop_ind
           (fun n J => forall r c, (2 <= r)%nat \/ (n <= c)%nat ->
                         J r c = fluxJacobian r c)).
  - intros r c _. reflexivity.
  - intros k J _ IH r c Hout. cbn [Nat.add].
    rewrite !upd2_other by lia. apply IH. lia.
Qed.

Section TwoPointKernelFurther.

Variable stencilSize : localIndex.
Variables seri sesri sei : arraySlice1d localIndex.
Variable stencilWeights : arraySlice1d real64.
Variables pres dPres gravCoef mob dMob_dPres : arrayView1d real64.
Variables dens dDens_dPres : arrayView2d real64.
Variable dt : real64.
Variable flux : arraySlice1d real64.
Variable fluxJacobian : arraySlice2d real64.

(** X10: on data that do not depend on the region and sub-region indices
    the general overload of [Compute] returns, entry by entry, what the
    same-region overload returns. *)
Theorem Compute_overloads_agree (i r c : localIndex) :
  fst (FluxKernel.Compute stencilSize seri sesri sei stencilWeights
         (fun _ _ => pres) (fun _ _ => dPres) (fun _ _ => gravCoef)
         (fun _ _ => dens) (fun _ _ => dDens_dPres)
         (fun _ _ => mob) (fun _ _ => dMob_dPres) dt flux fluxJacobian) i
  = fst (FluxKernel.Compute_sameRegion stencilSize seri sesri sei stencilWeights
           pres dPres gravCoef dens dDens_dPres mob dMob_dPres dt flux
           fluxJacobian) i
  /\ snd (FluxKernel.Compute stencilSize seri sesri sei stencilWeights
            (fun _ _ => pres) (fun _ _ => dPres) (fun _ _ => gravCoef)
            (fun _ _ => dens) (fun _ _ => dDens_dPres)
            (fun _ _ => mob) (fun _ _ => dMob_dPres) dt flux fluxJacobian) r c
     = snd (FluxKernel.Compute_sameRegion stencilSize seri sesri sei
              stencilWeights pres dPres gravCoef dens dDens_dPres mob dMob_dPres
              dt flux fluxJacobian) r c.
Proof.
  assert (Ew : 1.0 / INR FluxKernel.NUM_POINT_IN_FLUX = 0.5)
    by (unfold FluxKernel.NUM_POINT_IN_FLUX; simpl; lra).
  unfold FluxKernel.Compute, FluxKernel.Compute_sameRegion.
  cbv zeta. rewrite Ew. split; reflexivity.
Qed.

(** X11: both overloads write the two flux entries and the first
    [stencilSize] columns of the two Jacobian rows, nothing else. *)
Theorem Compute_writes_only_its_slots (seri' sesri' : arraySlice1d localIndex)
  (presE dPresE gravCoefE mobE dMob_dPresE : ElementView (arrayView1d real64))
  (densE dDens_dPresE : ElementView (arrayView2d real64))
  (i r c : localIndex) :
  (2 <= i)%nat ->
  (2 <= r)%nat \/ (stencilSize <= c)%nat ->
  fst (FluxKernel.Compute stencilSize seri' sesri' sei stencilWeights
         presE dPresE gravCoefE densE dDens_dPresE mobE dMob_dPresE
         dt flux fluxJacobian) i = flux i
  /\ snd (FluxKernel.Compute stencilSize seri' sesri' sei stencilWeights
            presE dPresE gravCoefE densE dDens_dPresE mobE dMob_dPresE
            dt flux fluxJacobian) r c = fluxJacobian r c
  /\ fst (FluxKernel.Compute_sameRegion stencilSize seri sesri sei stencilWeights
            pres dPres gravCoef dens dDens_dPres mob dMob_dPres dt flux
            fluxJacobian) i = flux i
  /\ snd (FluxKernel.Compute_sameRegion stencilSize seri sesri sei stencilWeights
            pres dPres gravCoef dens dDens_dPres mob dMob_dPres dt flux
            fluxJacobian) r c = fluxJacobian r c.
Proof.
  intros Hi Hrc.
  unfold FluxKernel.Compute, FluxKernel.Compute_sameRegion.
  repeat split; open_pairs; cbn [fst snd];
    first [ rewrite !upd_other by lia; reflexivity
          | apply populateJacobian_frame; exact Hrc ].
Qed.

End TwoPointKernelFurther.

Lemma Compute_writes_only_its_slots_witness :
  fst (FluxKernel.Compute_sameRegion 2 Examples.region0 Examples.region0
         Examples.cells Examples.weights Examples.pressures (Examples.const1 0)
         (Examples.const1 0) (Examples.const2 1) (Examples.const2 0)
         (Examples.const1 1) (Examples.const1 0) 1 (fun _ => 7) (fun _ _ => 7))
    2%nat = 7.
Proof.
  refine (proj1 (proj2 (proj2
    (Compute_writes_only_its_slots 2 Examples.region0 Examples.region0
       Examples.cells Examples.weights Examples.pressures (Examples.const1 0)
       (Examples.const1 0) (Examples.const1 1) (Examples.const1 0)
       (Examples.const2 1) (Examples.const2 0) 1 (fun _ => 7) (fun _ _ => 7)
       Examples.region0 Examples.region0
       (Examples.inRegions Examples.pressures)
       (Examples.inRegions (Examples.const1 0))
       (Examples.inRegions (Examples.const1 0))
       (Examples.inRegions (Examples.const1 1))
       (Examples.inRegions (Examples.const1 0))
       (Examples.inRegions (Examples.const2 1))
       (Examples.inRegions (Examples.const2 0))
       2%nat 2%nat 0%nat _ _)))); [lia | left; lia].
Defined.

Lemma forLoop_rel {S1 S2 : Type} (P : nat -> S1 -> S2 -> Prop) (lo n : nat)
  (body1 : nat -> S1 -> S1) (body2 : nat -> S2 -> S2) (s1 : S1) (s2 : S2) :
  P 0%nat s1 s2 ->
  (forall k t1 t2, (k < n)%nat -> P k t1 t2 ->
     P (S k) (body1 (lo + k)%nat t1) (body2 (lo + k)%nat t2)) ->
  P n (forLoop lo n body1 s1) (forLoop lo n body2 s2).
Proof.
  intros H0 Hstep. induction n as [|n IH].
  - exact H0.
  - rewrite !forLoop_S. apply Hstep; [lia|]. apply IH.
    intros k t1 t2 Hk. apply Hstep. lia.
Qed.

Section PressureShift.

Variable stencilSize : localIndex.
Variables seri sesri sei : arraySlice1d localIndex.
Variable stencilWeights : arraySlice1d real64.
Variables pres dPres gravCoef mob dMob_dPres : arrayView1d real64.
Variables dens dDens_dPres : arrayView2d real64.
Variable dt : real64.
Variable flux : arraySlice1d real64.
Variable fluxJacobian : arraySlice2d real64.

(** X12: when the stencil weights sum to zero, adding one constant to
    the pressure of every cell changes neither the flux nor the Jacobian
    the kernel returns: only pressure differences drive the flow. *)
Theorem Compute_sameRegion_pressure_shift (c : real64) :
  sumTo stencilSize stencilWeights = 0 ->
  FluxKernel.Compute_sameRegion stencilSize seri sesri sei stencilWeights
    (fun ei => pres ei + c) dPres gravCoef dens dDens_dPres mob dMob_dPres
    dt flux fluxJacobian
  = FluxKernel.Compute_sameRegion stencilSize seri sesri sei stencilWeights
      pres dPres gravCoef dens dDens_dPres mob dMob_dPres dt flux fluxJacobian.
Proof.
  intros Hsum.
  unfold FluxKernel.Compute_sameRegion. cbv zeta.
  destruct (forLoop 0 FluxKernel.NUM_POINT_IN_FLUX _ _) as [densMean dDensMean_dP].
  match goal with
  | |- (let '(_, _) := forLoop 0 stencilSize ?b1 ?s in _)
       = (let '(_, _) := forLoop 0 stencilSize ?b2 ?s in _) =>
      assert (E : forLoop 0 stencilSize b1 s = forLoop 0 stencilSize b2 s)
  end.
  { match goal with
    | |- forLoop 0 stencilSize ?b1 ?s = forLoop 0 stencilSize ?b2 ?s =>
        pose proof
          (forLoop_rel
             (fun n (t1 t2 : real64 * real64) =>
                fst t1 = fst t2 + c * sumTo n stencilWeights /\ snd t1 = snd t2)
             0 stencilSize b1 b2 s s) as Hrel
    end.
    cbv beta in Hrel.
    destruct Hrel as [Hp Hg].
    - simpl. split; [lra | reflexivity].
    - intros k [p1 g1] [p2 g2] _ [Hp Hg]. cbn [fst snd Nat.add] in *.
      subst g1. split; [|reflexivity]. rewrite Hp. cbn [sumTo]. ring.
    - rewrite Hsum in Hp.
      destruct (forLoop 0 stencilSize _ _) as [p1 g1].
      destruct (forLoop 0 stencilSize _ _) as [p2 g2].
      cbn [fst snd] in *. f_equal; lra. }
  rewrite E. reflexivity.
Qed.

End PressureShift.

Lemma Compute_sameRegion_pressure_shift_witness :
  FluxKernel.Compute_sameRegion 2 Examples.region0 Examples.region0
    Examples.cells Examples.weights (fun ei => Examples.pressures ei + 5)
    (Examples.const1 0) (Examples.const1 0) (Examples.const2 1)
    (Examples.const2 0) (Examples.const1 1) (Examples.const1 0) 1
    (fun _ => 0) (fun _ _ => 0)
  = FluxKernel.Compute_sameRegion 2 Examples.region0 Examples.region0
      Examples.cells Examples.weights Examples.pressures
      (Examples.const1 0) (Examples.const1 0) (Examples.const2 1)
      (Examples.const2 0) (Examples.const1 1) (Examples.const1 0) 1
      (fun _ => 0) (fun _ _ => 0).
Proof.
  apply (Compute_sameRegion_pressure_shift 2 Examples.region0 Examples.region0
           Examples.cells Examples.weights Examples.pressures).
  unfold Examples.weights. simpl. lra.
Defined.

Section ZeroGravityJacobian.

Variables seri sesri sei : arraySlice1d localIndex.
Variable stencilWeights : arraySlice1d real64.
Variables pres dPres gravCoef mob dMob_dPres : arrayView1d real64.
Variables dens dDens_dPres : arrayView2d real64.
Variable dt : real64.
Variable flux : arraySlice1d real64.
Variable fluxJacobian : arraySlice2d real64.

(** X26: on a two-cell connection with zero gravity coefficient at both
    cells and stencil weights [T] and [- T], the first Jacobian row is
    [dt * M_up * T] against the pressure of cell 0 and [- dt * M_up * T]
    against the pressure of cell 1, plus, in the column of the upwind
    cell only, [dt * dM_up/dp * T * (p1 - p2)]; the derivatives of the
    density do not enter. *)
Theorem Compute_sameRegion_zero_gravity_jacobian (T : real64) :
  stencilWeights 0%nat = T ->
  stencilWeights 1%nat = - T ->
  gravCoef (sei 0%nat) = 0 ->
  gravCoef (sei 1%nat) = 0 ->
  let potDif :=
    T * ((pres (sei 0%nat) + dPres (sei 0%nat))
         - (pres (sei 1%nat) + dPres (sei 1%nat))) in
  let J :=
    snd (FluxKernel.Compute_sameRegion 2 seri sesri sei stencilWeights
           pres dPres gravCoef dens dDens_dPres mob dMob_dPres dt flux
           fluxJacobian) in
  if Rge_dec potDif 0
  then J 0%nat 0%nat
       = dt * (mob (sei 0%nat) * T + dMob_dPres (sei 0%nat) * potDif)
       /\ J 0%nat 1%nat = dt * (mob (sei 0%nat) * - T)
  else J 0%nat 0%nat = dt * (mob (sei 1%nat) * T)
       /\ J 0%nat 1%nat
          = dt * (mob (sei 1%nat) * - T + dMob_dPres (sei 1%nat) * potDif).
Proof.
  intros Hw0 Hw1 Hg0 Hg1. cbv zeta.
  unfold FluxKernel.Compute_sameRegion.
  cbv [FluxKernel.NUM_POINT_IN_FLUX forLoop seq fold_left].
  cbv beta iota zeta. cbn [fst snd].
  rewrite Hw0, Hw1, Hg0, Hg1.
  match goal with
  | |- context [FluxKernel.upwindIndex ?e] =>
      replace e
        with (T * ((pres (sei 0%nat) + dPres (sei 0%nat))
                   - (pres (sei 1%nat) + dPres (sei 1%nat)))) by lra
  end.
  set (potDif := T * _).
  match goal with
  | |- context [FluxKernel.populateJacobian ?n ?d ?f ?J] =>
      destruct (populateJacobian_rows n d f J 0%nat) as [H0 _]; [lia|];
      destruct (populateJacobian_rows n d f J 1%nat) as [H1 _]; [lia|]
  end.
  unfold FluxKernel.upwindIndex in *.
  destruct (Rge_dec potDif 0); rewrite H0, H1; upd_simpl;
    assert (E : 0.0 = 0) by lra; rewrite ?E; split; ring.
Qed.

End ZeroGravityJacobian.

Lemma Compute_sameRegion_zero_gravity_jacobian_witness :
  snd (FluxKernel.Compute_sameRegion 2 Examples.region0 Examples.region0
         Examples.cells Examples.weights Examples.pressures
         (Examples.const1 0) (Examples.const1 0) (Examples.const2 1)
         (Examples.const2 0) (Examples.const1 1) (Examples.const1 2) 1
         (fun _ => 0) (fun _ _ => 0)) 0%nat 0%nat
  = 11.
Proof.
  pose proof (Compute_sameRegion_zero_gravity_jacobian Examples.region0
                Examples.region0 Examples.cells Examples.weights
                Examples.pressures (Examples.const1 0) (Examples.const1 0)
                (Examples.const1 1) (Examples.const1 2) (Examples.const2 1)
                (Examples.const2 0) 1 (fun _ => 0) (fun _ _ => 0) 1
                eq_refl eq_refl eq_refl eq_refl) as W.
  cbv zeta in W.
  destruct (Rge_dec _ _) as [_|N] in W.
  - destruct W as [W _]. rewrite W.
    unfold Examples.pressures, Examples.const1, Examples.cells. simpl. lra.
  - exfalso. apply N.
    unfold Examples.pressures, Examples.const1, Examples.cells. simpl. lra.
Defined.

(** ** Junction kernel away from the tip: conservation *)

Lemma forLoopM_S {S : Type} (lo n : nat) (body : nat -> S -> option S) (s : S) :
  forLoopM lo (Datatypes.S n) body s
  = match forLoopM lo n body s with
    | Some st => body (lo + n)%nat st
    | None => None
    end.
Proof.
  unfold forLoopM. rewrite seq_S, fold_left_app. reflexivity.
Qed.

(** Loop invariants for a loop that may fail: when every iteration
    succeeds from a state satisfying the invariant, so does the loop. *)
Lemma forLoopM_ind {S : Type} (P : nat -> S -> Prop) (lo n : nat)
  (body : nat -> S -> option S) (s : S) :
  P 0%nat s ->
  (forall k st, (k < n)%nat -> P k st ->
     exists st', body (lo + k)%nat st = Some st' /\ P (Datatypes.S k) st') ->
  exists st', forLoopM lo n body s = Some st' /\ P n st'.
Proof.
  intros H0 Hstep. induction n as [|n IH].
  - exists s. split; [reflexivity | exact H0].
  - destruct IH as (st & Hst & HP).
    { intros k st Hk. apply Hstep. lia. }
    rewrite forLoopM_S, Hst. apply Hstep; [lia | exact HP].
Qed.

Lemma sumTo_ext (n : nat) (f g : nat -> R) :
  (forall i, (i < n)%nat -> f i = g i) -> sumTo n f = sumTo n g.
Proof.
  induction n as [|n IH]; intros Hfg; [reflexivity|].
  cbn [sumTo]. rewrite IH by (intros i Hi; apply Hfg; lia).
  rewrite Hfg by lia. reflexivity.
Qed.

Lemma sumTo_upd (n : nat) (f : nat -> R) (i : nat) (v : R) :
  (i < n)%nat -> sumTo n (upd f i v) = sumTo n f + (v - f i).
Proof.
  induction n as [|n IH]; intros Hi; [lia|].
  cbn [sumTo]. destruct (Nat.eq_dec i n) as [->|Hne].
  - rewrite upd_same.
    rewrite (sumTo_ext n (upd f n v) f)
      by (intros j Hj; apply upd_other; lia).
    lra.
  - rewrite IH by lia. rewrite upd_other by lia. lra.
Qed.

Lemma sumTo_upd2_col (n : nat) (J : nat -> nat -> R) (i j c : nat) (v : R) :
  (i < n)%nat ->
  sumTo n (fun r => upd2 J i j v r c)
  = sumTo n (fun r => J r c) + (if Nat.eqb c j then v - J i j else 0).
Proof.
  intros Hi. destruct (Nat.eqb_spec c j) as [->|Hne].
  - rewrite (sumTo_ext n (fun r => upd2 J i j v r j)
               (upd (fun r => J r j) i v)).
    + exact (sumTo_upd n (fun r => J r j) i v Hi).
    + intros r _. unfold upd2, upd. rewrite Nat.eqb_refl, andb_true_r.
      reflexivity.
  - rewrite (sumTo_ext n (fun r => upd2 J i j v r c) (fun r => J r c)).
    + lra.
    + intros r _. apply upd2_other. right. exact Hne.
Qed.

Section JunctionConservation.

Variable numFluxElems : localIndex.
Variable stencilElementIndices : arraySlice1d localIndex.
Variable stencilWeights : arraySlice1d real64.
Variables pres dPres gravCoef : arrayView1d real64.
Variables dens dDens_dPres : arrayView2d real64.
Variables mob dMob_dPres : arrayView1d real64.
Variables aperture0 aperture : arrayView1d real64.
Variable meanPermCoeff : real64.
Variable dt : real64.
Variable domain : FluxKernel.DomainPartition.
Variable iconn : localIndex.

Lemma junctionPair_sameTotals (tipElements : list localIndex)
  (sumOfWeights : real64) (aperTerm dAperTerm_dAper : arraySlice1d real64)
  (k0 k1 : localIndex) (out : FluxKernel.LocalBuffers) :
  FluxKernel.viscosityDominatedTip domain = false ->
  (k0 < k1)%nat -> (k1 < numFluxElems)%nat ->
  exists out',
    FluxKernel.junctionPair numFluxElems stencilElementIndices stencilWeights
      pres dPres gravCoef dens dDens_dPres mob dMob_dPres meanPermCoeff dt
      domain iconn tipElements sumOfWeights aperTerm dAperTerm_dAper k0 k1 out
    = Some out'
    /\ FluxKernel.sameTotals numFluxElems out out'.
Proof.
  intros Hv H01 H1n.
  unfold FluxKernel.junctionPair. rewrite Hv. cbv zeta.
  eexists. split; [reflexivity|].
  unfold FluxKernel.sameTotals.
  cbn [FluxKernel.flux FluxKernel.fluxJacobian FluxKernel.dFlux_dAperture].
  split; [|split].
  - rewrite !sumTo_upd by lia. upd_simpl. lra.
  - intros c. rewrite !sumTo_upd2_col by lia.
    repeat first [ rewrite upd2_same | rewrite upd2_other by lia ].
    destruct (Nat.eqb c k0); destruct (Nat.eqb c k1); lra.
  - intros c. rewrite !sumTo_upd2_col by lia.
    repeat first [ rewrite upd2_same | rewrite upd2_other by lia ].
    destruct (Nat.eqb c k0); destruct (Nat.eqb c k1); lra.
Qed.

(** X13: with at most ten flux elements and the override guards of the
    tip treatment not both satisfied, [ComputeJunction] completes, and what
    it adds to the local buffers cancels: the sum of the local fluxes and
    every column sum of [fluxJacobian] and of [dFlux_dAperture] over the
    flux elements are what they were on entry. *)
Theorem ComputeJunction_conserves (out : FluxKernel.LocalBuffers) :
  (numFluxElems <= 10)%nat ->
  FluxKernel.viscosityDominatedTip domain = false ->
  exists out',
    FluxKernel.ComputeJunction numFluxElems stencilElementIndices stencilWeights
      pres dPres gravCoef dens dDens_dPres mob dMob_dPres aperture0 aperture
      meanPermCoeff dt domain iconn out = Some out'
    /\ sumTo numFluxElems (FluxKernel.flux out')
       = sumTo numFluxElems (FluxKernel.flux out)
    /\ (forall c, sumTo numFluxElems (fun r => FluxKernel.fluxJacobian out' r c)
                  = sumTo numFluxElems
                      (fun r => FluxKernel.fluxJacobian out r c))
    /\ (forall c, sumTo numFluxElems
                    (fun r => FluxKernel.dFlux_dAperture out' r c)
                  = sumTo numFluxElems
                      (fun r => FluxKernel.dFlux_dAperture out r c)).
Proof.
  intros Hn Hv. unfold FluxKernel.ComputeJunction.
  destruct (FluxKernel.apertureTerms _ _ _ _ _) as [[sumOfWeights aperTerm] dAper].
  destruct (Nat.ltb_spec 10 numFluxElems) as [Hbig|_]; [lia|].
  apply (forLoopM_ind (fun _ st => FluxKernel.sameTotals numFluxElems out st)).
  - unfold FluxKernel.sameTotals. auto.
  - intros k0 st Hk0 Hst. cbn [Nat.add].
    apply (forLoopM_ind (fun _ st' => FluxKernel.sameTotals numFluxElems out st')); [exact Hst|].
    intros j st' Hj Hst'.
    destruct (junctionPair_sameTotals (FluxKernel.computeTipElements domain)
                sumOfWeights aperTerm dAper k0 (k0 + 1 + j) st' Hv)
      as (st'' & Hsome & Hpair); [lia | lia |].
    exists st''. split; [exact Hsome|].
    unfold FluxKernel.sameTotals in *.
    destruct Hst' as (F1 & J1 & A1). destruct Hpair as (F2 & J2 & A2).
    split; [|split].
    + rewrite F2. exact F1.
    + intros c. rewrite J2. apply J1.
    + intros c. rewrite A2. apply A1.
Qed.

End JunctionConservation.

Lemma ComputeJunction_conserves_witness :
  exists out',
    FluxKernel.ComputeJunction 3 Examples.cells Examples.weights
      Examples.pressures (Examples.const1 0) (Examples.const1 0)
      (Examples.const2 1) (Examples.const2 0) (Examples.const1 1)
      (Examples.const1 0) (Examples.const1 1) (Examples.const1 1) 1 1
      Examples.calmDomain 0 Examples.zeroBuffers = Some out'
    /\ sumTo 3 (FluxKernel.flux out') = sumTo 3 (FluxKernel.flux Examples.zeroBuffers).
Proof.
  destruct (ComputeJunction_conserves 3 Examples.cells Examples.weights
              Examples.pressures (Examples.const1 0) (Examples.const1 0)
              (Examples.const2 1) (Examples.const2 0) (Examples.const1 1)
              (Examples.const1 0) (Examples.const1 1) (Examples.const1 1) 1 1
              Examples.calmDomain 0 Examples.zeroBuffers)
    as (out' & Hsome & Hflux & _).
  - lia.
  - exact viscosityDominatedTip_calmDomain.
  - exists out'. split; [exact Hsome | exact Hflux].
Defined.

Section JunctionFrame.

Variable numFluxElems : localIndex.
Variable stencilElementIndices : arraySlice1d localIndex.
Variable stencilWeights : arraySlice1d real64.
Variables pres dPres gravCoef : arrayView1d real64.
Variables dens dDens_dPres : arrayView2d real64.
Variables mob dMob_dPres : arrayView1d real64.
Variables aperture0 aperture : arrayView1d real64.
Variable meanPermCoeff : real64.
Variable dt : real64.
Variable domain : FluxKernel.DomainPartition.
Variable iconn : localIndex.

Lemma junctionPair_frame (tipElements : list localIndex)
  (sumOfWeights : real64) (aperTerm dAperTerm_dAper : arraySlice1d real64)
  (k0 k1 : localIndex) (out : FluxKernel.LocalBuffers) :
  FluxKernel.viscosityDominatedTip domain = false ->
  (k0 < numFluxElems)%nat -> (k1 < numFluxElems)%nat ->
  exists out',
    FluxKernel.junctionPair numFluxElems stencilElementIndices stencilWeights
      pres dPres gravCoef dens dDens_dPres mob dMob_dPres meanPermCoeff dt
      domain iconn tipElements sumOfWeights aperTerm dAperTerm_dAper k0 k1 out
    = Some out'
    /\ (forall i, (numFluxElems <= i)%nat ->
          FluxKernel.flux out' i = FluxKernel.flux out i)
    /\ (forall r c, (numFluxElems <= r)%nat \/ (numFluxElems <= c)%nat ->
          FluxKernel.fluxJacobian out' r c = FluxKernel.fluxJacobian out r c
          /\ FluxKernel.dFlux_dAperture out' r c
             = FluxKernel.dFlux_dAperture out r c).
Proof.
  intros Hv H0 H1.
  unfold FluxKernel.junctionPair. rewrite Hv. cbv zeta.
  eexists. split; [reflexivity|].
  cbn [FluxKernel.flux FluxKernel.fluxJacobian FluxKernel.dFlux_dAperture].
  split.
  - intros i Hi. rewrite !upd_other by lia. reflexivity.
  - intros r c Hrc. rewrite !upd2_other by lia. split; reflexivity.
Qed.

(** X28: away from the tip, [ComputeJunction] writes only the entries of
    its flux elements: every flux entry, and every entry of the two local
    Jacobians, with an index from [numFluxElems] on keeps its value; and
    a junction of fewer than two flux elements has no pair, so that
    nothing at all is written. *)
Theorem ComputeJunction_writes_only_its_elements (out : FluxKernel.LocalBuffers) :
  (numFluxElems <= 10)%nat ->
  FluxKernel.viscosityDominatedTip domain = false ->
  exists out',
    FluxKernel.ComputeJunction numFluxElems stencilElementIndices stencilWeights
      pres dPres gravCoef dens dDens_dPres mob dMob_dPres aperture0 aperture
      meanPermCoeff dt domain iconn out = Some out'
    /\ (forall i, (numFluxElems <= i)%nat ->
          FluxKernel.flux out' i = FluxKernel.flux out i)
    /\ (forall r c, (numFluxElems <= r)%nat \/ (numFluxElems <= c)%nat ->
          FluxKernel.fluxJacobian out' r c = FluxKernel.fluxJacobian out r c
          /\ FluxKernel.dFlux_dAperture out' r c
             = FluxKernel.dFlux_dAperture out r c)
    /\ ((numFluxElems <= 1)%nat -> out' = out).
Proof.
  intros Hn Hv. unfold FluxKernel.ComputeJunction.
  destruct (FluxKernel.apertureTerms _ _ _ _ _) as [[sumOfWeights aperTerm] dAper].
  destruct (Nat.ltb_spec 10 numFluxElems) as [Hbig|_]; [lia|].
  set (untouched := fun st : FluxKernel.LocalBuffers =>
         (forall i, (numFluxElems <= i)%nat ->
            FluxKernel.flux st i = FluxKernel.flux out i)
         /\ (forall r c, (numFluxElems <= r)%nat \/ (numFluxElems <= c)%nat ->
               FluxKernel.fluxJacobian st r c = FluxKernel.fluxJacobian out r c
               /\ FluxKernel.dFlux_dAperture st r c
                  = FluxKernel.dFlux_dAperture out r c)
         /\ ((numFluxElems <= 1)%nat -> st = out)).
  apply (forLoopM_ind (fun _ st => untouched st)).
  - unfold untouched. auto.
  - intros k0 st Hk0 Hst. cbn [Nat.add].
    apply (forLoopM_ind (fun _ st' => untouched st')); [exact Hst|].
    intros j st' Hj Hst'.
    destruct (junctionPair_frame (FluxKernel.computeTipElements domain)
                sumOfWeights aperTerm dAper k0 (k0 + 1 + j) st' Hv)
      as (st'' & Hsome & Hflux & Hjac); [lia | lia |].
    exists st''. split; [exact Hsome|].
    unfold untouched in *. destruct Hst' as (F1 & J1 & _).
    split; [|split].
    + intros i Hi. rewrite Hflux by exact Hi. apply F1. exact Hi.
    + intros r c Hrc. destruct (Hjac r c Hrc) as [EJ EA].
      destruct (J1 r c Hrc) as [EJ1 EA1]. split; congruence.
    + intros Hone. lia.
Qed.

End JunctionFrame.

Lemma ComputeJunction_writes_only_its_elements_witness :
  exists out',
    FluxKernel.ComputeJunction 3 Examples.cells Examples.weights
      Examples.pressures (Examples.const1 0) (Examples.const1 0)
      (Examples.const2 1) (Examples.const2 0) (Examples.const1 1)
      (Examples.const1 0) (Examples.const1 1) (Examples.const1 1) 1 1
      Examples.calmDomain 0 Examples.zeroBuffers = Some out'
    /\ FluxKernel.flux out' 3%nat = 0.
Proof.
  destruct (ComputeJunction_writes_only_its_elements 3 Examples.cells
              Examples.weights
              Examples.pressures (Examples.const1 0) (Examples.const1 0)
              (Examples.const2 1) (Examples.const2 0) (Examples.const1 1)
              (Examples.const1 0) (Examples.const1 1) (Examples.const1 1) 1 1
              Examples.calmDomain 0 Examples.zeroBuffers)
    as (out' & Hsome & Hflux & _).
  - lia.
  - exact viscosityDominatedTip_calmDomain.
  - exists out'. split; [exact Hsome|]. apply (Hflux 3%nat). lia.
Defined.

(** ** Junction kernel: tip elements, aperture terms and the tip flux *)

Lemma contains_spec (a : list localIndex) (x : localIndex) :
  FluxKernel.contains a x = true <-> In x a.
Proof.
  unfold FluxKernel.contains. rewrite existsb_exists. split.
  - intros (y & Hin & Heq). apply Nat.eqb_eq in Heq. subst. exact Hin.
  - intros Hin. exists x. split; [exact Hin | apply Nat.eqb_refl].
Qed.

Lemma insert_In (x y : localIndex) (l : list localIndex) :
  In y (FluxKernel.insert x l) <-> y = x \/ In y l.
Proof.
  induction l as [|z l IH]; cbn [FluxKernel.insert].
  - simpl. intuition.
  - destruct (Nat.ltb_spec x z) as [Hlt|Hge].
    + simpl. intuition.
    + destruct (Nat.eqb_spec x z) as [->|Hne].
      * simpl. intuition.
      * simpl. rewrite IH. intuition.
Qed.

Lemma insert_sorted (x : localIndex) (l : list localIndex) :
  Sorted lt l -> Sorted lt (FluxKernel.insert x l).
Proof.
  induction l as [|z l IH]; intros Hs; cbn [FluxKernel.insert].
  - repeat constructor.
  - destruct (Nat.ltb_spec x z) as [Hlt|Hge].
    + constructor; [exact Hs | constructor; exact Hlt].
    + destruct (Nat.eqb_spec x z) as [->|Hne]; [exact Hs|].
      inversion Hs as [|? ? Hs' Hhd]; subst.
      constructor; [apply IH; exact Hs'|].
      destruct l as [|w l]; cbn [FluxKernel.insert].
      * constructor. lia.
      * inversion Hhd; subst.
        destruct (Nat.ltb_spec x w); [constructor; lia|].
        destruct (Nat.eqb_spec x w); constructor; lia.
Qed.

Lemma findFaceElement_spec (rows : list (list localIndex)) (i0 : localIndex)
  (trailingFace i : localIndex) :
  FluxKernel.findFaceElement rows i0 trailingFace = Some i
  <-> exists j row,
        i = (i0 + j)%nat
        /\ nth_error rows j = Some row
        /\ In trailingFace row
        /\ forall j' row', (j' < j)%nat -> nth_error rows j' = Some row' ->
                           ~ In trailingFace row'.
Proof.
  revert i0. induction rows as [|row rest IH]; intros i0;
    cbn [FluxKernel.findFaceElement].
  - split; [discriminate|]. intros (j & r & _ & Hnth & _).
    destruct j; discriminate.
  - destruct (FluxKernel.contains row trailingFace) eqn:Hc.
    + apply contains_spec in Hc. split.
      * intros [= <-]. exists 0%nat, row. repeat split; [lia | exact Hc |].
        intros j' row' Hj'. lia.
      * intros (j & r & -> & Hnth & Hin & Hfirst).
        destruct j as [|j]; [f_equal; lia|].
        exfalso. apply (Hfirst 0%nat row); [lia | reflexivity | exact Hc].
    + assert (Hnot : ~ In trailingFace row).
      { intros Hin. apply contains_spec in Hin. congruence. }
      rewrite IH. split.
      * intros (j & r & -> & Hnth & Hin & Hfirst).
        exists (S j), r. repeat split; [lia | exact Hnth | exact Hin |].
        intros [|j'] row' Hj' Hnth'.
        -- injection Hnth' as <-. exact Hnot.
        -- apply (Hfirst j' row'); [lia | exact Hnth'].
      * intros (j & r & -> & Hnth & Hin & Hfirst).
        destruct j as [|j].
        -- injection Hnth as <-. contradiction.
        -- exists j, r. repeat split; [lia | exact Hnth | exact Hin |].
           intros j' row' Hj' Hnth'. apply (Hfirst (S j') row'); [lia|exact Hnth'].
Qed.

(** X14: the tip elements are kept as a strictly increasing list, and a
    face element is one of them exactly when some trailing face is one
    of its faces and of no face element before it. *)
Theorem computeTipElements_spec (domain : FluxKernel.DomainPartition) :
  Sorted lt (FluxKernel.computeTipElements domain)
  /\ forall i,
       FluxKernel.contains (FluxKernel.computeTipElements domain) i = true
       <-> exists trailingFace row,
             In trailingFace (FluxKernel.trailingFaces domain)
             /\ nth_error (FluxKernel.faceMap domain) i = Some row
             /\ In trailingFace row
             /\ forall i' row', (i' < i)%nat ->
                  nth_error (FluxKernel.faceMap domain) i' = Some row' ->
                  ~ In trailingFace row'.
Proof.
  unfold FluxKernel.computeTipElements.
  set (step := fun tipElements trailingFace =>
         match FluxKernel.findFaceElement (FluxKernel.faceMap domain) 0 trailingFace with
         | Some i => FluxKernel.insert i tipElements
         | None => tipElements
         end).
  assert (G : forall faces acc,
             Sorted lt acc ->
             Sorted lt (fold_left step faces acc)
             /\ forall i, In i (fold_left step faces acc)
                  <-> In i acc
                      \/ exists f, In f faces
                           /\ FluxKernel.findFaceElement
                                (FluxKernel.faceMap domain) 0 f = Some i).
  { induction faces as [|f faces IH]; intros acc Hs; cbn [fold_left].
    - split; [exact Hs|]. intros i. split; [auto|].
      intros [H|(f & [] & _)]. exact H.
    - assert (Hs' : Sorted lt (step acc f)).
      { unfold step. destruct (FluxKernel.findFaceElement _ _ _);
          [apply insert_sorted|]; exact Hs. }
      destruct (IH (step acc f) Hs') as [Hsorted Hmem].
      split; [exact Hsorted|]. intros i. rewrite Hmem. unfold step at 1.
      destruct (FluxKernel.findFaceElement (FluxKernel.faceMap domain) 0 f)
        as [i1|] eqn:Hf.
      + rewrite insert_In. split.
        * intros [[->|H]|(f' & Hin & Hf')].
          -- right. exists f. split; [left; reflexivity | exact Hf].
          -- left. exact H.
          -- right. exists f'. split; [right; exact Hin | exact Hf'].
        * intros [H|(f' & [<-|Hin] & Hf')].
          -- left. right. exact H.
          -- left. left. congruence.
          -- right. exists f'. split; assumption.
      + split.
        * intros [H|(f' & Hin & Hf')]; [left; exact H|].
          right. exists f'. split; [right; exact Hin | exact Hf'].
        * intros [H|(f' & [<-|Hin] & Hf')]; [left; exact H | congruence |].
          right. exists f'. split; assumption. }
  destruct (G (FluxKernel.trailingFaces domain) [] (Sorted_nil lt))
    as [Hsorted Hmem].
  split; [exact Hsorted|]. intros i.
  rewrite contains_spec, Hmem. split.
  - intros [[]|(f & Hin & Hf)]. apply findFaceElement_spec in Hf.
    destruct Hf as (j & row & -> & Hnth & Hrow & Hfirst).
    exists f, row. cbn [Nat.add]. auto.
  - intros (f & row & Hin & Hnth & Hrow & Hfirst). right. exists f.
    split; [exact Hin|]. apply findFaceElement_spec.
    exists i, row. auto.
Qed.

Section JunctionTerms.

Variable numFluxElems : localIndex.
Variable stencilElementIndices : arraySlice1d localIndex.
Variable stencilWeights : arraySlice1d real64.
Variables aperture0 aperture : arrayView1d real64.

(** X15: the first loop of [ComputeJunction] leaves in [aperTerm[k]] the
    cube of the current aperture of flux element [k], in
    [dAperTerm_dAper[k]] three times its square, and in [sumOfWeights]
    the sum of the cubes weighted by the stencil weights; the reference
    aperture [aperture0] plays no part. *)
Theorem apertureTerms_closed_form :
  let '(sumOfWeights, aperTerm, dAperTerm_dAper) :=
    FluxKernel.apertureTerms numFluxElems stencilElementIndices stencilWeights
      aperture0 aperture in
  sumOfWeights
  = sumTo numFluxElems
      (fun k => aperture (stencilElementIndices k) ^ 3 * stencilWeights k)
  /\ forall k, (k < numFluxElems)%nat ->
       aperTerm k = aperture (stencilElementIndices k) ^ 3
       /\ dAperTerm_dAper k = 3 * aperture (stencilElementIndices k) ^ 2.
Proof.
  unfold FluxKernel.apertureTerms.
  apply (forLoop_ind
           (fun n (st : real64 * arraySlice1d real64 * arraySlice1d real64) =>
              let '(sumOfWeights, aperTerm, dAperTerm_dAper) := st in
              sumOfWeights
              = sumTo n
                  (fun k => aperture (stencilElementIndices k) ^ 3
                            * stencilWeights k)
              /\ forall k, (k < n)%nat ->
                   aperTerm k = aperture (stencilElementIndices k) ^ 3
                   /\ dAperTerm_dAper k
                      = 3 * aperture (stencilElementIndices k) ^ 2)).
  - split; [reflexivity|]. intros k Hk. lia.
  - intros n [[s a] d] Hn [Hs Ha]. cbn [Nat.add].
    unfold FluxKernelHelper.apertureForPermeablityCalculation_2.
    cbv zeta. cbn [sumTo]. split.
    + rewrite upd_same, Hs. ring.
    + intros k Hk. destruct (Nat.eq_dec k n) as [->|Hne].
      * rewrite !upd_same. assert (E : 3.0 = 3) by lra. rewrite E.
        split; ring.
      * rewrite !upd_other by exact Hne. apply Ha. lia.
Qed.

End JunctionTerms.

Lemma tipPowBases_pos (domain : FluxKernel.DomainPartition) :
  0 < FluxKernel.bulkModulus domain ->
  0 < FluxKernel.shearModulus domain ->
  0 < FluxKernel.viscosity domain ->
  FluxKernel.injectionRate domain <> 0 ->
  0 < FluxKernel.totalTime domain ->
  Forall (fun base => 0 < base) (FluxKernel.tipPowBases domain).
Proof.
  intros HK HG Hmu Hq Ht. unfold FluxKernel.tipPowBases.
  set (K := FluxKernel.bulkModulus domain) in *.
  set (G := FluxKernel.shearModulus domain) in *.
  set (T := FluxKernel.totalTime domain) in *.
  assert (HD : 0 < 3.0 * K + G) by lra.
  set (nu := (1.5 * K - G) / (3.0 * K + G)).
  assert (Hnu : -1 < nu < 1).
  { unfold nu. split.
    - apply Rmult_lt_reg_r with (3.0 * K + G); [exact HD|].
      unfold Rdiv. rewrite Rmult_assoc, Rinv_l by lra. lra.
    - apply Rmult_lt_reg_r with (3.0 * K + G); [exact HD|].
      unfold Rdiv. rewrite Rmult_assoc, Rinv_l by lra. lra. }
  assert (HE : 0 < 9.0 * K * G / (3.0 * K + G)).
  { apply Rdiv_lt_0_compat; [|exact HD].
    apply Rmult_lt_0_compat; [lra | exact HG]. }
  set (E := 9.0 * K * G / (3.0 * K + G)) in *.
  assert (HEp : 0 < E / (1.0 - nu * nu)).
  { apply Rdiv_lt_0_compat; [exact HE | nra]. }
  set (Eprime := E / (1.0 - nu * nu)) in *.
  assert (Hq0 : 0 < 2.0 * Rabs (FluxKernel.injectionRate domain) / 1.0e3).
  { apply Rdiv_lt_0_compat; [|lra].
    apply Rmult_lt_0_compat; [lra | apply Rabs_pos_lt; exact Hq]. }
  set (q0 := 2.0 * Rabs (FluxKernel.injectionRate domain) / 1.0e3) in *.
  assert (Hmup : 0 < 12.0 * FluxKernel.viscosity domain) by lra.
  set (mup := 12.0 * FluxKernel.viscosity domain) in *.
  assert (Hbase : 0 < Eprime * q0 ^ 3 * T ^ 4 / mup).
  { apply Rdiv_lt_0_compat; [|exact Hmup].
    apply Rmult_lt_0_compat;
      [apply Rmult_lt_0_compat; [exact HEp | apply pow_lt; exact Hq0]
      | apply pow_lt; exact Ht]. }
  pose proof (Rpower_pos (Eprime * q0 ^ 3 * T ^ 4 / mup) (1.0 / 6.0)) as HLm.
  set (Lm := Rpower _ _) in *.
  assert (Hv : 0 < 2.0 / 3.0 * Lm * 0.616 / T).
  { apply Rdiv_lt_0_compat; [|exact Ht].
    apply Rmult_lt_0_compat;
      [apply Rmult_lt_0_compat; [lra | exact HLm] | lra]. }
  set (velocity := 2.0 / 3.0 * Lm * 0.616 / T) in *.
  clearbody Eprime mup velocity q0.
  repeat constructor; try lra; try assumption.
  - repeat apply Rmult_lt_0_compat; assumption.
  - repeat apply Rdiv_lt_0_compat; assumption.
Qed.

(** X16: for positive bulk and shear moduli, viscosity and total time
    and an injection rate that is not zero, every power with a
    fractional exponent in the tip asymptote is taken of a positive
    base; then, for a positive time step, upwind mobility, edge length
    and mean opening of the tip element, the flux the override assigns
    to the channel element is positive. *)
Theorem modifiedFluxVal_positive (dt : real64)
  (domain : FluxKernel.DomainPartition) (iconn : localIndex)
  (mobility : real64) (tipElmt : localIndex) :
  0 < FluxKernel.bulkModulus domain ->
  0 < FluxKernel.shearModulus domain ->
  0 < FluxKernel.viscosity domain ->
  FluxKernel.injectionRate domain <> 0 ->
  0 < FluxKernel.totalTime domain ->
  0 < dt -> 0 < mobility ->
  0 < FluxKernel.edgeLength domain iconn ->
  0 < FluxKernel.averageGap domain tipElmt ->
  Forall (fun base => 0 < base) (FluxKernel.tipPowBases domain)
  /\ 0 < FluxKernel.modifiedFluxVal dt domain iconn mobility tipElmt.
Proof.
  intros HK HG Hmu Hq Ht Hdt Hm He Hg.
  split; [apply tipPowBases_pos; assumption|].
  unfold FluxKernel.modifiedFluxVal. cbv zeta.
  pose proof (tipGradP_pos domain (FluxKernel.averageGap domain tipElmt)) as Hp.
  assert (Hp' : 0 < FluxKernel.tipGradP domain
                      (FluxKernel.averageGap domain tipElmt)) by (apply Hp; lra).
  set (g := FluxKernel.tipGradP domain _) in *. clearbody g.
  set (a := FluxKernel.averageGap domain tipElmt) in *.
  set (e := FluxKernel.edgeLength domain iconn) in *.
  assert (Ha3 : 0 < a ^ 3) by (apply pow_lt; exact Hg).
  assert (H1 : 0 < dt * mobility * e) by (repeat apply Rmult_lt_0_compat; assumption).
  unfold Rdiv. repeat apply Rmult_lt_0_compat; try assumption; lra.
Qed.

Lemma modifiedFluxVal_positive_witness :
  0 < FluxKernel.modifiedFluxVal 1 Examples.tipDomain 0 1 1.
Proof.
  refine (proj2 (modifiedFluxVal_positive 1 Examples.tipDomain 0 1 1
                   _ _ _ _ _ _ _ _ _)); simpl; lra.
Defined.

Section TipOverrideRows.

Variable stencilElementIndices : arraySlice1d localIndex.
Variable stencilWeights : arraySlice1d real64.
Variables pres dPres gravCoef : arrayView1d real64.
Variables dens dDens_dPres : arrayView2d real64.
Variables mob dMob_dPres : arrayView1d real64.
Variable meanPermCoeff : real64.
Variable dt : real64.
Variable domain : FluxKernel.DomainPartition.
Variable iconn : localIndex.
Variable tipElements : list localIndex.
Variable sumOfWeights : real64.
Variables aperTerm dAperTerm_dAper : arraySlice1d real64.
Variable out : FluxKernel.LocalBuffers.

(** X27: when the pair of a two-element junction takes the tip
    override, the row of the tip element receives nothing at all: its
    flux entry and its row of [fluxJacobian] stay as they were, and
    [dFlux_dAperture] is left untouched in every entry, so the override
    carries no coupling to the aperture. *)
Theorem tip_override_leaves_tip_row :
  FluxKernel.tipOverrideTaken 2 stencilElementIndices domain tipElements 0 1
  = true ->
  let tipElmtIndex :=
    if FluxKernel.contains tipElements (stencilElementIndices 0%nat)
    then 0%nat else 1%nat in
  exists out',
    FluxKernel.junctionPair 2 stencilElementIndices stencilWeights
      pres dPres gravCoef dens dDens_dPres mob dMob_dPres meanPermCoeff dt
      domain iconn tipElements sumOfWeights aperTerm dAperTerm_dAper 0 1 out
    = Some out'
    /\ FluxKernel.flux out' tipElmtIndex = FluxKernel.flux out tipElmtIndex
    /\ (forall c, FluxKernel.fluxJacobian out' tipElmtIndex c
                  = FluxKernel.fluxJacobian out tipElmtIndex c)
    /\ (forall r c, FluxKernel.dFlux_dAperture out' r c
                    = FluxKernel.dFlux_dAperture out r c).
Proof.
  intros Htaken. cbv zeta.
  unfold FluxKernel.tipOverrideTaken in Htaken.
  apply andb_prop in Htaken. destruct Htaken as [Hv Hcount].
  unfold FluxKernel.junctionPair. rewrite Hv.
  rewrite classifyPair_two in *.
  assert (E : 0.0 = 0) by lra.
  destruct (FluxKernel.contains tipElements (stencilElementIndices 0%nat));
    destruct (FluxKernel.contains tipElements (stencilElementIndices 1%nat));
    try discriminate; cbv beta iota zeta;
    cbn [Z.eqb Pos.eqb FluxKernel.at2 fst snd];
    unfold FluxKernel.set2;
    destruct (FluxKernel.upwindIndex _) as [|[|?]];
    cbn [FluxKernel.at2 fst snd];
    eexists; (split; [reflexivity|]);
    cbn [FluxKernel.flux FluxKernel.fluxJacobian FluxKernel.dFlux_dAperture];
    rewrite ?E;
    (split; [upd_simpl; lra|]);
    (split; intros;
     [ destruct (Nat.eq_dec c 0) as [->|?];
       [|destruct (Nat.eq_dec c 1) as [->|?]]
     | destruct (Nat.eq_dec r 0) as [->|?];
       [|destruct (Nat.eq_dec r 1) as [->|?]];
       (destruct (Nat.eq_dec c 0) as [->|?];
        [|destruct (Nat.eq_dec c 1) as [->|?]]) ]);
    repeat first [ rewrite upd2_same | rewrite upd2_other by lia ]; lra.
Qed.

End TipOverrideRows.

Lemma tipOverrideTaken_tipDomain :
  FluxKernel.tipOverrideTaken 2 Examples.cells Examples.tipDomain [1%nat] 0 1
  = true.
Proof.
  unfold FluxKernel.tipOverrideTaken.
  rewrite viscosityDominatedTip_tipDomain, classifyPair_two. reflexivity.
Qed.

Lemma tip_override_leaves_tip_row_witness :
  exists out',
    FluxKernel.junctionPair 2 Examples.cells Examples.weights
      Examples.pressures (Examples.const1 0) (Examples.const1 0)
      (Examples.const2 1) (Examples.const2 0) (Examples.const1 1)
      (Examples.const1 0) 1 1 Examples.tipDomain 0 [1%nat] 2
      (Examples.const1 1) (Examples.const1 3) 0 1 Examples.zeroBuffers
    = Some out'
    /\ FluxKernel.flux out' 1%nat = 0.
Proof.
  destruct (tip_override_leaves_tip_row Examples.cells Examples.weights
              Examples.pressures (Examples.const1 0) (Examples.const1 0)
              (Examples.const2 1) (Examples.const2 0) (Examples.const1 1)
              (Examples.const1 0) 1 1 Examples.tipDomain 0 [1%nat] 2
              (Examples.const1 1) (Examples.const1 3) Examples.zeroBuffers
              tipOverrideTaken_tipDomain)
    as (out' & Hsome & Hflux & _).
  exists out'. split; [exact Hsome | exact Hflux].
Defined.

(** ** Time integration option *)

(** X17: [SetTimeIntegrationOption] accepts exactly the names of the four
    enumerators, each selecting the enumerator it names; any other string
    ends in the error. *)
Theorem SetTimeIntegrationOption_names (stringVal : string)
  (option : FlowSolverBase.timeIntegrationOption) :
  FlowSolverBase.SetTimeIntegrationOption stringVal = Some option
  <-> stringVal
      = match option with
        | FlowSolverBase.SteadyState => "SteadyState"
        | FlowSolverBase.ImplicitTransient => "ImplicitTransient"
        | FlowSolverBase.ExplicitTransient => "ExplicitTransient"
        | FlowSolverBase.InertialTransient => "InertialTransient"
        end%string.
Proof.
  unfold FlowSolverBase.SetTimeIntegrationOption. split.
  - repeat match goal with
           | |- context [String.eqb ?a ?b] =>
               destruct (String.eqb_spec a b) as [->|?]
           end; intros [= <-]; reflexivity.
  - intros ->. destruct option; reflexivity.
Qed.

(** ** Phase-to-row map: when initialization succeeds *)

Section PhaseRowMapFurther.

Import TwoPhaseBase.

(** The phase-name pairs the solver accepts, wetting phase first. *)
Lemma InitializePreSubGroups_inr (fluid relPerm : ConstitutiveRelation)
  (maps : PhaseMaps) :
  InitializePreSubGroups fluid (Some relPerm) = inr maps ->
  numFluidPhases fluid = 2%nat /\ numFluidPhases relPerm = 2%nat
  /\ phaseName fluid 0%nat = phaseName relPerm 0%nat
  /\ phaseName fluid 1%nat = phaseName relPerm 1%nat
  /\ m_relPermIndex maps = getIndexInParent relPerm
  /\ exists w : localIndex,
       (w = 0 \/ w = 1)%nat
       /\ ((phaseName fluid w = "water" /\ phaseName fluid (1 - w)%nat = "oil")
           \/ (phaseName fluid w = "oil" /\ phaseName fluid (1 - w)%nat = "gas"))%string
       /\ m_phaseToRow maps w = RowOffset.WETTING
       /\ m_phaseToRow maps (1 - w)%nat = RowOffset.NONWETTING.
Proof.
  unfold InitializePreSubGroups, GEOSX_ERROR_IF, NUM_PHASES.
  destruct (Nat.eqb_spec (numFluidPhases fluid) 2) as [Hn|]; [|discriminate].
  cbn [negb].
  destruct (Nat.eqb_spec (numFluidPhases fluid) (numFluidPhases relPerm))
    as [Hn'|]; [|discriminate].
  cbn [negb seq checkPhaseNames].
  destruct (String.eqb_spec (phaseName fluid 0%nat) (phaseName relPerm 0%nat))
    as [E0|]; [|discriminate].
  destruct (String.eqb_spec (phaseName fluid 1%nat) (phaseName relPerm 1%nat))
    as [E1|]; [|discriminate].
  cbn [negb].
  destruct (String.eqb_spec (phaseName fluid 0%nat) "oil") as [O0|];
    destruct (String.eqb_spec (phaseName fluid 1%nat) "gas") as [G1|];
    destruct (String.eqb_spec (phaseName fluid 1%nat) "oil") as [O1|];
    destruct (String.eqb_spec (phaseName fluid 0%nat) "water") as [W0|];
    destruct (String.eqb_spec (phaseName fluid 0%nat) "gas") as [G0|];
    destruct (String.eqb_spec (phaseName fluid 1%nat) "water") as [W1|];
    cbn [andb orb Z.eqb]; try discriminate; try congruence;
    intros [= <-]; cbn [m_relPermIndex m_phaseToRow];
    (repeat split; try congruence);
    first [ exists 0%nat; cbn [Nat.sub]; repeat split; auto; fail
          | exists 1%nat; cbn [Nat.sub]; repeat split; auto; fail ].
Qed.

(** X18: initialization succeeds exactly when a relative-permeability
    model is present, both models have two phases with the same names in
    the same order, and the two names are water and oil, or oil and gas,
    in either order. *)
Theorem InitializePreSubGroups_succeeds_iff (fluid : ConstitutiveRelation)
  (relPerm : option ConstitutiveRelation) :
  (exists maps, InitializePreSubGroups fluid relPerm = inr maps)
  <-> exists rp,
        relPerm = Some rp
        /\ numFluidPhases fluid = 2%nat /\ numFluidPhases rp = 2%nat
        /\ phaseName fluid 0%nat = phaseName rp 0%nat
        /\ phaseName fluid 1%nat = phaseName rp 1%nat
        /\ ((phaseName fluid 0%nat = "water" /\ phaseName fluid 1%nat = "oil")
            \/ (phaseName fluid 0%nat = "oil" /\ phaseName fluid 1%nat = "water")
            \/ (phaseName fluid 0%nat = "oil" /\ phaseName fluid 1%nat = "gas")
            \/ (phaseName fluid 0%nat = "gas" /\ phaseName fluid 1%nat = "oil"))%string.
Proof.
  split.
  - intros (maps & Hinit). destruct relPerm as [rp|]; [|discriminate].
    exists rp. split; [reflexivity|].
    destruct (InitializePreSubGroups_inr fluid rp maps Hinit)
      as (Hn & Hn' & E0 & E1 & _ & w & Hw & Hnames & _).
    repeat (split; [assumption|]).
    destruct Hw as [-> | ->]; cbn [Nat.sub] in Hnames; tauto.
  - intros (rp & -> & Hn & Hn' & E0 & E1 & Hnames).
    unfold InitializePreSubGroups, GEOSX_ERROR_IF, NUM_PHASES.
    rewrite Hn, Hn'. cbn [Nat.eqb negb seq checkPhaseNames].
    rewrite <- E0, <- E1, !String.eqb_refl. cbn [negb].
    destruct Hnames as [[-> ->]|[[-> ->]|[[-> ->]|[-> ->]]]];
      cbn; eexists; reflexivity.
Qed.

(** X19: after a successful initialization the wetting phase (water
    beside oil, oil beside gas) has row offset 0 and the other phase row
    offset 1, whichever comes first in the fluid model, and the index of
    the relative-permeability model is recorded; so the two phase
    equations of a cell are assembled into the two distinct rows
    [dofNumber] and [dofNumber + 1]. *)
Theorem InitializePreSubGroups_rows (fluid relPerm : ConstitutiveRelation)
  (maps : PhaseMaps) (dofNumber : globalIndex) :
  InitializePreSubGroups fluid (Some relPerm) = inr maps ->
  m_relPermIndex maps = getIndexInParent relPerm
  /\ exists w : localIndex,
       (w = 0 \/ w = 1)%nat
       /\ ((phaseName fluid w = "water" /\ phaseName fluid (1 - w)%nat = "oil")
           \/ (phaseName fluid w = "oil" /\ phaseName fluid (1 - w)%nat = "gas"))%string
       /\ m_phaseToRow maps w = RowOffset.WETTING
       /\ m_phaseToRow maps (1 - w)%nat = RowOffset.NONWETTING
       /\ eqnRowIndices (m_phaseToRow maps) dofNumber w = dofNumber
       /\ eqnRowIndices (m_phaseToRow maps) dofNumber (1 - w)%nat
          = (dofNumber + 1)%Z.
Proof.
  intros Hinit.
  destruct (InitializePreSubGroups_inr fluid relPerm maps Hinit)
    as (_ & _ & _ & _ & Hidx & w & Hw & Hnames & Hwet & Hnon).
  split; [exact Hidx|]. exists w. repeat (split; [assumption|]).
  unfold eqnRowIndices, NUM_PHASES, forLoop. cbn [seq fold_left].
  unfold RowOffset.WETTING, RowOffset.NONWETTING in *.
  destruct Hw as [-> | ->]; cbn [Nat.sub] in *; unfold upd; cbn [Nat.eqb];
    rewrite Hwet, Hnon; split; cbn [Z.of_nat]; lia.
Qed.

End PhaseRowMapFurther.

Lemma InitializePreSubGroups_rows_witness :
  exists w : localIndex,
    (w = 0 \/ w = 1)%nat
    /\ TwoPhaseBase.eqnRowIndices
         (upd (upd (fun _ => 0%nat) 1 TwoPhaseBase.RowOffset.WETTING)
            0 TwoPhaseBase.RowOffset.NONWETTING) 10 w = 10%Z.
Proof.
  destruct (InitializePreSubGroups_rows
              (Examples.twoPhaseModel "oil" "water")
              (Examples.twoPhaseModel "oil" "water")
              {| TwoPhaseBase.m_relPermIndex := 0;
                 TwoPhaseBase.m_phaseToRow :=
                   upd (upd (fun _ => 0%nat) 1 TwoPhaseBase.RowOffset.WETTING)
                     0 TwoPhaseBase.RowOffset.NONWETTING |}
              10%Z eq_refl)
    as (_ & w & Hw & _ & _ & _ & Hrow & _).
  exists w. split; [exact Hw|]. exact Hrow.
Defined.

(** ** Bounds check: scaling factor and ranks *)

Section BoundsCheckFurther.

Import TwoPhaseBase.

Variables DPRES DSAT : globalIndex.

Lemma CheckSystemSolution_true_iff (rank : Rank) (others : list Rank)
  (scalingFactor : real64) :
  TwoPhaseBase.CheckSystemSolution DPRES DSAT rank others scalingFactor = true
  <-> forall r subRegion ei,
        In r (rank :: others) -> In subRegion (mesh r) ->
        (ei < size subRegion)%nat ->
        ~ TwoPhaseBase.outOfBounds DPRES DSAT subRegion (solution r)
            scalingFactor ei.
Proof.
  rewrite <- not_false_iff_true, CheckSystemSolution_false_iff. split.
  - intros Hnone r sr ei Hr Hsr Hei Hbad. apply Hnone. exists r.
    split; [exact Hr|]. apply localCheckOf_spec. exists sr, ei. auto.
  - intros Hall (r & Hr & H0). apply localCheckOf_spec in H0.
    destruct H0 as (sr & ei & Hsr & Hei & Hbad).
    exact (Hall r sr ei Hr Hsr Hei Hbad).
Qed.

Lemma outOfBounds_between (subRegion : ElementSubRegion)
  (solution : ParallelVector) (s1 s2 s : real64) (ei : localIndex) :
  s1 <= s <= s2 ->
  TwoPhaseBase.outOfBounds DPRES DSAT subRegion solution s ei ->
  TwoPhaseBase.outOfBounds DPRES DSAT subRegion solution s1 ei
  \/ TwoPhaseBase.outOfBounds DPRES DSAT subRegion solution s2 ei.
Proof.
  unfold TwoPhaseBase.outOfBounds, TwoPhaseBase.newPres,
    TwoPhaseBase.newPhaseSat. cbv zeta.
  set (p := pres subRegion ei + dPres subRegion ei).
  set (x := extractLocalVector solution
              (getLocalRowID solution (elemDofNumber subRegion ei + DPRES)%Z)).
  set (t := phaseSat subRegion ei 0%nat + dPhaseSat subRegion ei 0%nat).
  set (y := extractLocalVector solution
              (getLocalRowID solution (elemDofNumber subRegion ei + DSAT)%Z)).
  intros Hs [Hghost Hbad].
  destruct Hbad as [Hb|[Hb|Hb]].
  - destruct (Rle_dec 0 x).
    + left. split; [exact Hghost|]. left. nra.
    + right. split; [exact Hghost|]. left. nra.
  - destruct (Rle_dec 0 y).
    + left. split; [exact Hghost|]. right. left. nra.
    + right. split; [exact Hghost|]. right. left. nra.
  - destruct (Rle_dec 0 y).
    + right. split; [exact Hghost|]. right. right. nra.
    + left. split; [exact Hghost|]. right. right. nra.
Qed.

(** X20: the scaling factors the check accepts form an interval: an
    update accepted at the factors [s1] and [s2] is accepted at every
    factor between them. *)
Theorem CheckSystemSolution_accepts_between (rank : Rank) (others : list Rank)
  (s1 s2 s : real64) :
  s1 <= s <= s2 ->
  TwoPhaseBase.CheckSystemSolution DPRES DSAT rank others s1 = true ->
  TwoPhaseBase.CheckSystemSolution DPRES DSAT rank others s2 = true ->
  TwoPhaseBase.CheckSystemSolution DPRES DSAT rank others s = true.
Proof.
  intros Hs H1 H2. rewrite CheckSystemSolution_true_iff in *.
  intros r sr ei Hr Hsr Hei Hbad.
  destruct (outOfBounds_between sr (solution r) s1 s2 s ei Hs Hbad) as [Hb|Hb].
  - exact (H1 r sr ei Hr Hsr Hei Hb).
  - exact (H2 r sr ei Hr Hsr Hei Hb).
Qed.

(** X21: every rank of the communicator obtains the same answer: the
    result depends on the set of participating ranks only, not on which
    of them evaluates it nor on their order. *)
Theorem CheckSystemSolution_same_on_every_rank (rank rank' : Rank)
  (others others' : list Rank) (scalingFactor : real64) :
  (forall r, In r (rank :: others) <-> In r (rank' :: others')) ->
  TwoPhaseBase.CheckSystemSolution DPRES DSAT rank others scalingFactor
  = TwoPhaseBase.CheckSystemSolution DPRES DSAT rank' others' scalingFactor.
Proof.
  intros Hsame.
  destruct (TwoPhaseBase.CheckSystemSolution DPRES DSAT rank' others'
              scalingFactor) eqn:E'.
  - apply not_false_iff_true. intros E.
    apply CheckSystemSolution_false_iff in E. destruct E as (r & Hr & H0).
    assert (F : TwoPhaseBase.CheckSystemSolution DPRES DSAT rank' others'
                  scalingFactor = false).
    { apply CheckSystemSolution_false_iff. exists r. split; [|exact H0].
      apply Hsame. exact Hr. }
    congruence.
  - apply CheckSystemSolution_false_iff in E'. destruct E' as (r & Hr & H0).
    apply CheckSystemSolution_false_iff. exists r. split; [|exact H0].
    apply Hsame. exact Hr.
Qed.

(** X22: a rank all of whose cells are ghosts never makes the check
    fail: adding it to the communicator leaves the answer unchanged. *)
Theorem CheckSystemSolution_ghost_rank (rank ghost : Rank)
  (others : list Rank) (scalingFactor : real64) :
  (forall subRegion ei, In subRegion (mesh ghost) ->
     (ei < size subRegion)%nat -> (0 <= elemGhostRank subRegion ei)%Z) ->
  TwoPhaseBase.CheckSystemSolution DPRES DSAT rank (ghost :: others)
    scalingFactor
  = TwoPhaseBase.CheckSystemSolution DPRES DSAT rank others scalingFactor.
Proof.
  intros Hghost.
  assert (Hg : TwoPhaseBase.localCheckOf DPRES DSAT ghost scalingFactor <> 0%Z).
  { intros H0. apply localCheckOf_spec in H0.
    destruct H0 as (sr & ei & Hsr & Hei & Hneg & _).
    specialize (Hghost sr ei Hsr Hei). lia. }
  destruct (TwoPhaseBase.CheckSystemSolution DPRES DSAT rank others
              scalingFactor) eqn:E.
  - apply not_false_iff_true. intros F.
    apply CheckSystemSolution_false_iff in F. destruct F as (r & Hr & H0).
    assert (F' : TwoPhaseBase.CheckSystemSolution DPRES DSAT rank others
                   scalingFactor = false).
    { apply CheckSystemSolution_false_iff. exists r. split; [|exact H0].
      destruct Hr as [<-|[<-|Hr]]; [left; reflexivity | contradiction |
                                    right; exact Hr]. }
    congruence.
  - apply CheckSystemSolution_false_iff in E. destruct E as (r & Hr & H0).
    apply CheckSystemSolution_false_iff. exists r. split; [|exact H0].
    destruct Hr as [<-|Hr]; [left; reflexivity | right; right; exact Hr].
Qed.

End BoundsCheckFurther.

Lemma pressureStepRank_accepted (s : real64) :
  0 <= s ->
  TwoPhaseBase.CheckSystemSolution 0 1 Examples.pressureStepRank [] s = true.
Proof.
  intros Hs. apply CheckSystemSolution_true_iff.
  intros r sr ei [<-|[]] [<-|[]] Hei [Hghost Hbad].
  unfold TwoPhaseBase.newPres, TwoPhaseBase.newPhaseSat in Hbad.
  destruct ei as [|[|[|ei]]]; simpl in *; try lia;
    destruct Hbad as [Hb|[Hb|Hb]]; lra.
Qed.

Lemma CheckSystemSolution_accepts_between_witness :
  TwoPhaseBase.CheckSystemSolution 0 1 Examples.pressureStepRank [] 1 = true.
Proof.
  apply (CheckSystemSolution_accepts_between 0 1 Examples.pressureStepRank []
           0 2 1).
  - lra.
  - apply pressureStepRank_accepted. lra.
  - apply pressureStepRank_accepted. lra.
Defined.

Lemma CheckSystemSolution_same_on_every_rank_witness :
  TwoPhaseBase.CheckSystemSolution 0 1 Examples.boundsRank
    [Examples.pressureStepRank] 1
  = TwoPhaseBase.CheckSystemSolution 0 1 Examples.pressureStepRank
      [Examples.boundsRank] 1.
Proof.
  apply (CheckSystemSolution_same_on_every_rank 0 1 Examples.boundsRank
           Examples.pressureStepRank [Examples.pressureStepRank]
           [Examples.boundsRank] 1).
  intros r. simpl. tauto.
Defined.

Lemma CheckSystemSolution_ghost_rank_witness :
  TwoPhaseBase.CheckSystemSolution 0 1 Examples.boundsRank
    [Examples.ghostRank] 1
  = TwoPhaseBase.CheckSystemSolution 0 1 Examples.boundsRank [] 1.
Proof.
  apply (CheckSystemSolution_ghost_rank 0 1 Examples.boundsRank
           Examples.ghostRank [] 1).
  intros sr ei [<-|[]] _. simpl. lia.
Defined.

(** ** Step boundaries: accepting a step and starting the next *)

Section StepBoundaryProperties.

Import TwoPhaseBase.StateUpdate.

Variable evaluateFluid : real64 -> real64 -> list real64 -> FluidPoint.
Variable evaluateSolid : real64 -> SolidPoint.
Variable evaluateRelPerm : list real64 -> RelPermPoint.

Lemma ImplicitStepComplete_loop (n : localIndex) (dPres : arrayView1d real64)
  (dPhaseSat : arrayView2d real64) (pres0 : arrayView1d real64)
  (phaseSat0 : arrayView2d real64) :
  let out :=
    forLoop 0 n
      (fun ei '(pres, phaseSat) =>
         let pres := upd pres ei (pres ei + dPres ei) in
         let phaseSat :=
           upd2 phaseSat ei 0 (phaseSat ei 0%nat + dPhaseSat ei 0%nat) in
         let phaseSat :=
           upd2 phaseSat ei 1 (phaseSat ei 1%nat + dPhaseSat ei 1%nat) in
         (pres, phaseSat))
      (pres0, phaseSat0) in
  (forall a, fst out a = if (a <? n)%nat then pres0 a + dPres a else pres0 a)
  /\ (forall a ip,
        snd out a ip
        = if (a <? n)%nat && (ip <? 2)%nat
          then phaseSat0 a ip + dPhaseSat a ip else phaseSat0 a ip).
Proof.
  cbv zeta.
  apply (forLoop_ind
           (fun n (st : arrayView1d real64 * arrayView2d real64) =>
              (forall a, fst st a
                         = if (a <? n)%nat then pres0 a + dPres a else pres0 a)
              /\ (forall a ip,
                    snd st a ip
                    = if (a <? n)%nat && (ip <? 2)%nat
                      then phaseSat0 a ip + dPhaseSat a ip
                      else phaseSat0 a ip))).
  - split; intros; reflexivity.
  - intros k [p s] _ [Hp Hs]. cbn [fst snd Nat.add] in *. split.
    + intros a. unfold upd. destruct (Nat.eqb_spec a k) as [->|Hne].
      * rewrite Hp. destruct (Nat.ltb_spec k k); [lia|].
        destruct (Nat.ltb_spec k (S k)); [reflexivity|lia].
      * rewrite Hp. destruct (Nat.ltb_spec a k); destruct (Nat.ltb_spec a (S k));
          try reflexivity; lia.
    + intros a ip.
      destruct (Nat.eq_dec a k) as [->|Hne].
      * destruct (Nat.ltb_spec k (S k)); [|lia]. cbn [andb].
        destruct (Nat.eq_dec ip 1) as [->|H1];
          [|destruct (Nat.eq_dec ip 0) as [->|H0]];
          repeat first [ rewrite upd2_same | rewrite upd2_other by lia ];
          rewrite ?Hs; destruct (Nat.ltb_spec k k); try lia; cbn [andb];
          try reflexivity.
        destruct (Nat.ltb_spec ip 2); [lia|]. reflexivity.
      * rewrite !upd2_other by lia. rewrite Hs.
        destruct (Nat.ltb_spec a k); destruct (Nat.ltb_spec a (S k));
          try reflexivity; lia.
Qed.

Lemma ResetStateToBeginningOfStep_loop (n : localIndex)
  (dPres0 : arrayView1d real64) (dPhaseSat0 : arrayView2d real64) :
  let out :=
    forLoop 0 n
      (fun ei '(dPres, dPhaseSat) =>
         let dPres := upd dPres ei 0.0 in
         let dPhaseSat := upd2 dPhaseSat ei 0 0.0 in
         let dPhaseSat := upd2 dPhaseSat ei 1 0.0 in
         (dPres, dPhaseSat))
      (dPres0, dPhaseSat0) in
  (forall a, fst out a = if (a <? n)%nat then 0 else dPres0 a)
  /\ (forall a ip,
        snd out a ip
        = if (a <? n)%nat && (ip <? 2)%nat then 0 else dPhaseSat0 a ip).
Proof.
  cbv zeta.
  apply (forLoop_ind
           (fun n (st : arrayView1d real64 * arrayView2d real64) =>
              (forall a, fst st a = if (a <? n)%nat then 0 else dPres0 a)
              /\ (forall a ip,
                    snd st a ip
                    = if (a <? n)%nat && (ip <? 2)%nat then 0
                      else dPhaseSat0 a ip))).
  - split; intros; reflexivity.
  - intros k [p s] _ [Hp Hs]. cbn [fst snd Nat.add] in *.
    assert (E : 0.0 = 0) by lra. rewrite E. split.
    + intros a. unfold upd. destruct (Nat.eqb_spec a k) as [->|Hne].
      * destruct (Nat.ltb_spec k (S k)); [reflexivity|lia].
      * rewrite Hp. destruct (Nat.ltb_spec a k); destruct (Nat.ltb_spec a (S k));
          try reflexivity; lia.
    + intros a ip. unfold upd2.
      destruct (Nat.eqb_spec a k) as [->|Hne]; cbn [andb].
      * destruct (Nat.ltb_spec k (S k)); [|lia]. cbn [andb].
        destruct (Nat.eqb_spec ip 1) as [->|H1]; [reflexivity|].
        destruct (Nat.eqb_spec ip 0) as [->|H0]; [reflexivity|].
        rewrite Hs. destruct (Nat.ltb_spec k k); [lia|]. cbn [andb].
        destruct (Nat.ltb_spec ip 2); [lia|]. reflexivity.
      * rewrite Hs. destruct (Nat.ltb_spec a k); destruct (Nat.ltb_spec a (S k));
          try reflexivity; lia.
Qed.

(** X23: [ImplicitStepComplete] adds the accumulated increments to the
    pressure and to both saturations of every element of the sub-region
    and of no other; it leaves the increments themselves in place, so
    that a second call would add them once more. *)
Theorem ImplicitStepComplete_fields (g : DataGroup) :
  size (ImplicitStepComplete g) = size g
  /\ (forall a, deltaPressure (ImplicitStepComplete g) a = deltaPressure g a)
  /\ (forall a ip, deltaPhaseSat (ImplicitStepComplete g) a ip
                   = deltaPhaseSat g a ip)
  /\ (forall a,
        pressure (ImplicitStepComplete g) a
        = if (a <? size g)%nat then pressure g a + deltaPressure g a
          else pressure g a)
  /\ (forall a ip,
        phaseSat (ImplicitStepComplete g) a ip
        = if (a <? size g)%nat && (ip <? 2)%nat
          then phaseSat g a ip + deltaPhaseSat g a ip else phaseSat g a ip)
  /\ (forall a,
        pressure (ImplicitStepComplete (ImplicitStepComplete g)) a
        = if (a <? size g)%nat then pressure g a + 2 * deltaPressure g a
          else pressure g a).
Proof.
  assert (HP : forall g a,
             pressure (ImplicitStepComplete g) a
             = if (a <? size g)%nat then pressure g a + deltaPressure g a
               else pressure g a).
  { intros g0 a. unfold ImplicitStepComplete, set_primary. cbv zeta.
    cbn [pressure].
    exact (proj1 (ImplicitStepComplete_loop (size g0) (deltaPressure g0)
                    (deltaPhaseSat g0) (pressure g0) (phaseSat g0)) a). }
  repeat split; try reflexivity.
  - apply HP.
  - intros a ip. unfold ImplicitStepComplete, set_primary. cbv zeta.
    cbn [phaseSat].
    exact (proj2 (ImplicitStepComplete_loop (size g) (deltaPressure g)
                    (deltaPhaseSat g) (pressure g) (phaseSat g)) a ip).
  - intros a. rewrite HP. change (size (ImplicitStepComplete g)) with (size g).
    change (deltaPressure (ImplicitStepComplete g) a) with (deltaPressure g a).
    rewrite HP. destruct (a <? size g)%nat; [ring | reflexivity].
Qed.

Lemma ResetStateToBeginningOfStep_primary (g : DataGroup) :
  size (ResetStateToBeginningOfStep evaluateFluid evaluateSolid
          evaluateRelPerm g) = size g
  /\ (forall a, pressure (ResetStateToBeginningOfStep evaluateFluid
                            evaluateSolid evaluateRelPerm g) a = pressure g a)
  /\ (forall a ip, phaseSat (ResetStateToBeginningOfStep evaluateFluid
                               evaluateSolid evaluateRelPerm g) a ip
                   = phaseSat g a ip)
  /\ (forall a, deltaPressure (ResetStateToBeginningOfStep evaluateFluid
                                 evaluateSolid evaluateRelPerm g) a
                = if (a <? size g)%nat then 0 else deltaPressure g a)
  /\ (forall a ip, deltaPhaseSat (ResetStateToBeginningOfStep evaluateFluid
                                    evaluateSolid evaluateRelPerm g) a ip
                   = if (a <? size g)%nat && (ip <? 2)%nat then 0
                     else deltaPhaseSat g a ip).
Proof.
  repeat split; try reflexivity.
  - intros a.
    exact (proj1 (ResetStateToBeginningOfStep_loop (size g) (deltaPressure g)
                    (deltaPhaseSat g)) a).
  - intros a ip.
    exact (proj2 (ResetStateToBeginningOfStep_loop (size g) (deltaPressure g)
                    (deltaPhaseSat g)) a ip).
Qed.

Lemma ResetStateToBeginningOfStep_derived (g : DataGroup) (a : localIndex) :
  (a < size g)%nat ->
  (forall ip, (ip < 2)%nat ->
     newPhaseSat (ResetStateToBeginningOfStep evaluateFluid evaluateSolid
                    evaluateRelPerm g) a ip = phaseSat g a ip)
  /\ fluid (ResetStateToBeginningOfStep evaluateFluid evaluateSolid
              evaluateRelPerm g) a 0%nat
     = evaluateFluid (pressure g a) 293.15 [0; 0]
  /\ solid (ResetStateToBeginningOfStep evaluateFluid evaluateSolid
              evaluateRelPerm g) a 0%nat
     = evaluateSolid (pressure g a)
  /\ relPerm (ResetStateToBeginningOfStep evaluateFluid evaluateSolid
                evaluateRelPerm g) a 0%nat
     = evaluateRelPerm [phaseSat g a 0%nat; phaseSat g a 1%nat].
Proof.
  intros Ha.
  destruct (ResetStateToBeginningOfStep_primary g)
    as (_ & _ & _ & Hdp & Hds).
  assert (Hlt : (a <? size g)%nat = true) by (apply Nat.ltb_lt; exact Ha).
  unfold ResetStateToBeginningOfStep in *. cbv zeta in *.
  set (g0 := set_deltas g _) in *.
  destruct (UpdateState_fields evaluateFluid evaluateSolid evaluateRelPerm g0)
    as (Hf & Hso & Hn & Hr & _).
  assert (Hsz : size g0 = size g) by reflexivity.
  assert (Hp0 : forall b, pressure g0 b = pressure g b) by reflexivity.
  assert (Hs0 : forall b ip, phaseSat g0 b ip = phaseSat g b ip) by reflexivity.
  assert (Hd0 : deltaPressure g0 a = 0).
  { specialize (Hdp a). rewrite Hlt in Hdp. exact Hdp. }
  assert (Hds0 : forall ip, (ip < 2)%nat -> deltaPhaseSat g0 a ip = 0).
  { intros ip Hip. specialize (Hds a ip). rewrite Hlt in Hds.
    destruct (Nat.ltb_spec ip 2); [|lia]. exact Hds. }
  split; [|split; [|split]].
  - intros ip Hip. rewrite Hn, Hsz, Hlt. unfold TwoPhaseBase.NUM_PHASES.
    destruct (Nat.ltb_spec ip 2); [|lia]. cbn [andb written].
    rewrite Hs0, (Hds0 ip Hip). ring.
  - rewrite Hf, Hsz, Hlt. cbn [Nat.eqb andb written].
    unfold fluidAt. rewrite Hp0, Hd0, Rplus_0_r. reflexivity.
  - rewrite Hso, Hsz, Hlt. cbn [Nat.eqb andb written].
    unfold solidAt. rewrite Hp0, Hd0, Rplus_0_r. reflexivity.
  - rewrite Hr, Hsz, Hlt. cbn [Nat.eqb andb written].
    unfold relPermAt, trialSaturations.
    rewrite !Hs0, !Hds0, !Rplus_0_r by lia. reflexivity.
Qed.

(** X24: [ResetStateToBeginningOfStep] discards the increments: for an
    element of the sub-region both increments become zero, pressure and
    saturations stay, and the constitutive models are left evaluated at
    the pressure and saturations of the beginning of the step, whatever the
    discarded increments were. *)
Theorem ResetStateToBeginningOfStep_fields (g : DataGroup) (a : localIndex) :
  (a < size g)%nat ->
  let g' := ResetStateToBeginningOfStep evaluateFluid evaluateSolid
              evaluateRelPerm g in
  pressure g' a = pressure g a
  /\ deltaPressure g' a = 0
  /\ (forall ip, (ip < 2)%nat ->
        phaseSat g' a ip = phaseSat g a ip
        /\ deltaPhaseSat g' a ip = 0
        /\ newPhaseSat g' a ip = phaseSat g a ip)
  /\ fluid g' a 0%nat = evaluateFluid (pressure g a) 293.15 [0; 0]
  /\ solid g' a 0%nat = evaluateSolid (pressure g a)
  /\ relPerm g' a 0%nat
     = evaluateRelPerm [phaseSat g a 0%nat; phaseSat g a 1%nat].
Proof.
  intros Ha. cbv zeta.
  destruct (ResetStateToBeginningOfStep_primary g)
    as (_ & Hp & Hs & Hdp & Hds).
  destruct (ResetStateToBeginningOfStep_derived g a Ha)
    as (Hn & Hf & Hso & Hr).
  assert (Hlt : (a <? size g)%nat = true) by (apply Nat.ltb_lt; exact Ha).
  split; [apply Hp|]. split; [rewrite Hdp, Hlt; reflexivity|].
  split; [|auto].
  intros ip Hip. split; [apply Hs|]. split; [|apply Hn; exact Hip].
  rewrite Hds, Hlt. destruct (Nat.ltb_spec ip 2); [reflexivity|lia].
Qed.

(** X25: accepting a step and then starting the next one loses nothing:
    for an element of the sub-region the new beginning-of-step pressure and
    saturations are the trial values of the accepted step, and the
    constitutive models are evaluated exactly where the last update of
    the accepted step evaluated them. *)
Theorem step_accepted_then_reset (g : DataGroup) (a : localIndex) :
  (a < size g)%nat ->
  let g' := ResetStateToBeginningOfStep evaluateFluid evaluateSolid
              evaluateRelPerm (ImplicitStepComplete g) in
  pressure g' a = pressure g a + deltaPressure g a
  /\ (forall ip, (ip < 2)%nat ->
        phaseSat g' a ip = phaseSat g a ip + deltaPhaseSat g a ip)
  /\ fluid g' a 0%nat = fluidAt evaluateFluid g a
  /\ solid g' a 0%nat = solidAt evaluateSolid g a
  /\ relPerm g' a 0%nat = relPermAt evaluateRelPerm g a.
Proof.
  intros Ha. cbv zeta.
  assert (Hlt : (a <? size g)%nat = true) by (apply Nat.ltb_lt; exact Ha).
  destruct (ImplicitStepComplete_loop (size g) (deltaPressure g)
              (deltaPhaseSat g) (pressure g) (phaseSat g)) as [Hp Hs].
  assert (Hp1 : pressure (ImplicitStepComplete g) a
                = pressure g a + deltaPressure g a).
  { unfold ImplicitStepComplete, set_primary. cbv zeta. cbn [pressure].
    rewrite Hp, Hlt. reflexivity. }
  assert (Hs1 : forall ip, (ip < 2)%nat ->
            phaseSat (ImplicitStepComplete g) a ip
            = phaseSat g a ip + deltaPhaseSat g a ip).
  { intros ip Hip. unfold ImplicitStepComplete, set_primary. cbv zeta.
    cbn [phaseSat]. rewrite Hs, Hlt.
    destruct (Nat.ltb_spec ip 2); [reflexivity|lia]. }
  assert (Ha' : (a < size (ImplicitStepComplete g))%nat) by exact Ha.
  destruct (ResetStateToBeginningOfStep_primary (ImplicitStepComplete g))
    as (_ & Hp' & Hs' & _).
  destruct (ResetStateToBeginningOfStep_derived (ImplicitStepComplete g) a Ha')
    as (_ & Hf & Hso & Hr).
  split; [rewrite Hp'; exact Hp1|]. split.
  - intros ip Hip. rewrite Hs'. apply Hs1. exact Hip.
  - split; [|split].
    + rewrite Hf, Hp1. reflexivity.
    + rewrite Hso, Hp1. reflexivity.
    + rewrite Hr, !Hs1 by lia. reflexivity.
Qed.

End StepBoundaryProperties.

Lemma ResetStateToBeginningOfStep_fields_witness :
  TwoPhaseBase.StateUpdate.deltaPressure
    (TwoPhaseBase.StateUpdate.ResetStateToBeginningOfStep Examples.linearFluid
       Examples.rigidSolid Examples.linearRelPerm Examples.steppedCell) 0%nat
  = 0.
Proof.
  refine (proj1 (proj2
    (ResetStateToBeginningOfStep_fields Examples.linearFluid
       Examples.rigidSolid Examples.linearRelPerm Examples.steppedCell 0%nat _))).
  simpl. lia.
Defined.

(** The cell that held pressure 10 and a pressure increment 2 starts the
    next step at pressure 12. *)
Lemma step_accepted_then_reset_witness :
  TwoPhaseBase.StateUpdate.pressure
    (TwoPhaseBase.StateUpdate.ResetStateToBeginningOfStep Examples.linearFluid
       Examples.rigidSolid Examples.linearRelPerm
       (TwoPhaseBase.StateUpdate.ImplicitStepComplete Examples.steppedCell))
    0%nat
  = 10 + 2.
Proof.
  refine (proj1
    (step_accepted_then_reset Examples.linearFluid
       Examples.rigidSolid Examples.linearRelPerm Examples.steppedCell 0%nat _)).
  simpl. lia.
Defined.
